(** * The tensor-network simulator device of PennyLane
    ([pennylane/beta/plugins/default_tensor.py]), as a shallow embedding.

    The device object is a record, its methods are functions in a state
    monad with exceptions: a Python exception leaves every assignment
    made before the [raise] in place, so a raised outcome carries the
    state it was raised in.

    Layers, leaf first:
    - [Backend]: the floating-point arithmetic of numpy, the singular
      value split of TensorNetwork, the catalogue [numpy_ops] of gate
      matrices and its [spectral_decomposition]; taken as an interface.
    - [Tensor], [Node], [Edge] and the [tn_] functions: arrays in row-major
      order and the calls of the TensorNetwork library the device makes,
      by their documented value.
    - [DefaultTensor] and its methods, in the order of the source. *)

From stdpp Require Import gmap strings list fin_maps pretty.
From Stdlib Require Import ZArith Lia.


(** ** Arrays *)

(** A numpy array: its shape and its entries in row-major (C) order. *)
Record Tensor (C : Type) := mkTensor { shape : list nat; data : list C }.
Arguments mkTensor {C} _ _.
Arguments shape {C} _.
Arguments data {C} _.

(** An attribute of the module [numpy_ops]: a fixed matrix, or a
    function of the parameters that returns one ([None]: it raises).
    A parameter is a numeric array; a number is an array of rank 0. *)
Inductive ops_value (C : Type) :=
| ops_array (A : Tensor C)
| ops_function (f : list (Tensor C) → option (Tensor C)).
Arguments ops_array {C} _.
Arguments ops_function {C} _.

(** The arithmetic the device does not define itself.  [C] stands for
    [np.complex128] and [R] for [np.float64]. *)
Class Backend (C R : Type) := {
  c_zero : C;
  c_one : C;
  c_add : C → C → C;
  c_mul : C → C → C;
  c_conj : C → C;
  (** [x == y] on numbers *)
  c_eqb : C → C → bool;
  c_real : C → R;
  c_imag : C → R;
  (** what [np.array(None, dtype=np.complex128)] holds: nan *)
  c_nan : C;
  r_one : R;
  r_add : R → R → R;
  r_sub : R → R → R;
  r_mul : R → R → R;
  r_div : R → R → R;
  (** [x <= y] *)
  r_leb : R → R → bool;
  (** [abs x > TOL] with [TOL = 1e-10] *)
  r_abs_gt_TOL : R → bool;
  (** the check of [np.random.choice] on its argument [p] *)
  r_probabilities : list R → bool;
  (** [tn.split_node(node, node[:k], node[k:])]: the left factor and the
      remainder of a singular value decomposition *)
  split_node : Tensor C → nat → option (Tensor C * Tensor C);
  (** [numpy_ops.<attribute>] *)
  numpy_ops : string → ops_value C;
  (** [numpy_ops.spectral_decomposition]: eigenvalues and projectors *)
  spectral_decomposition : Tensor C → list R * list (Tensor C);
}.

Section Arrays.
Context {C R : Type} `{!Backend C R}.

Definition size_of (dims : list nat) : nat := foldr Nat.mul 1 dims.

Definition ndim (t : Tensor C) : nat := length (shape t).

(** [np.reshape]: the entries stay as they are; [None] is numpy's
    ValueError when the sizes differ. *)
Definition reshape (t : Tensor C) (dims : list nat) : option (Tensor C) :=
  if decide (size_of dims = length (data t))
  then Some (mkTensor dims (data t)) else None.

(** [np.expand_dims(t, 0)] and [np.expand_dims(t, -1)] *)
Definition expand_dims_first (t : Tensor C) : Tensor C :=
  mkTensor (1 :: shape t) (data t).
Definition expand_dims_last (t : Tensor C) : Tensor C :=
  mkTensor (shape t ++ [1]) (data t).

(** [np.squeeze]: the axes of length one are dropped. *)
Definition squeeze (t : Tensor C) : Tensor C :=
  mkTensor (filter (λ d, d ≠ 1) (shape t)) (data t).

(** [t[::-1]] on a vector *)
Definition reversed (t : Tensor C) : Tensor C :=
  mkTensor (shape t) (reverse (data t)).

Definition conj_tensor (t : Tensor C) : Tensor C :=
  mkTensor (shape t) (c_conj <$> data t).

(** Row-major position of a multi-index. *)
Fixpoint flat_index (dims idx : list nat) : nat :=
  match dims, idx with
  | d :: ds, i :: js => i * size_of ds + flat_index ds js
  | _, _ => 0
  end.

Definition tget (t : Tensor C) (idx : list nat) : C :=
  default c_zero (data t !! flat_index (shape t) idx).

(** Every multi-index of a shape, in row-major order. *)
Fixpoint all_indices (dims : list nat) : list (list nat) :=
  match dims with
  | [] => [[]]
  | d :: ds => i ← seq 0 d; (λ js, i :: js) <$> all_indices ds
  end.

Definition c_sum (l : list C) : C := foldr c_add c_zero l.
Definition c_prod (l : list C) : C := foldr c_mul c_one l.
Definition r_prod (l : list R) : R := foldr r_mul r_one l.

(** [A @ B] on matrices; [None] is numpy's ValueError. *)
Definition matmul (A B : Tensor C) : option (Tensor C) :=
  match shape A, shape B with
  | [n; m], [m'; p] =>
      if decide (m = m')
      then Some (mkTensor [n; p]
             (ip ← all_indices [n; p];
              match ip with
              | [i; k] => [c_sum ((λ j, c_mul (tget A [i; j]) (tget B [j; k])) <$> seq 0 m)]
              | _ => []
              end))
      else None
  | _, _ => None
  end.
End Arrays.

(** ** The TensorNetwork library

    A node is a Python object holding a tensor; [node_id] stands for its
    identity.  An edge that hangs free is named by the node and the axis
    it belongs to; two edges joined by [tn.connect] are kept as a pair.
    The value of a contraction is the sum, over the indices of the joined
    edges, of the products of the entries: the order in which a strategy
    contracts is not modelled. *)

Record Edge := mkEdge { e_node : nat; e_axis : nat; e_dim : nat }.

#[global] Instance Edge_eq_dec : EqDecision Edge.
Proof. solve_decision. Defined.

Record Node (C : Type) := mkNode {
  node_id : nat;
  node_name : string;
  node_tensor : Tensor C;
}.
Arguments mkNode {C} _ _ _.
Arguments node_id {C} _.
Arguments node_name {C} _.
Arguments node_tensor {C} _.

Section TensorNetwork.
Context {C R : Type} `{!Backend C R}.

(** [node[i]] *)
Definition node_edge (n : Node C) (i : nat) : Edge :=
  mkEdge (node_id n) i (default 0 (shape (node_tensor n) !! i)).

(** [node.edges] *)
Definition node_edges (n : Node C) : list Edge :=
  node_edge n <$> seq 0 (ndim (node_tensor n)).

(** [node.set_name(name)] *)
Definition set_name (n : Node C) (name : string) : Node C :=
  mkNode (node_id n) name (node_tensor n).

(** [edge.is_dangling()] among the joined pairs [joined] *)
Definition is_dangling (joined : list (Edge * Edge)) (e : Edge) : Prop :=
  Forall (λ c, c.1 ≠ e ∧ c.2 ≠ e) joined.

(** [tn.connect(e1, e2)]: both edges must hang free, differ, and have
    one dimension; [None] is the library's ValueError. *)
Definition tn_connect (e1 e2 : Edge) (joined : list (Edge * Edge))
  : option (list (Edge * Edge)) :=
  if decide (is_dangling joined e1 ∧ is_dangling joined e2
             ∧ e1 ≠ e2 ∧ e_dim e1 = e_dim e2)
  then Some (joined ++ [(e1, e2)]) else None.

(** The index an axis reads: that of its place in the output order, or
    that of the joined pair it is part of. *)
Definition axis_index (out : list Edge) (joined : list (Edge * Edge))
    (oi ji : list nat) (e : Edge) : option nat :=
  match list_find (λ o, o = e) out with
  | Some (i, _) => oi !! i
  | None => '(j, _) ← list_find (λ c, c.1 = e ∨ c.2 = e) joined; ji !! j
  end.

Definition network_entry (nodes : list (Node C)) (out : list Edge)
    (joined : list (Edge * Edge)) (oi ji : list nat) : option C :=
  c_prod <$> mapM (λ n, tget (node_tensor n)
                          <$> mapM (axis_index out joined oi ji) (node_edges n)) nodes.

(** The contraction of [nodes] along the pairs of [joined] that lie
    between them, the free edges taken in the order [out]
    ([output_edge_order]).  [None] when [out] is not the list of the
    free edges of [nodes]. *)
Definition tn_contract (nodes : list (Node C)) (joined : list (Edge * Edge))
    (out : list Edge) : option (Tensor C) :=
  let es := nodes ≫= node_edges in
  let js := filter (λ c, c.1 ∈ es ∧ c.2 ∈ es) joined in
  if decide (NoDup out ∧ Forall (λ e, e ∈ es ∧ is_dangling js e) out)
  then mkTensor (e_dim <$> out)
         <$> mapM (λ oi, c_sum <$> mapM (network_entry nodes out js oi)
                                    (all_indices ((λ c, e_dim c.1) <$> js)))
                  (all_indices (e_dim <$> out))
  else None.

(** A tensor as a node of a network that lives for one call only. *)
Definition local (i : nat) (t : Tensor C) : Node C := mkNode i "" t.

(** [tn.contract_between(a, b)] after [tn.connect(a[-1], b[0])]:
    the remaining axes of [a], then those of [b]. *)
Definition contract_bond (a b : Tensor C) : option (Tensor C) :=
  let na := local 0 a in
  let nb := local 1 b in
  match ndim a, ndim b with
  | S ra, S rb =>
      joined ← tn_connect (node_edge na ra) (node_edge nb 0) [];
      tn_contract [na; nb] joined
        (take ra (node_edges na) ++ drop 1 (node_edges nb))
  | _, _ => None
  end.

(** ** [FiniteMPS]: a chain of nodes with axes (left bond, wire, right bond) *)

(** The value of [mps.apply_one_site_gate(gate, site)] at the site:
    [gate[1] ^ node[1]], edges in the order [node[0], gate[0], node[2]]. *)
Definition one_site_update (gate old : Tensor C) : option (Tensor C) :=
  let g := local 0 gate in
  let n := local 1 old in
  joined ← tn_connect (node_edge g 1) (node_edge n 1) [];
  tn_contract [g; n] joined [node_edge n 0; node_edge g 0; node_edge n 2].

(** The value of [mps.apply_two_site_gate(gate, site1, site2)] at the
    two sites: the gate joined to both wires, the bond between them
    contracted, and the result split again. *)
Definition two_site_update (gate left right : Tensor C)
  : option (Tensor C * Tensor C) :=
  let g := local 0 gate in
  let l := local 1 left in
  let r := local 2 right in
  j1 ← tn_connect (node_edge g 2) (node_edge l 1) [];
  j2 ← tn_connect (node_edge g 3) (node_edge r 1) j1;
  j3 ← tn_connect (node_edge l 2) (node_edge r 0) j2;
  merged ← tn_contract [g; l; r] j3
              [node_edge l 0; node_edge g 0; node_edge g 1; node_edge r 2];
  split_node merged 2.

(** The chain contracted from the left, as the loop of
    [_contract_premeasurement_network] and the environments of
    [measure_local_operator] do. *)
Definition contract_chain (ts : list (Tensor C)) : option (Tensor C) :=
  match ts with
  | [] => None
  | t :: rest => foldl (λ acc u, prev ← acc; contract_bond prev u) (Some t) rest
  end.

(** The closed network of an expectation value: [ket], its conjugate
    [bra], and observable nodes on their wires, axes [0..k) out and
    [k..2k) in.  Measured wires run ket - observable - bra.  [None] is
    an error of the library: a wire that is no axis of [ket], or an
    edge joined twice. *)
Definition connect_observable (ket bra : Node C)
    (joined : option (list (Edge * Edge))) (ow : Node C * list nat)
  : option (list (Edge * Edge)) :=
  foldl (λ acc iw,
           j ← acc;
           _ ← guard (iw.2 < ndim (node_tensor ket));
           j' ← tn_connect (node_edge ow.1 (length ow.2 + iw.1)) (node_edge ket iw.2) j;
           tn_connect (node_edge bra iw.2) (node_edge ow.1 iw.1) j')
        joined (imap (λ i w, (i, w)) ow.2).

(** The wires that are not measured run ket - bra; then everything is
    contracted: the observables into the ket one by one, the bra last.
    [tn.contract_between] refuses two nodes that share no edge. *)
Definition close_network (n : nat) (ket bra : Node C)
    (os : list (Node C * list nat)) (joined : list (Edge * Edge))
  : option (Tensor C) :=
  let meas_wires := os ≫= snd in
  j2 ← foldl (λ acc w,
                j ← acc;
                _ ← guard (w < ndim (node_tensor ket));
                tn_connect (node_edge bra w) (node_edge ket w) j)
             (Some joined) (filter (λ w, w ∉ meas_wires) (seq 0 n));
  _ ← guard (Forall (λ ow, ow.2 ≠ []) os ∧ 0 < ndim (node_tensor ket));
  tn_contract (ket :: bra :: os.*1) j2 [].

(** Node 0 is the ket, node 1 the bra, node [2 + j] observable [j]. *)
Definition observable_nodes (obs : list (Tensor C * list nat))
  : list (Node C * list nat) :=
  imap (λ j ow, (local (2 + j) ow.1, ow.2)) obs.

Definition expectation_network (n : nat) (ket : Tensor C)
    (obs : list (Tensor C * list nat)) : option (Tensor C) :=
  let k := local 0 ket in
  let b := local 1 (conj_tensor ket) in
  j1 ← foldl (connect_observable k b) (Some []) (observable_nodes obs);
  close_network n k b (observable_nodes obs) j1.
End TensorNetwork.

(** ** Exceptions *)

(** The [raise] statements of the device, by what their message says. *)
Inductive reason :=
| invalid_representation
| lengths_differ
| incompatible_shape
| consecutive_wires_only
| only_all_wires
| state_vector_length
| basis_state_parameter
| nearest_neighbour_gates
| nearest_neighbour_measurement
| method_not_found.

(** [OtherError] stands for what numpy, TensorNetwork or Python itself
    raise below the device (a failed reshape, an edge joined twice, an
    unbound local, ...). *)
Inductive exn :=
| ValueError (why : reason)
| NotImplementedError (why : reason)
| KeyError (key : string)
| IndexError
| OtherError (what : string).

(** The error taxonomy of the specification. *)
Inductive category := InvalidConfig | ShapeMismatch | InvalidWires | NotSupported.

Definition taxonomy (e : exn) : option category :=
  match e with
  | ValueError invalid_representation | ValueError method_not_found => Some InvalidConfig
  | ValueError incompatible_shape | ValueError state_vector_length => Some ShapeMismatch
  | ValueError only_all_wires | ValueError basis_state_parameter => Some InvalidWires
  | NotImplementedError _ => Some NotSupported
  | _ => None
  end.

(** ** The device *)

Record DefaultTensor (C R : Type) := mkDevice {
  num_wires : nat;
  shots : nat;
  _rep : string;
  _contraction_method : string;
  _nodes : gmap string (list (Node C));
  _free_wire_edges : list Edge;
  mps : option (list (Node C));
  _contracted_state_node : option (Node C);
  (** the pairs of edges joined by [tn.connect] in the network of the state *)
  joined : list (Edge * Edge);
  (** the identity the next node object gets *)
  next_id : nat;
  (** the imaginary parts reported through [warnings.warn] *)
  warned : list R;
}.
Arguments mkDevice {C R} _ _ _ _ _ _ _ _ _ _ _.
Arguments num_wires {C R} _.
Arguments shots {C R} _.
Arguments _rep {C R} _.
Arguments _contraction_method {C R} _.
Arguments _nodes {C R} _.
Arguments _free_wire_edges {C R} _.
Arguments mps {C R} _.
Arguments _contracted_state_node {C R} _.
Arguments joined {C R} _.
Arguments next_id {C R} _.
Arguments warned {C R} _.

(** [contract_fns] *)
Definition contract_fns : list string := ["greedy"; "branch"; "optimal"; "auto"].

(** [_operation_map] and [_observable_map]: the attribute of [numpy_ops]
    behind each name. *)
Definition _operation_map : list (string * option string) :=
  [("BasisState", None); ("QubitStateVector", None);
   ("QubitUnitary", Some "unitary"); ("PauliX", Some "X"); ("PauliY", Some "Y");
   ("PauliZ", Some "Z"); ("Hadamard", Some "H"); ("S", Some "S"); ("T", Some "T");
   ("CNOT", Some "CNOT"); ("SWAP", Some "SWAP"); ("CSWAP", Some "CSWAP");
   ("Toffoli", Some "Toffoli"); ("CZ", Some "CZ"); ("PhaseShift", Some "Rphi");
   ("RX", Some "Rotx"); ("RY", Some "Roty"); ("RZ", Some "Rotz"); ("Rot", Some "Rot3");
   ("CRX", Some "CRotx"); ("CRY", Some "CRoty"); ("CRZ", Some "CRotz");
   ("CRot", Some "CRot3")].

Definition _observable_map : list (string * option string) :=
  [("PauliX", Some "X"); ("PauliY", Some "Y"); ("PauliZ", Some "Z");
   ("Hadamard", Some "H"); ("Hermitian", Some "hermitian");
   ("Identity", Some "identity")].

(** The two maps merged into one dict: the second map wins. *)
Definition _operation_and_observable_map : gmap string (option string) :=
  list_to_map _observable_map ∪ list_to_map _operation_map.

(** [tuple(w for w in wires)] as [str.format] prints it *)
Definition tuple_repr (wires : list nat) : string :=
  match wires with
  | [] => "()"
  | [w] => "(" +:+ pretty w +:+ ",)"
  | _ => "(" +:+ String.concat ", " (pretty <$> wires) +:+ ")"
  end.

(** [itertools.product] of the lists [ls], the last one running fastest *)
Fixpoint product {A : Type} (ls : list (list A)) : list (list A) :=
  match ls with
  | [] => [[]]
  | l :: rest => x ← l; (λ xs, x :: xs) <$> product rest
  end.

(** [zip(a, b, c)] *)
Definition zip3 {A B D : Type} (a : list A) (b : list B) (c : list D)
  : list (A * B * D) := zip (zip a b) c.

(** The arguments of a measurement: one observable, or lists of them
    ([isinstance(observable, list)]). *)
Inductive measurement (C : Type) :=
| one_observable (observable : string) (wires : list nat) (par : list (Tensor C))
| observable_list (observable : list string) (wires : list (list nat))
    (par : list (list (Tensor C))).
Arguments one_observable {C} _ _ _.
Arguments observable_list {C} _ _ _.

Definition as_lists {C : Type} (m : measurement C)
  : list string * list (list nat) * list (list (Tensor C)) :=
  match m with
  | one_observable o w p => ([o], [w], [p])
  | observable_list os ws ps => (os, ws, ps)
  end.

(** ** Methods as state transformers that may raise *)

Inductive outcome (S A : Type) :=
| Ok (a : A) (s : S)
| Raise (e : exn) (s : S).
Arguments Ok {S A} _ _.
Arguments Raise {S A} _ _.

Definition M (S A : Type) : Type := S → outcome S A.

#[global] Instance M_ret {S : Type} : MRet (M S) := λ A a s, Ok a s.
#[global] Instance M_bind {S : Type} : MBind (M S) :=
  λ A B k m s, match m s with Ok a s' => k a s' | Raise e s' => Raise e s' end.

Definition raise {S A : Type} (e : exn) : M S A := λ s, Raise e s.
Definition get {S : Type} : M S S := λ s, Ok s s.
Definition gets {S A : Type} (f : S → A) : M S A := λ s, Ok (f s) s.
Definition modify {S : Type} (f : S → S) : M S unit := λ s, Ok tt (f s).

(** The value of an optional result, or the exception [e]. *)
Definition or_raise {S A : Type} (e : exn) (o : option A) : M S A :=
  match o with Some a => mret a | None => raise e end.

Definition when_ {S : Type} (b : bool) (m : M S unit) : M S unit :=
  if b then m else mret tt.

(** A [for] loop, and a list comprehension whose body has effects. *)
Fixpoint for_each {S A : Type} (l : list A) (body : A → M S unit) : M S unit :=
  match l with
  | [] => mret tt
  | x :: rest => body x;; for_each rest body
  end.

Fixpoint map_m {S A B : Type} (f : A → M S B) (l : list A) : M S (list B) :=
  match l with
  | [] => mret []
  | x :: rest => y ← f x; ys ← map_m f rest; mret (y :: ys)
  end.

(** The state an outcome ends in, and its result. *)
Definition state_of {S A : Type} (o : outcome S A) : S :=
  match o with Ok _ s => s | Raise _ s => s end.

Definition value_of {S A : Type} (o : outcome S A) : option A :=
  match o with Ok a _ => Some a | Raise _ _ => None end.

Definition raised {S A : Type} (o : outcome S A) : option exn :=
  match o with Ok _ _ => None | Raise e _ => Some e end.

Section Device.
Context {C R : Type} `{!Backend C R}.

Abbreviation Dev := (M (DefaultTensor C R)).

(** Assignments to the attributes of [self]. *)
Definition set_nodes (v : gmap string (list (Node C))) (s : DefaultTensor C R) :=
  mkDevice (num_wires s) (shots s) (_rep s) (_contraction_method s) v
    (_free_wire_edges s) (mps s) (_contracted_state_node s) (joined s)
    (next_id s) (warned s).
Definition set_free_wire_edges (v : list Edge) (s : DefaultTensor C R) :=
  mkDevice (num_wires s) (shots s) (_rep s) (_contraction_method s) (_nodes s)
    v (mps s) (_contracted_state_node s) (joined s) (next_id s) (warned s).
Definition set_mps (v : option (list (Node C))) (s : DefaultTensor C R) :=
  mkDevice (num_wires s) (shots s) (_rep s) (_contraction_method s) (_nodes s)
    (_free_wire_edges s) v (_contracted_state_node s) (joined s) (next_id s)
    (warned s).
Definition set_contracted_state_node (v : option (Node C)) (s : DefaultTensor C R) :=
  mkDevice (num_wires s) (shots s) (_rep s) (_contraction_method s) (_nodes s)
    (_free_wire_edges s) (mps s) v (joined s) (next_id s) (warned s).
Definition set_joined (v : list (Edge * Edge)) (s : DefaultTensor C R) :=
  mkDevice (num_wires s) (shots s) (_rep s) (_contraction_method s) (_nodes s)
    (_free_wire_edges s) (mps s) (_contracted_state_node s) v (next_id s)
    (warned s).
Definition set_next_id (v : nat) (s : DefaultTensor C R) :=
  mkDevice (num_wires s) (shots s) (_rep s) (_contraction_method s) (_nodes s)
    (_free_wire_edges s) (mps s) (_contracted_state_node s) (joined s) v
    (warned s).
Definition set_contraction_method (v : string) (s : DefaultTensor C R) :=
  mkDevice (num_wires s) (shots s) (_rep s) v (_nodes s)
    (_free_wire_edges s) (mps s) (_contracted_state_node s) (joined s)
    (next_id s) (warned s).
Definition set_warned (v : list R) (s : DefaultTensor C R) :=
  mkDevice (num_wires s) (shots s) (_rep s) (_contraction_method s) (_nodes s)
    (_free_wire_edges s) (mps s) (_contracted_state_node s) (joined s)
    (next_id s) v.

(** [tn.Node(A, name=name)]: a new object. *)
Definition tn_Node (A : Tensor C) (name : string) : Dev (Node C) :=
  s ← get;
  modify (set_next_id (S (next_id s)));;
  mret (mkNode (next_id s) name A).

(** [_zero_state] *)
Definition _zero_state : Tensor C := mkTensor [2] [c_one; c_zero].

(** [_clear_network_data] *)
Definition _clear_network_data : Dev unit :=
  modify (set_nodes ∅);;
  modify (set_free_wire_edges []);;
  modify (set_mps None);;
  modify (set_contracted_state_node None);;
  (* the joined edges live in the node objects that are dropped *)
  modify (set_joined []).

(** [_add_node(A, wires, name, key)]; [A] is an array or a node. *)
Definition _add_node (A : Tensor C + Node C) (wires : list nat)
    (name key : string) : Dev (Node C) :=
  let name := name +:+ tuple_repr wires in
  node ← match A with
         | inr n => mret (set_name n name)
         | inl t => tn_Node t name
         end;
  modify (λ s, set_nodes (<[key := default [] (_nodes s !! key) ++ [node]]> (_nodes s)) s);;
  mret node.

Definition tensor_of (A : Tensor C + Node C) : Tensor C :=
  match A with inl t => t | inr n => node_tensor n end.

(** The loop of [_add_initial_state_nodes] that breaks a tensor on
    several wires into chain nodes: every wire but the last splits a
    left factor off [DV]. *)
Fixpoint split_into_chain (DV : Tensor C + Node C) (wires_seq : list nat)
    (name : string) : Dev (list (Node C)) :=
  match wires_seq with
  | [] => mret []
  | [wire] => node ← _add_node DV [wire] name "state"; mret [node]
  | wire :: rest =>
      '(U, DV') ← or_raise (OtherError "split_node") (split_node (tensor_of DV) 2);
      U ← tn_Node U "__unnamed_node__";
      DV' ← tn_Node DV' "__unnamed_node__";
      node ← _add_node (inr U) [wire] name "state";
      nodes ← split_into_chain (inr DV') rest name;
      mret (node :: nodes)
  end.

Definition max_of (l : list nat) : nat := foldr Nat.max 0 l.
Definition min_of (l : list nat) : nat := foldr Nat.min (max_of l) l.

(** [FiniteMPS(nodes, canonicalize=False)]: the chain keeps nodes of
    its own, named [node0], [node1], ... *)
Definition FiniteMPS (nodes : list (Node C)) : Dev (list (Node C)) :=
  map_m (λ '(n, node), tn_Node (node_tensor node) ("node" +:+ pretty n))
        (imap (λ n node, (n, node)) nodes).

(** The body of the loop over the components, one per representation. *)
Definition add_exact_component (c : Tensor C * list nat * string) : Dev unit :=
  let '(tensor, wires_seq, name) := c in
  if decide (ndim tensor ≠ length wires_seq)
  then raise (ValueError incompatible_shape)
  else
    node ← _add_node (inl tensor) wires_seq name "state";
    modify (λ s, set_free_wire_edges (_free_wire_edges s ++ node_edges node) s).

Definition add_mps_component (c : Tensor C * list nat * string)
  : Dev (list (Node C)) :=
  let '(tensor, wires_seq, name) := c in
  if decide (ndim tensor ≠ length wires_seq)
  then raise (ValueError incompatible_shape)
  else
    let tensor := expand_dims_last (expand_dims_first tensor) in
    if decide (shape tensor = [1; 2; 1])
    then node ← _add_node (inl tensor) wires_seq name "state"; mret [node]
    else
      if decide (wires_seq = []) then raise (OtherError "max() arg is an empty sequence")
      else if decide (max_of wires_seq - min_of wires_seq ≠ length wires_seq - 1)
      then raise (NotImplementedError consecutive_wires_only)
      else split_into_chain (inl tensor) wires_seq name.

(** [_add_initial_state_nodes(tensors, wires, names)] *)
Definition _add_initial_state_nodes (tensors : list (Tensor C))
    (wires : list (list nat)) (names : list string) : Dev unit :=
  if decide (¬ (length tensors = length wires ∧ length wires = length names))
  then raise (ValueError lengths_differ)
  else
    rep ← gets _rep;
    if decide (rep = "exact") then
      modify (set_free_wire_edges []);;
      for_each (zip3 tensors wires names) add_exact_component
    else if decide (rep = "mps") then
      nodes ← map_m add_mps_component (zip3 tensors wires names);
      chain ← FiniteMPS (concat nodes);
      modify (set_mps (Some chain));;
      modify (set_free_wire_edges ((λ node, node_edge node 1) <$> chain))
    else mret tt.

(** [reset] *)
Definition reset : Dev unit :=
  _clear_network_data;;
  n ← gets num_wires;
  _add_initial_state_nodes (replicate n _zero_state) ((λ w, [w]) <$> seq 0 n)
    (replicate n "ZeroState").

(** Modelled from the spec: [Device.__init__(wires, shots)], the
    constructor of the base class in [pennylane/_device.py], which is
    not among the sources here.  It stores [wires] and [shots], and the
    setter of [shots] refuses fewer than one shot with a DeviceError. *)
Definition Device__init__ (wires shots : nat) : outcome (DefaultTensor C R) unit :=
  if decide (shots < 1)
  then Raise (OtherError "DeviceError") (mkDevice wires 0 "" "" ∅ [] None None [] 0 [])
  else Ok tt (mkDevice wires shots "" "" ∅ [] None None [] 0 []).

(** [__init__(wires, shots, representation, contraction_method)]:
    nothing but [wires] and [shots] is set before [reset]. *)
Definition __init__ (wires shots : nat) (representation contraction_method : string)
  : outcome (DefaultTensor C R) unit :=
  match Device__init__ wires shots with
  | Raise e self => Raise e self
  | Ok _ self =>
      if decide (representation ∉ ["exact"; "mps"])
      then Raise (ValueError invalid_representation) self
      else
        reset (mkDevice wires shots representation contraction_method ∅ [] None None [] 0 [])
  end.

(** [_get_operator_matrix(operation, par)]: the two state preparations
    map to [None], which is not callable, and [np.array(None)] of a
    complex type is an array of rank 0 that holds nan. *)
Definition _get_operator_matrix (operation : string) (par : list (Tensor C))
  : Dev (Tensor C) :=
  A ← or_raise (KeyError operation) (_operation_and_observable_map !! operation);
  match A with
  | None => mret (mkTensor [] [c_nan])
  | Some attribute =>
      match numpy_ops attribute with
      | ops_array A => mret A
      | ops_function f => or_raise (OtherError attribute) (f par)
      end
  end.

(** One entry of the list comprehension of the [BasisState] branch:
    [zero_vec if par[0][wire] == 0 else one_vec], for an array [par0] of
    length [len]. *)
Definition basis_tensor (par0 : Tensor C) (len wire : nat) : Dev (Tensor C) :=
  let zero_vec := _zero_state in
  let one_vec := reversed zero_vec in
  x ← or_raise IndexError (if decide (wire < len) then data par0 !! wire else None);
  mret (if c_eqb x c_zero then zero_vec else one_vec).

(** [_add_state_prep_nodes(operation, par)] *)
Definition _add_state_prep_nodes (operation : string) (par : list (Tensor C))
  : Dev unit :=
  n ← gets num_wires;
  if decide (operation = "QubitStateVector") then
    state_vector ← or_raise IndexError (par !! 0);
    if decide (shape state_vector = [2 ^ n]) then
      tensor ← or_raise (OtherError "reshape") (reshape state_vector (replicate n 2));
      _add_initial_state_nodes [tensor] [seq 0 n] [operation]
    else raise (ValueError state_vector_length)
  else if decide (operation = "BasisState") then
    par0 ← or_raise IndexError (par !! 0);
    match shape par0 with
    | [] => raise (OtherError "len() of unsized object")
    | len :: rest =>
        if decide (len = 0 ∨ n < len) then raise (ValueError basis_state_parameter)
        else if decide (rest ≠ []) then raise (OtherError "unhashable type")
        else if decide (¬ Forall (λ x, c_eqb x c_zero ∨ c_eqb x c_one) (take len (data par0)))
        then raise (ValueError basis_state_parameter)
        else
          tensors ← map_m (basis_tensor par0 len) (seq 0 n);
          _add_initial_state_nodes tensors ((λ w, [w]) <$> seq 0 n) (replicate n operation)
    end
  else raise (OtherError "UnboundLocalError").

(** [mps.apply_one_site_gate(gate, site)] *)
Definition apply_one_site_gate (gate : Node C) (site : nat) : Dev unit :=
  chain ← gets mps;
  chain ← or_raise (OtherError "AttributeError") chain;
  old ← or_raise (OtherError "site out of range") (chain !! site);
  t ← or_raise (OtherError "apply_one_site_gate")
        (one_site_update (node_tensor gate) (node_tensor old));
  new ← tn_Node t (node_name old);
  modify (set_mps (Some (<[site := new]> chain))).

(** [mps.apply_two_site_gate(gate, site1, site2)]: the library accepts
    [site2 = site1 + 1] only. *)
Definition apply_two_site_gate (gate : Node C) (site1 site2 : nat) : Dev unit :=
  chain ← gets mps;
  chain ← or_raise (OtherError "AttributeError") chain;
  if decide (ndim (node_tensor gate) ≠ 4 ∨ site2 ≠ site1 + 1)
  then raise (OtherError "apply_two_site_gate")
  else
    left ← or_raise (OtherError "site out of range") (chain !! site1);
    right ← or_raise (OtherError "site out of range") (chain !! site2);
    '(t1, t2) ← or_raise (OtherError "apply_two_site_gate")
                  (two_site_update (node_tensor gate) (node_tensor left) (node_tensor right));
    new1 ← tn_Node t1 (node_name left);
    new2 ← tn_Node t2 (node_name right);
    modify (set_mps (Some (<[site2 := new2]> (<[site1 := new1]> chain)))).

(** [self._free_wire_edges[wire] = self.mps.nodes[wire][1]] *)
Definition refresh_free_wire_edge (wire : nat) : Dev unit :=
  s ← get;
  chain ← or_raise (OtherError "AttributeError") (mps s);
  node ← or_raise IndexError (chain !! wire);
  if decide (wire < length (_free_wire_edges s))
  then modify (set_free_wire_edges (<[wire := node_edge node 1]> (_free_wire_edges s)))
  else raise IndexError.

(** The body of the loop of [_add_gate_nodes] in the exact representation. *)
Definition connect_gate_wire (op_node : Node C) (num_wires : nat) (iw : nat * nat)
  : Dev unit :=
  let '(idx, w) := iw in
  s ← get;
  free ← or_raise IndexError (_free_wire_edges s !! w);
  j ← or_raise (OtherError "connect")
        (tn_connect (node_edge op_node (num_wires + idx)) free (joined s));
  modify (set_joined j);;
  modify (λ s, set_free_wire_edges (<[w := node_edge op_node idx]> (_free_wire_edges s)) s).

(** [_add_gate_nodes(operation, wires, par)] *)
Definition _add_gate_nodes (operation : string) (wires : option (list nat))
    (par : list (Tensor C)) : Dev unit :=
  A ← _get_operator_matrix operation par;
  wires ← or_raise (OtherError "len() of NoneType") wires;
  let num_wires := length wires in
  A ← or_raise (OtherError "reshape") (reshape A (replicate (num_wires * 2) 2));
  op_node ← _add_node (inl A) wires operation "state";
  rep ← gets _rep;
  if decide (rep = "exact") then
    for_each (imap (λ idx w, (idx, w)) wires) (connect_gate_wire op_node num_wires)
  else if decide (rep = "mps") then
    match wires with
    | [wire] =>
        apply_one_site_gate op_node wire;;
        refresh_free_wire_edge wire
    | [w0; w1] =>
        if decide (w1 - w0 = 1 ∨ w0 - w1 = 1) then
          apply_two_site_gate op_node w0 w1;;
          for_each wires refresh_free_wire_edge
        else raise (NotImplementedError nearest_neighbour_gates)
    | _ => raise (NotImplementedError nearest_neighbour_gates)
    end
  else mret tt.

(** [apply(operation, wires, par)]; [wires] may be [None]. *)
Definition apply (operation : string) (wires : option (list nat))
    (par : list (Tensor C)) : Dev unit :=
  if decide (operation = "QubitStateVector" ∨ operation = "BasisState") then
    n ← gets num_wires;
    if decide (wires ≠ None ∧ wires ≠ Some [] ∧ wires ≠ Some (seq 0 n))
    then raise (ValueError only_all_wires)
    else
      _clear_network_data;;
      _add_state_prep_nodes operation par
  else _add_gate_nodes operation wires par.

(** [_create_nodes_from_tensors(tensors, wires, observable_names, key)] *)
Definition _create_nodes_from_tensors (tensors : list (Tensor C))
    (wires : list (list nat)) (observable_names : list string) (key : string)
  : Dev (list (Node C)) :=
  map_m (λ '(A, w, o), _add_node (inl A) w o key) (zip3 tensors wires observable_names).

(** What a contractor does to the objects of the network besides
    computing the tensor [t]; [ket.set_name("Ket")] is done here too.
    A network of one node with no edge to contract is returned as it
    is, its edges reordered in place: the node registered under
    ["state"] and the contracted node are then one object, and the
    registry sees the new name.  Otherwise the result is a new node.
    Either way the edges of [output_edge_order], which are the entries
    of the wire-edge table, end up as the edges of the result, in that
    order, and the edges that were joined are gone. *)
Definition contracted_node (nodes : list (Node C)) (t : Tensor C) : Dev (Node C) :=
  s ← get;
  let es := nodes ≫= node_edges in
  ket ← match nodes with
         | [node] =>
             if decide (filter (λ c, c.1 ∈ es ∧ c.2 ∈ es) (joined s) = [])
             then
               let ket := mkNode (node_id node) "Ket" t in
               modify (set_nodes (<["state" := [ket]]> (_nodes s)));;
               mret ket
             else tn_Node t "Ket"
         | _ => tn_Node t "Ket"
         end;
  modify (set_joined []);;
  modify (set_free_wire_edges (node_edges ket));;
  mret ket.

(** [_contract_premeasurement_network]: contracts once and caches.  In
    the chain of a single node the contracted node is that node itself,
    so squeezing and renaming it changes the chain too. *)
Definition _contract_premeasurement_network : Dev unit :=
  s ← get;
  match _contracted_state_node s with
  | Some _ => mret tt
  | None =>
      ket ← (if decide (_rep s = "exact") then
               when_ (bool_decide (_contraction_method s ∉ contract_fns))
                     (raise (KeyError (_contraction_method s)));;
               nodes ← or_raise (KeyError "state") (_nodes s !! "state");
               t ← or_raise (OtherError "contract")
                     (tn_contract nodes (joined s) (_free_wire_edges s));
               contracted_node nodes t
             else if decide (_rep s = "mps") then
               chain ← or_raise (OtherError "AttributeError") (mps s);
               match chain with
               | [] => raise (OtherError "UnboundLocalError")
               | [node] =>
                   let ket := mkNode (node_id node) "Ket" (squeeze (node_tensor node)) in
                   modify (set_mps (Some [ket]));;
                   mret ket
               | _ =>
                   t ← or_raise (OtherError "contract")
                         (contract_chain (node_tensor <$> chain));
                   tn_Node (squeeze t) "Ket"
               end
             else raise (OtherError "UnboundLocalError"));
      modify (set_contracted_state_node (Some ket))
  end.

(** [_state] *)
Definition _state : Dev (Tensor C) :=
  _contract_premeasurement_network;;
  ket ← gets _contracted_state_node;
  ket ← or_raise (OtherError "AttributeError") ket;
  mret (squeeze (node_tensor ket)).

(** The number a contraction to a scalar leaves. *)
Definition scalar_of (t : Tensor C) : option C :=
  match data t with [c] => Some c | _ => None end.

(** [_ev_exact(obs_nodes, wires)]: the observables and the bra are
    joined to the edges of the cached node itself, and [tn.connect]
    refuses an edge that a gate has been joined to since the
    contraction. *)
Definition _ev_exact (obs_nodes : list (Node C)) (wires : list (list nat)) : Dev C :=
  _contract_premeasurement_network;;
  s ← get;
  ket ← or_raise (OtherError "AttributeError") (_contracted_state_node s);
  when_ (bool_decide (¬ Forall (is_dangling (joined s)) (node_edges ket)))
        (raise (OtherError "connect"));;
  t ← or_raise (OtherError "contract")
        (expectation_network (num_wires s) (node_tensor ket)
           (zip (node_tensor <$> obs_nodes) wires));
  or_raise (OtherError "not a scalar") (scalar_of t).

(** Threads an accumulator through a loop that may raise. *)
Fixpoint fold_m {S A B : Type} (f : B → A → M S B) (b : B) (l : list A) : M S B :=
  match l with
  | [] => mret b
  | x :: rest => b' ← f b x; fold_m f b' rest
  end.

(** The network of bra and ket chains of [_ev_mps]: chain node [i] is
    node [i], its conjugate node [n + i], observable [j] node [2n + j]. *)
Definition connect_mps_wire (kets bras : list (Node C)) (obs_node : Node C)
    (offset : nat) (j : list (Edge * Edge)) (iw : nat * nat)
  : Dev (list (Edge * Edge)) :=
  let '(idx, wire) := iw in
  bra ← or_raise IndexError (bras !! wire);
  j ← or_raise (OtherError "connect")
        (tn_connect (node_edge bra 1) (node_edge obs_node idx) j);
  ket ← or_raise IndexError (kets !! wire);
  or_raise (OtherError "connect")
    (tn_connect (node_edge obs_node (offset + idx)) (node_edge ket 1) j).

Definition connect_mps_observable (kets bras : list (Node C))
    (j : list (Edge * Edge)) (ow : Node C * list nat) : Dev (list (Edge * Edge)) :=
  let '(obs_node, wire_seq) := ow in
  match wire_seq with
  | [a; b] =>
      when_ (bool_decide (1 < a - b ∨ 1 < b - a))
            (raise (NotImplementedError nearest_neighbour_measurement))
  | _ => mret tt
  end;;
  fold_m (connect_mps_wire kets bras obs_node (length wire_seq)) j
         (imap (λ idx wire, (idx, wire)) wire_seq).

Definition connect_mps_rest (n : nat) (kets bras : list (Node C))
    (meas_wires : list nat) (j : list (Edge * Edge)) (wire : nat)
  : Dev (list (Edge * Edge)) :=
  bra ← or_raise IndexError (bras !! wire);
  ket ← or_raise IndexError (kets !! wire);
  j ← (if decide (wire ∉ meas_wires)
       then or_raise (OtherError "connect")
              (tn_connect (node_edge bra 1) (node_edge ket 1) j)
       else mret j);
  if decide (wire ≠ n - 1) then
    ket' ← or_raise IndexError (kets !! (wire + 1));
    bra' ← or_raise IndexError (bras !! (wire + 1));
    j ← or_raise (OtherError "connect")
          (tn_connect (node_edge ket 2) (node_edge ket' 0) j);
    or_raise (OtherError "connect")
      (tn_connect (node_edge bra 2) (node_edge bra' 0) j)
  else mret j.

Definition chain_expectation (n : nat) (chain : list (Tensor C))
    (obs : list (Tensor C * list nat)) : Dev (Tensor C) :=
  let m := length chain in
  let kets := imap (λ i t, local i t) chain in
  let bras := imap (λ i t, local (m + i) (conj_tensor t)) chain in
  let os := imap (λ j ow, (local (2 * m + j) ow.1, ow.2)) obs in
  j ← fold_m (connect_mps_observable kets bras) [] os;
  j ← fold_m (connect_mps_rest n kets bras (os ≫= snd)) j (seq 0 n);
  bra0 ← or_raise IndexError (bras !! 0);
  ket0 ← or_raise IndexError (kets !! 0);
  bra1 ← or_raise IndexError (bras !! (n - 1));
  ket1 ← or_raise IndexError (kets !! (n - 1));
  when_ (bool_decide (¬ (Forall (λ ow, ow.2 ≠ []) obs ∧ n = m)))
        (raise (OtherError "contract_between"));;
  t ← or_raise (OtherError "contract")
        (tn_contract (kets ++ bras ++ os.*1) j
           [node_edge bra0 0; node_edge bra1 2; node_edge ket0 0; node_edge ket1 2]);
  mret (squeeze t).

(** [_ev_mps(obs_nodes, wires)] *)
Definition _ev_mps (obs_nodes : list (Node C)) (wires : list (list nat)) : Dev C :=
  if decide (Exists (λ wires_seq, 2 < length wires_seq) wires)
  then raise (NotImplementedError nearest_neighbour_measurement)
  else
    s ← get;
    local_measurement ←
      match obs_nodes with
      | [_] => w0 ← or_raise IndexError (wires !! 0); mret (bool_decide (length w0 = 1))
      | _ => mret false
      end;
    chain ← or_raise (OtherError "AttributeError") (mps s);
    expval ←
      (if local_measurement : bool
       then (* mps.measure_local_operator(obs_nodes, wires[0])[0] *)
         chain_expectation (length chain) (node_tensor <$> chain)
           (zip (node_tensor <$> obs_nodes) (take 1 wires))
       else
         chain_expectation (num_wires s) (node_tensor <$> chain)
           (zip (node_tensor <$> obs_nodes) wires));
    or_raise (OtherError "not a scalar") (scalar_of expval).

(** [ev(obs_nodes, wires)] *)
Definition ev (obs_nodes : list (Node C)) (wires : list (list nat)) : Dev R :=
  rep ← gets _rep;
  expval ← (if decide (rep = "exact") then _ev_exact obs_nodes wires
            else if decide (rep = "mps") then _ev_mps obs_nodes wires
            else raise (OtherError "UnboundLocalError"));
  when_ (r_abs_gt_TOL (c_imag expval))
        (modify (λ s, set_warned (warned s ++ [c_imag expval]) s));;
  mret (c_real expval).

(** [np.reshape(A, [2] * len(wires) * 2)] *)
Definition reshape_operator (A : Tensor C) (wires : list nat) : Dev (Tensor C) :=
  or_raise (OtherError "reshape") (reshape A (replicate (length wires * 2) 2)).

(** [expval(observable, wires, par)] *)
Definition expval (m : measurement C) : Dev R :=
  let '(observable, wires, par) := as_lists m in
  tensors ← map_m (λ '(o, p, w), A ← _get_operator_matrix o p; reshape_operator A w)
                  (zip3 observable par wires);
  nodes ← _create_nodes_from_tensors tensors wires observable "observables";
  ev nodes wires.

(** [var(observable, wires, par)]; [x ** 2] is [x * x]. *)
Definition var (m : measurement C) : Dev R :=
  let '(observable, wires, par) := as_lists m in
  matrices ← map_m (λ '(o, p), _get_operator_matrix o p) (zip observable par);
  tensors ← map_m (λ '(A, wires), reshape_operator A wires) (zip matrices wires);
  tensors_of_squared_matrices ←
    map_m (λ '(A, wires),
             AA ← or_raise (OtherError "matmul") (matmul A A);
             reshape_operator AA wires)
          (zip matrices wires);
  obs_nodes ← _create_nodes_from_tensors tensors wires observable "observables";
  obs_nodes_for_squares ←
    _create_nodes_from_tensors tensors_of_squared_matrices wires observable "observables";
  ev_squares ← ev obs_nodes_for_squares wires;
  ev_obs ← ev obs_nodes wires;
  mret (r_sub ev_squares (r_mul ev_obs ev_obs)).

(** [p.cumsum()] *)
Fixpoint cumsum_from (acc : R) (p : list R) : list R :=
  match p with
  | [] => []
  | x :: rest => r_add acc x :: cumsum_from (r_add acc x) rest
  end.

Definition cumsum (p : list R) : list R :=
  match p with
  | [] => []
  | x :: rest => x :: cumsum_from x rest
  end.

(** [cdf.searchsorted(u, side="right")] on an ascending [cdf]: how many
    entries are at most [u]. *)
Definition searchsorted_right (cdf : list R) (u : R) : nat :=
  length (filter (λ c, r_leb c u) cdf).

(** [np.random.choice(a, size, p=p)]: [rng k] stands for the [k]-th
    number of [random_sample], uniform in [0, 1).  The library refuses
    an empty [a], a [p] of another length, and a [p] that is no
    probability vector; then it draws by the cumulative sums of [p],
    divided by the last of them. *)
Definition random_choice (rng : nat → R) (a : list R) (size : nat) (p : list R)
  : option (list R) :=
  _ ← guard (a ≠ [] ∧ length a = length p ∧ r_probabilities p);
  let cdf := cumsum p in
  last_cdf ← last cdf;
  let cdf := (λ c, r_div c last_cdf) <$> cdf in
  mapM (λ k, a !! searchsorted_right cdf (rng k)) (seq 0 size).

(** The joint probability of one combination of projectors: the body of
    the loop of [sample]. *)
Definition joint_probability (projs : list (Tensor C * list nat)) : Dev R :=
  obs_nodes ← map_m (λ '(proj, proj_wires),
                       tensor ← reshape_operator proj proj_wires;
                       _add_node (inl tensor) proj_wires "UnnamedNode" "observables")
                    projs;
  ev obs_nodes (projs.*2).

(** [sample(observable, wires, par)], drawing with [rng]. *)
Definition sample (rng : nat → R) (m : measurement C) : Dev (list R) :=
  let '(observable, wires, par) := as_lists m in
  matrices ← map_m (λ '(o, p), _get_operator_matrix o p) (zip observable par);
  let decompositions := spectral_decomposition <$> matrices in
  when_ (bool_decide (decompositions = [])) (raise (OtherError "not enough values to unpack"));;
  let eigenvalues := decompositions.*1 in
  let projector_groups := decompositions.*2 in
  projectors_with_wires ←
    map_m (λ '(idx, proj_group),
             map_m (λ proj, w ← or_raise IndexError (wires !! idx); mret (proj, w))
                   proj_group)
          (imap (λ idx g, (idx, g)) projector_groups);
  let joint_outcomes := product eigenvalues in
  let projector_tensor_products := product projectors_with_wires in
  joint_probabilities ← map_m joint_probability projector_tensor_products;
  let outcomes := r_prod <$> joint_outcomes in
  n ← gets shots;
  or_raise (OtherError "choice") (random_choice rng outcomes n joint_probabilities).

(** The setter of the property [contraction_method] *)
Definition contraction_method_setter (method : string) : Dev unit :=
  if decide (method ∉ contract_fns)
  then raise (ValueError method_not_found)
  else modify (set_contraction_method method).

(** The properties [operations] and [observables] *)
Definition operations : gset string := list_to_set (_operation_map.*1).
Definition observables : gset string := list_to_set (_observable_map.*1).
End Device.

(** ** A backend that computes: Gaussian integers

    Numbers [a + b i] with integer parts, reals as integers.  Enough for
    the Pauli matrices, CNOT and the basis states; there is no singular
    value decomposition over the integers, so [split_node] always fails. *)
Module GaussianIntegers.

Definition Cz : Type := (Z * Z)%type.

Definition of_Z (z : Z) : Cz := (z, 0%Z).

Definition matrix (rows : list (list Z)) : Tensor Cz :=
  mkTensor [length rows; length (default [] (rows !! 0))] (of_Z <$> concat rows).

Definition X : Tensor Cz := matrix [[0; 1]; [1; 0]]%Z.
Definition Y : Tensor Cz := mkTensor [2; 2] [(0, 0); (0, -1); (0, 1); (0, 0)]%Z.
Definition Z_ : Tensor Cz := matrix [[1; 0]; [0; -1]]%Z.
Definition CNOT : Tensor Cz :=
  matrix [[1; 0; 0; 0]; [0; 1; 0; 0]; [0; 0; 0; 1]; [0; 0; 1; 0]]%Z.
Definition I2 : Tensor Cz := matrix [[1; 0]; [0; 1]]%Z.

Definition ops (attribute : string) : ops_value Cz :=
  if decide (attribute = "X") then ops_array X
  else if decide (attribute = "Y") then ops_array Y
  else if decide (attribute = "Z") then ops_array Z_
  else if decide (attribute = "CNOT") then ops_array CNOT
  else if decide (attribute = "identity") then ops_function (λ _, Some I2)
  else if decide (attribute = "hermitian") then ops_function (λ par, par !! 0)
  else if decide (attribute = "unitary") then ops_function (λ par, par !! 0)
  else ops_function (λ _, None).

#[global] Instance Tensor_eq_dec : EqDecision (Tensor Cz).
Proof. solve_decision. Defined.

(** The decomposition of [Z], the eigenvalues in ascending order as
    [eigh] gives them, each with the projector on its eigenvector; no
    other matrix is decomposed. *)
Definition decompose (A : Tensor Cz) : list Z * list (Tensor Cz) :=
  if decide (A = Z_) then ([-1; 1]%Z, [matrix [[0; 0]; [0; 1]]%Z; matrix [[1; 0]; [0; 0]]%Z])
  else ([], []).

#[global] Instance backend : Backend Cz Z := {|
  c_zero := (0, 0)%Z;
  c_one := (1, 0)%Z;
  c_add x y := (x.1 + y.1, x.2 + y.2)%Z;
  c_mul x y := (x.1 * y.1 - x.2 * y.2, x.1 * y.2 + x.2 * y.1)%Z;
  c_conj x := (x.1, - x.2)%Z;
  c_eqb x y := bool_decide (x = y);
  c_real x := x.1;
  c_imag x := x.2;
  (* the integers have no nan: no run below reads this number *)
  c_nan := (0, 0)%Z;
  r_one := 1%Z;
  r_add := Z.add;
  r_sub := Z.sub;
  r_mul := Z.mul;
  r_div := Z.div;
  r_leb := Z.leb;
  r_abs_gt_TOL x := bool_decide (x ≠ 0%Z);
  r_probabilities p := bool_decide (Forall (λ x, 0 ≤ x)%Z p ∧ foldr Z.add 0%Z p = 1%Z);
  split_node _ _ := None;
  numpy_ops := ops;
  spectral_decomposition := decompose;
|}.

(** Devices to run the methods on: [DefaultTensor(wires=1, shots=3)],
    [DefaultTensor(wires=2, shots=3)] and
    [DefaultTensor(wires=3, shots=3, representation="mps")]. *)
Definition one_wire : DefaultTensor Cz Z := state_of (__init__ 1 3 "exact" "auto").
Definition two_wires : DefaultTensor Cz Z := state_of (__init__ 2 3 "exact" "auto").
Definition chain_of_three : DefaultTensor Cz Z := state_of (__init__ 3 3 "mps" "auto").

Definition ket_0 : Tensor Cz := mkTensor [2] [(1, 0); (0, 0)]%Z.
Definition ket_1 : Tensor Cz := mkTensor [2] [(0, 0); (1, 0)]%Z.

(** [dev.apply("PauliX", [0], []); dev.apply("CNOT", [0, 1], [])] on two
    wires: the state with both wires at 1. *)
Definition two_wires_flipped : DefaultTensor Cz Z :=
  state_of (apply "CNOT" (Some [0; 1]) []
              (state_of (apply "PauliX" (Some [0]) [] two_wires))).

Definition PauliZ_on (w : nat) : measurement Cz := one_observable "PauliZ" [w] [].

End GaussianIntegers.

(** * Properties *)

(** ** The monad *)

Section Monad.
Context {S : Type}.

Lemma bind_Ok {A B : Type} (m : M S A) (k : A → M S B) s a s1 :
  m s = Ok a s1 → (m ≫= k) s = k a s1.
Proof. intros H. unfold mbind, M_bind. by rewrite H. Qed.

Lemma bind_Raise {A B : Type} (m : M S A) (k : A → M S B) s e s1 :
  m s = Raise e s1 → (m ≫= k) s = Raise e s1.
Proof. intros H. unfold mbind, M_bind. by rewrite H. Qed.

Lemma bind_inv_Ok {A B : Type} (m : M S A) (k : A → M S B) s b s2 :
  (m ≫= k) s = Ok b s2 → ∃ a s1, m s = Ok a s1 ∧ k a s1 = Ok b s2.
Proof. unfold mbind, M_bind. destruct (m s) as [a s1|e s1]; [eauto | done]. Qed.

Lemma bind_inv_Raise {A B : Type} (m : M S A) (k : A → M S B) s e s2 :
  (m ≫= k) s = Raise e s2 →
  m s = Raise e s2 ∨ ∃ a s1, m s = Ok a s1 ∧ k a s1 = Raise e s2.
Proof. unfold mbind, M_bind. destruct (m s) as [a s1|e' s1]; [eauto | intros [= -> ->]; by left]. Qed.

(** A predicate on states that a computation keeps, however it ends. *)
Definition preserves {A : Type} (P : S → Prop) (m : M S A) : Prop :=
  ∀ s, P s → P (state_of (m s)).

Lemma preserves_ret {A : Type} P (a : A) : preserves P (mret a).
Proof. by intros s. Qed.

Lemma preserves_raise {A : Type} P e : preserves P (raise e : M S A).
Proof. by intros s. Qed.

Lemma preserves_get P : preserves P get.
Proof. by intros s. Qed.

Lemma preserves_gets {A : Type} P (f : S → A) : preserves P (gets f).
Proof. by intros s. Qed.

Lemma preserves_or_raise {A : Type} P e (o : option A) : preserves P (or_raise e o).
Proof. by destruct o; intros s. Qed.

Lemma preserves_modify P (f : S → S) : (∀ s, P s → P (f s)) → preserves P (modify f).
Proof. intros H s. apply H. Qed.

Lemma preserves_bind {A B : Type} P (m : M S A) (k : A → M S B) :
  preserves P m → (∀ a, preserves P (k a)) → preserves P (m ≫= k).
Proof.
  intros Hm Hk s Hs. specialize (Hm s Hs). unfold mbind, M_bind.
  destruct (m s) as [a s1|e s1]; [by apply Hk | done].
Qed.

Lemma preserves_when P (b : bool) (m : M S unit) : preserves P m → preserves P (when_ b m).
Proof. destruct b; [done | intros _; apply preserves_ret]. Qed.

Lemma preserves_for_each {A : Type} P (l : list A) (body : A → M S unit) :
  (∀ x, preserves P (body x)) → preserves P (for_each l body).
Proof.
  intros H. induction l as [|x l IH]; simpl.
  - apply preserves_ret.
  - apply preserves_bind; [apply H | by intros _].
Qed.

Lemma preserves_map_m {A B : Type} P (f : A → M S B) (l : list A) :
  (∀ x, preserves P (f x)) → preserves P (map_m f l).
Proof.
  intros H. induction l as [|x l IH]; simpl.
  - apply preserves_ret.
  - apply preserves_bind; [apply H | intros y].
    apply preserves_bind; [done | intros ys; apply preserves_ret].
Qed.

Lemma preserves_fold_m {A B : Type} P (f : B → A → M S B) (l : list A) b :
  (∀ b x, preserves P (f b x)) → preserves P (fold_m f b l).
Proof.
  intros H. revert b. induction l as [|x l IH]; intros b; simpl.
  - apply preserves_ret.
  - apply preserves_bind; [apply H | done].
Qed.

(** A computation that never ends in the exception [e]. *)
Definition never_raises {A : Type} (e : exn) (m : M S A) : Prop :=
  ∀ s, raised (m s) ≠ Some e.

Lemma never_ret {A : Type} e (a : A) : never_raises e (mret a).
Proof. by intros s. Qed.

Lemma never_raise {A : Type} e e' : e' ≠ e → never_raises e (raise e' : M S A).
Proof. intros H s; simpl. congruence. Qed.

Lemma never_get e : never_raises e get.
Proof. by intros s. Qed.

Lemma never_gets {A : Type} e (f : S → A) : never_raises e (gets f).
Proof. by intros s. Qed.

Lemma never_modify e (f : S → S) : never_raises e (modify f).
Proof. by intros s. Qed.

Lemma never_or_raise {A : Type} e e' (o : option A) :
  e' ≠ e → never_raises e (or_raise e' o).
Proof. intros H s. destruct o; simpl; [done | congruence]. Qed.

Lemma never_bind {A B : Type} e (m : M S A) (k : A → M S B) :
  never_raises e m → (∀ a, never_raises e (k a)) → never_raises e (m ≫= k).
Proof.
  intros Hm Hk s. specialize (Hm s). unfold mbind, M_bind.
  destruct (m s) as [a s1|e' s1]; [apply Hk | done].
Qed.

Lemma never_when e (b : bool) (m : M S unit) : never_raises e m → never_raises e (when_ b m).
Proof. destruct b; [done | intros _; apply never_ret]. Qed.

Lemma never_for_each {A : Type} e (l : list A) (body : A → M S unit) :
  (∀ x, never_raises e (body x)) → never_raises e (for_each l body).
Proof.
  intros H. induction l as [|x l IH]; simpl.
  - apply never_ret.
  - apply never_bind; [apply H | by intros _].
Qed.

Lemma never_map_m {A B : Type} e (f : A → M S B) (l : list A) :
  (∀ x, never_raises e (f x)) → never_raises e (map_m f l).
Proof.
  intros H. induction l as [|x l IH]; simpl.
  - apply never_ret.
  - apply never_bind; [apply H | intros y].
    apply never_bind; [done | intros ys; apply never_ret].
Qed.

Lemma never_fold_m {A B : Type} e (f : B → A → M S B) (l : list A) b :
  (∀ b x, never_raises e (f b x)) → never_raises e (fold_m f b l).
Proof.
  intros H. revert b. induction l as [|x l IH]; intros b; simpl.
  - apply never_ret.
  - apply never_bind; [apply H | done].
Qed.

(** A computation that always returns. *)
Definition total {A : Type} (m : M S A) : Prop := ∀ s, ∃ a s', m s = Ok a s'.

Lemma total_ret {A : Type} (a : A) : total (mret a).
Proof. intros s. by exists a, s. Qed.

Lemma total_bind {A B : Type} (m : M S A) (k : A → M S B) :
  total m → (∀ a, total (k a)) → total (m ≫= k).
Proof.
  intros Hm Hk s. destruct (Hm s) as (a & s1 & H1).
  destruct (Hk a s1) as (b & s2 & H2). exists b, s2.
  by rewrite (bind_Ok _ _ _ _ _ H1).
Qed.

Lemma total_map_m {A B : Type} (f : A → M S B) (l : list A) :
  (∀ x, total (f x)) → total (map_m f l).
Proof.
  intros H. induction l as [|x l IH]; simpl.
  - apply total_ret.
  - apply total_bind; [apply H | intros y].
    apply total_bind; [done | intros ys; apply total_ret].
Qed.

Lemma total_for_each {A : Type} (l : list A) (body : A → M S unit) :
  (∀ x, x ∈ l → total (body x)) → total (for_each l body).
Proof.
  induction l as [|x l IH]; intros H; simpl.
  - apply total_ret.
  - apply total_bind; [apply H; left | intros _; apply IH].
    intros y Hy. apply H. by right.
Qed.
End Monad.

Create HintDb preserves.
Create HintDb never.

#[global] Hint Resolve preserves_ret preserves_raise preserves_get preserves_gets
  preserves_or_raise preserves_when : preserves.
#[global] Hint Resolve never_ret never_get never_gets never_modify never_when : never.

Ltac preserves_step :=
  lazymatch goal with
  | |- preserves _ (_ ≫= _) => apply preserves_bind; [| intros ?]
  | |- preserves _ (mret _) => apply preserves_ret
  | |- preserves _ (raise _) => apply preserves_raise
  | |- preserves _ get => apply preserves_get
  | |- preserves _ (gets _) => apply preserves_gets
  | |- preserves _ (or_raise _ _) => apply preserves_or_raise
  | |- preserves _ (when_ _ _) => apply preserves_when
  | |- preserves _ (modify _) => apply preserves_modify; intros ? ?; eauto
  | |- preserves _ (for_each _ _) => apply preserves_for_each; intros ?
  | |- preserves _ (map_m _ _) => apply preserves_map_m; intros ?
  | |- preserves _ (fold_m _ _ _) => apply preserves_fold_m; intros ? ?
  | |- preserves _ (match ?x with _ => _ end) => destruct x
  end.

Ltac preserves_auto := repeat first [ solve [eauto 4 with preserves] | preserves_step ].

Ltac never_side := solve [discriminate | assumption | eauto 2 | congruence].

Ltac never_step :=
  lazymatch goal with
  | |- never_raises _ (_ ≫= _) => apply never_bind; [| intros ?]
  | |- never_raises _ (mret _) => apply never_ret
  | |- never_raises _ (raise _) => apply never_raise; never_side
  | |- never_raises _ get => apply never_get
  | |- never_raises _ (gets _) => apply never_gets
  | |- never_raises _ (modify _) => apply never_modify
  | |- never_raises _ (or_raise _ _) => apply never_or_raise; never_side
  | |- never_raises _ (when_ _ _) => apply never_when
  | |- never_raises _ (for_each _ _) => apply never_for_each; intros ?
  | |- never_raises _ (map_m _ _) => apply never_map_m; intros ?
  | |- never_raises _ (fold_m _ _ _) => apply never_fold_m; intros ? ?
  | |- never_raises _ (match ?x with _ => _ end) => destruct x
  end.

Ltac never_auto := repeat first [ solve [eauto 3 with never] | never_step ].

(** ** Which attributes a method assigns *)

Section Frames.
Context {C R : Type} `{!Backend C R}.

Abbreviation Dev := (M (DefaultTensor C R)).
Abbreviation Pred := (DefaultTensor C R → Prop).

(** A predicate that does not look at an attribute. *)
Definition ignores {V : Type} (set : V → DefaultTensor C R → DefaultTensor C R)
    (P : Pred) : Prop := ∀ v s, P s → P (set v s).

(** A predicate that stays true when more node identities are used up. *)
Definition grows (P : Pred) : Prop :=
  ∀ v s, next_id s ≤ v → P s → P (set_next_id v s).

Lemma tn_Node_frame (P : Pred) t name : grows P → preserves P (tn_Node t name).
Proof.
  intros H s Hs. unfold tn_Node, mbind, M_bind, get, modify, mret, M_ret. simpl.
  apply H; [lia | done].
Qed.

Lemma _add_node_frame (P : Pred) A wires name key :
  grows P → ignores set_nodes P →
  preserves P (_add_node A wires name key).
Proof.
  intros H1 H2. unfold _add_node. pose proof tn_Node_frame. preserves_auto.
Qed.

Lemma _clear_network_data_frame (P : Pred) :
  ignores set_nodes P → ignores set_free_wire_edges P → ignores set_mps P →
  ignores set_contracted_state_node P → ignores set_joined P →
  preserves P _clear_network_data.
Proof. intros. unfold _clear_network_data. preserves_auto. Qed.

Hint Resolve tn_Node_frame _add_node_frame _clear_network_data_frame : preserves.

Lemma split_into_chain_frame (P : Pred) DV wires_seq name :
  grows P → ignores set_nodes P →
  preserves P (split_into_chain DV wires_seq name).
Proof.
  intros H1 H2. revert DV.
  induction wires_seq as [|wire [|wire' rest] IH]; intros DV.
  - apply preserves_ret.
  - simpl. preserves_auto.
  - change (split_into_chain DV (wire :: wire' :: rest) name)
      with ('(U, DV') ← or_raise (OtherError "split_node") (split_node (tensor_of DV) 2);
            U ← tn_Node U "__unnamed_node__";
            DV' ← tn_Node DV' "__unnamed_node__";
            node ← _add_node (inr U) [wire] name "state";
            nodes ← split_into_chain (inr DV') (wire' :: rest) name;
            mret (node :: nodes)).
    preserves_auto.
Qed.

Lemma FiniteMPS_frame (P : Pred) nodes :
  grows P → preserves P (FiniteMPS nodes).
Proof. intros H1. unfold FiniteMPS. preserves_auto. Qed.

Hint Resolve split_into_chain_frame FiniteMPS_frame : preserves.

Lemma add_exact_component_frame (P : Pred) c :
  grows P → ignores set_nodes P → ignores set_free_wire_edges P →
  preserves P (add_exact_component c).
Proof. intros H1 H2 H3. unfold add_exact_component. preserves_auto. Qed.

Lemma add_mps_component_frame (P : Pred) c :
  grows P → ignores set_nodes P →
  preserves P (add_mps_component c).
Proof. intros H1 H2. unfold add_mps_component. preserves_auto. Qed.

Hint Resolve add_exact_component_frame add_mps_component_frame : preserves.

Lemma _add_initial_state_nodes_frame (P : Pred) tensors wires names :
  grows P → ignores set_nodes P → ignores set_free_wire_edges P →
  ignores set_mps P →
  preserves P (_add_initial_state_nodes tensors wires names).
Proof. intros H1 H2 H3 H4. unfold _add_initial_state_nodes. preserves_auto. Qed.

Hint Resolve _add_initial_state_nodes_frame : preserves.

Lemma reset_frame (P : Pred) :
  grows P → ignores set_nodes P → ignores set_free_wire_edges P →
  ignores set_mps P → ignores set_contracted_state_node P → ignores set_joined P →
  preserves P reset.
Proof. intros. unfold reset. preserves_auto. Qed.

Lemma _get_operator_matrix_frame (P : Pred) operation par :
  preserves P (_get_operator_matrix operation par).
Proof. unfold _get_operator_matrix. preserves_auto. Qed.

Hint Resolve reset_frame _get_operator_matrix_frame : preserves.

Lemma _add_state_prep_nodes_frame (P : Pred) operation par :
  grows P → ignores set_nodes P → ignores set_free_wire_edges P →
  ignores set_mps P →
  preserves P (_add_state_prep_nodes operation par).
Proof. intros. unfold _add_state_prep_nodes, basis_tensor. preserves_auto. Qed.

Lemma apply_one_site_gate_frame (P : Pred) gate site :
  grows P → ignores set_mps P →
  preserves P (apply_one_site_gate gate site).
Proof. intros. unfold apply_one_site_gate. preserves_auto. Qed.

Lemma apply_two_site_gate_frame (P : Pred) gate site1 site2 :
  grows P → ignores set_mps P →
  preserves P (apply_two_site_gate gate site1 site2).
Proof. intros. unfold apply_two_site_gate. preserves_auto. Qed.

Lemma refresh_free_wire_edge_frame (P : Pred) wire :
  ignores set_free_wire_edges P → preserves P (refresh_free_wire_edge wire).
Proof. intros. unfold refresh_free_wire_edge. preserves_auto. Qed.

Lemma connect_gate_wire_frame (P : Pred) op_node k iw :
  ignores set_free_wire_edges P → ignores set_joined P →
  preserves P (connect_gate_wire op_node k iw).
Proof. intros. unfold connect_gate_wire. preserves_auto. Qed.

Hint Resolve _add_state_prep_nodes_frame apply_one_site_gate_frame
  apply_two_site_gate_frame refresh_free_wire_edge_frame
  connect_gate_wire_frame : preserves.

(** A gate leaves the cached contracted state alone. *)
Lemma _add_gate_nodes_frame (P : Pred) operation wires par :
  grows P → ignores set_nodes P → ignores set_free_wire_edges P →
  ignores set_mps P → ignores set_joined P →
  preserves P (_add_gate_nodes operation wires par).
Proof. intros. unfold _add_gate_nodes. preserves_auto. Qed.

Lemma _create_nodes_from_tensors_frame (P : Pred) tensors wires names key :
  grows P → ignores set_nodes P →
  preserves P (_create_nodes_from_tensors tensors wires names key).
Proof. intros. unfold _create_nodes_from_tensors. preserves_auto. Qed.

Lemma contracted_node_frame (P : Pred) nodes t :
  grows P → ignores set_nodes P → ignores set_joined P →
  ignores set_free_wire_edges P →
  preserves P (contracted_node nodes t).
Proof. intros. unfold contracted_node. preserves_auto. Qed.

Hint Resolve contracted_node_frame : preserves.

(** The contraction assigns the cache; in the exact representation it
    also hands the edges of the table over to the contracted node. *)
Lemma _contract_premeasurement_network_frame (P : Pred) :
  grows P → ignores set_mps P → ignores set_contracted_state_node P →
  ignores set_nodes P → ignores set_joined P → ignores set_free_wire_edges P →
  preserves P _contract_premeasurement_network.
Proof. intros. unfold _contract_premeasurement_network. preserves_auto. Qed.

Hint Resolve _add_gate_nodes_frame _create_nodes_from_tensors_frame
  _contract_premeasurement_network_frame : preserves.

Lemma _state_frame (P : Pred) :
  preserves P _contract_premeasurement_network →
  preserves P _state.
Proof. intros. unfold _state. preserves_auto. Qed.

Lemma _ev_exact_frame (P : Pred) obs_nodes wires :
  preserves P _contract_premeasurement_network →
  preserves P (_ev_exact obs_nodes wires).
Proof. intros. unfold _ev_exact. preserves_auto. Qed.

Lemma chain_expectation_frame (P : Pred) n chain obs :
  preserves P (chain_expectation n chain obs).
Proof.
  unfold chain_expectation, connect_mps_observable, connect_mps_rest, connect_mps_wire.
  preserves_auto.
Qed.

Hint Resolve _state_frame _ev_exact_frame chain_expectation_frame : preserves.

Lemma _ev_mps_frame (P : Pred) obs_nodes wires : preserves P (_ev_mps obs_nodes wires).
Proof. unfold _ev_mps. preserves_auto. Qed.

Hint Resolve _ev_mps_frame : preserves.

Lemma ev_frame (P : Pred) obs_nodes wires :
  preserves P _contract_premeasurement_network → ignores set_warned P →
  preserves P (ev obs_nodes wires).
Proof. intros. unfold ev. preserves_auto. Qed.

Hint Resolve ev_frame : preserves.

Lemma expval_frame (P : Pred) m :
  grows P → ignores set_nodes P → preserves P _contract_premeasurement_network →
  ignores set_warned P →
  preserves P (expval m).
Proof. intros. unfold expval, reshape_operator. preserves_auto. Qed.

Lemma var_frame (P : Pred) m :
  grows P → ignores set_nodes P → preserves P _contract_premeasurement_network →
  ignores set_warned P →
  preserves P (var m).
Proof. intros. unfold var, reshape_operator. preserves_auto. Qed.

Lemma sample_frame (P : Pred) rng m :
  grows P → ignores set_nodes P → preserves P _contract_premeasurement_network →
  ignores set_warned P →
  preserves P (sample rng m).
Proof. intros. unfold sample, joint_probability, reshape_operator. preserves_auto. Qed.
End Frames.

#[global] Hint Resolve tn_Node_frame _add_node_frame _clear_network_data_frame
  split_into_chain_frame FiniteMPS_frame add_exact_component_frame
  add_mps_component_frame _add_initial_state_nodes_frame reset_frame
  _get_operator_matrix_frame _add_state_prep_nodes_frame apply_one_site_gate_frame
  apply_two_site_gate_frame refresh_free_wire_edge_frame connect_gate_wire_frame
  _add_gate_nodes_frame _create_nodes_from_tensors_frame contracted_node_frame
  _contract_premeasurement_network_frame _state_frame _ev_exact_frame
  chain_expectation_frame _ev_mps_frame ev_frame expval_frame var_frame
  sample_frame : preserves.

(** A predicate on one attribute ignores the others. *)
#[global] Hint Extern 1 (ignores _ _) => (intros ? ? ?; assumption) : preserves.
#[global] Hint Extern 1 (grows _) => (intros ? ? ? ?; assumption) : preserves.

(** ** Calls that always return *)

Section Totality.
Context {C R : Type} `{!Backend C R}.

Lemma total_get {S : Type} : total (get : M S S).
Proof. intros s. by exists s, s. Qed.

Lemma total_gets {S A : Type} (f : S → A) : total (gets f).
Proof. intros s. by exists (f s), s. Qed.

Lemma total_modify {S : Type} (f : S → S) : total (modify f).
Proof. intros s. by exists tt, (f s). Qed.

Ltac total_step :=
  lazymatch goal with
  | |- total (_ ≫= _) => apply total_bind; [| intros ?]
  | |- total (mret _) => apply total_ret
  | |- total get => apply total_get
  | |- total (gets _) => apply total_gets
  | |- total (modify _) => apply total_modify
  | |- total (map_m _ _) => apply total_map_m; intros ?
  | |- total (match ?x with _ => _ end) => destruct x
  end.

Ltac total_auto := repeat first [ solve [eauto 2] | total_step ].

Lemma tn_Node_total (t : Tensor C) name : total (tn_Node (R := R) t name).
Proof. unfold tn_Node. total_auto. Qed.

Lemma _add_node_total (A : Tensor C + Node C) wires name key :
  total (_add_node (R := R) A wires name key).
Proof. unfold _add_node. pose proof tn_Node_total. total_auto. Qed.

Lemma _clear_network_data_total : total (_clear_network_data (C := C) (R := R)).
Proof. unfold _clear_network_data. total_auto. Qed.

Lemma FiniteMPS_total (nodes : list (Node C)) : total (FiniteMPS (R := R) nodes).
Proof. unfold FiniteMPS. pose proof tn_Node_total. total_auto. Qed.

(** A component on a single wire: a vector of length two. *)
Definition single_wire (c : Tensor C * list nat * string) : Prop :=
  shape c.1.1 = [2] ∧ ∃ w, c.1.2 = [w].

Lemma single_wire_zip3 (tensors : list (Tensor C)) (l : list nat) names :
  Forall (λ t, shape t = [2]) tensors →
  Forall single_wire (zip3 tensors ((λ w, [w]) <$> l) names).
Proof.
  intros Ht. revert l names.
  induction Ht as [|t ts Ht Hts IH]; intros [|w l] [|nm names]; simpl;
    try by constructor.
  constructor; [| apply IH]. split; [done | by exists w].
Qed.

Lemma add_exact_component_total c :
  single_wire c → total (add_exact_component (R := R) c).
Proof.
  destruct c as [[t ws] nm]. unfold single_wire; simpl. intros [Ht [w ->]].
  unfold add_exact_component, ndim. rewrite Ht. simpl.
  pose proof _add_node_total. total_auto.
Qed.

Lemma add_mps_component_total c :
  single_wire c → total (add_mps_component (R := R) c).
Proof.
  destruct c as [[t ws] nm]. unfold single_wire; simpl. intros [Ht [w ->]].
  unfold add_mps_component, ndim, expand_dims_last, expand_dims_first.
  rewrite Ht. simpl. pose proof _add_node_total. total_auto.
Qed.

(** Vectors of length two, one per wire, are always accepted. *)
Lemma _add_initial_state_nodes_total (tensors : list (Tensor C)) n names :
  Forall (λ t, shape t = [2]) tensors → length tensors = n → length names = n →
  total (_add_initial_state_nodes (R := R) tensors ((λ w, [w]) <$> seq 0 n) names).
Proof.
  intros Ht Hl Hn. unfold _add_initial_state_nodes.
  destruct (decide _) as [Hne|_].
  { exfalso. apply Hne. rewrite length_fmap, length_seq. lia. }
  apply total_bind; [apply total_gets | intros rep].
  pose proof (single_wire_zip3 tensors (seq 0 n) names Ht) as Hc.
  destruct (decide (rep = "exact")).
  - apply total_bind; [apply total_modify | intros _].
    apply total_for_each. intros c Hin.
    apply add_exact_component_total. by eapply Forall_forall in Hc.
  - destruct (decide (rep = "mps")); [| apply total_ret].
    apply total_bind.
    { induction Hc as [|c cs Hc1 Hc2 IH]; simpl; [apply total_ret |].
      apply total_bind; [by apply add_mps_component_total | intros y].
      apply total_bind; [apply IH | intros ys; apply total_ret]. }
    intros nodes. pose proof FiniteMPS_total. total_auto.
Qed.

Lemma reset_total : total (reset (C := C) (R := R)).
Proof.
  unfold reset.
  apply total_bind; [apply _clear_network_data_total | intros _].
  apply total_bind; [apply total_gets | intros n].
  apply _add_initial_state_nodes_total.
  - by apply Forall_replicate.
  - apply length_replicate.
  - apply length_replicate.
Qed.
End Totality.

(** ** Construction, reset and the contraction method *)

Section Construction.
Context {C R : Type} `{!Backend C R}.

Abbreviation Dev := (M (DefaultTensor C R)).

(** What [_clear_network_data] leaves of a device. *)
Definition cleared (s : DefaultTensor C R) : DefaultTensor C R :=
  mkDevice (num_wires s) (shots s) (_rep s) (_contraction_method s) ∅ [] None None []
    (next_id s) (warned s).

Lemma _clear_network_data_spec (s : DefaultTensor C R) :
  _clear_network_data s = Ok tt (cleared s).
Proof. reflexivity. Qed.

(** The attributes that only the constructor and the setter assign. *)
Definition same_configuration (s s' : DefaultTensor C R) : Prop :=
  num_wires s' = num_wires s ∧ shots s' = shots s ∧ _rep s' = _rep s
  ∧ _contraction_method s' = _contraction_method s.

Lemma reset_spec (s : DefaultTensor C R) :
  ∃ s', reset s = Ok tt s' ∧ same_configuration s s'
        ∧ _contracted_state_node s' = None ∧ joined s' = [] ∧ warned s' = warned s.
Proof.
  destruct (reset_total s) as ([] & s' & Hs'). exists s'. split; [done |].
  pose proof (reset_frame
    (λ x, same_configuration s x ∧ warned x = warned s) ltac:(eauto with preserves)
    ltac:(eauto with preserves) ltac:(eauto with preserves) ltac:(eauto with preserves)
    ltac:(eauto with preserves) ltac:(eauto with preserves) s) as Hcfg.
  rewrite Hs' in Hcfg. simpl in Hcfg. destruct Hcfg as [Hcfg Hw]; [by repeat split |].
  split; [done |].
  unfold reset in Hs'.
  rewrite (bind_Ok _ _ _ _ _ (_clear_network_data_spec s)) in Hs'.
  apply bind_inv_Ok in Hs' as (n & s1 & Hn & Hs'). injection Hn as <- <-.
  pose proof (_add_initial_state_nodes_frame
    (λ x, _contracted_state_node x = None ∧ joined x = [])
    (replicate (num_wires s) _zero_state)
    ((λ w, [w]) <$> seq 0 (num_wires s))
    (replicate (num_wires s) "ZeroState")
    ltac:(eauto with preserves) ltac:(eauto with preserves)
    ltac:(eauto with preserves) ltac:(eauto with preserves) (cleared s)) as Hc.
  rewrite Hs' in Hc. simpl in Hc. destruct Hc as [Hc Hj]; done.
Qed.

Lemma __init___spec n k representation method :
  0 < k → representation ∈ ["exact"; "mps"] →
  ∃ s, __init__ (R := R) n k representation method = Ok tt s
       ∧ num_wires s = n ∧ shots s = k ∧ _rep s = representation
       ∧ _contraction_method s = method ∧ _contracted_state_node s = None.
Proof.
  intros Hk Hrep. unfold __init__, Device__init__.
  rewrite decide_False by lia. rewrite decide_False by (by intros ?).
  destruct (reset_spec (mkDevice n k representation method ∅ [] None None [] 0 []))
    as (s & -> & (Hn & Hs & Hr & Hm) & Hc & _).
  exists s. by repeat split.
Qed.

Lemma __init___rejects wires shots representation method :
  0 < shots → representation ∉ ["exact"; "mps"] →
  raised (__init__ (R := R) wires shots representation method)
  = Some (ValueError invalid_representation).
Proof.
  intros Hk Hrep. unfold __init__, Device__init__.
  rewrite decide_False by lia. by rewrite decide_True.
Qed.

(** The base class refuses a device without shots before the
    representation is looked at. *)
Lemma __init___without_shots wires representation method :
  raised (__init__ (R := R) wires 0 representation method)
  = Some (OtherError "DeviceError").
Proof. reflexivity. Qed.

(** The setter refuses a name outside [contract_fns] and assigns nothing. *)
Lemma contraction_method_setter_rejects (s : DefaultTensor C R) method :
  method ∉ contract_fns →
  contraction_method_setter method s = Raise (ValueError method_not_found) s.
Proof. intros H. unfold contraction_method_setter. by rewrite decide_True. Qed.

Lemma contraction_method_setter_accepts (s : DefaultTensor C R) method :
  method ∈ contract_fns →
  contraction_method_setter method s = Ok tt (set_contraction_method method s).
Proof. intros H. unfold contraction_method_setter. by rewrite decide_False by (by intros ?). Qed.

(** In the exact representation the first contraction looks the method
    up in [contract_fns]. *)
Lemma _state_unknown_method (s : DefaultTensor C R) :
  _rep s = "exact" → _contracted_state_node s = None →
  _contraction_method s ∉ contract_fns →
  _state s = Raise (KeyError (_contraction_method s)) s.
Proof.
  intros Hrep Hc Hm. unfold _state, _contract_premeasurement_network.
  unfold mbind, M_bind, get. simpl. rewrite Hc, Hrep. simpl.
  rewrite bool_decide_eq_true_2 by done. reflexivity.
Qed.

(** C5, at the input that fails: the setter refuses the unknown name
    ["bogus"] with a ValueError (InvalidConfig) and keeps the device as
    it is, but the constructor accepts the same name, stores it, and
    the device fails with a KeyError at its first contraction.  The
    base class wants at least one shot. *)
Theorem constructor_accepts_unknown_contraction_method
    (s0 : DefaultTensor C R) (wires shots : nat) :
  0 < shots →
  contraction_method_setter "bogus" s0 = Raise (ValueError method_not_found) s0
  ∧ taxonomy (ValueError method_not_found) = Some InvalidConfig
  ∧ ∃ s, __init__ wires shots "exact" "bogus" = Ok tt s
         ∧ _contraction_method s = "bogus"
         ∧ _state s = Raise (KeyError "bogus") s.
Proof.
  intros Hshots. split; [| split; [done |]].
  - apply contraction_method_setter_rejects. by apply (bool_decide_unpack _).
  - destruct (__init___spec wires shots "exact" "bogus" Hshots)
      as (s & Hs & _ & _ & Hr & Hm & Hc).
    { by apply (bool_decide_unpack _). }
    exists s. split; [done |]. split; [done |].
    rewrite <- Hm at 1. apply _state_unknown_method; [done | done |].
    rewrite Hm. by apply (bool_decide_unpack _).
Qed.
End Construction.

(** ** Which exceptions a method can end in *)

Section Raises.
Context {C R : Type} `{!Backend C R}.

Abbreviation Dev := (M (DefaultTensor C R)).

(** An exception that comes from a [raise] statement of the device, not
    from below it. *)
Definition from_device (e : exn) : Prop :=
  (∀ what, e ≠ OtherError what) ∧ (∀ key, e ≠ KeyError key) ∧ e ≠ IndexError.

Lemma tn_Node_never e (t : Tensor C) name : never_raises e (tn_Node (R := R) t name).
Proof. unfold tn_Node. never_auto. Qed.

Lemma _add_node_never e (A : Tensor C + Node C) wires name key :
  never_raises e (_add_node (R := R) A wires name key).
Proof. unfold _add_node. pose proof (tn_Node_never e). never_auto. Qed.

Lemma _clear_network_data_never e :
  never_raises e (_clear_network_data (C := C) (R := R)).
Proof. unfold _clear_network_data. never_auto. Qed.

Lemma FiniteMPS_never e (nodes : list (Node C)) :
  never_raises e (FiniteMPS (R := R) nodes).
Proof. unfold FiniteMPS. pose proof (tn_Node_never e). never_auto. Qed.

Lemma split_into_chain_never e (DV : Tensor C + Node C) wires_seq name :
  from_device e → never_raises e (split_into_chain (R := R) DV wires_seq name).
Proof.
  intros (He1 & He2 & He3). revert DV.
  pose proof (tn_Node_never e). pose proof (_add_node_never e).
  induction wires_seq as [|wire [|wire' rest] IH]; intros DV.
  - apply never_ret.
  - simpl. never_auto.
  - change (split_into_chain DV (wire :: wire' :: rest) name)
      with ('(U, DV') ← or_raise (OtherError "split_node") (split_node (tensor_of DV) 2);
            U ← tn_Node U "__unnamed_node__";
            DV' ← tn_Node DV' "__unnamed_node__";
            node ← _add_node (inr U) [wire] name "state";
            nodes ← split_into_chain (inr DV') (wire' :: rest) name;
            mret (node :: nodes)).
    never_auto.
Qed.

Lemma _add_initial_state_nodes_never e (tensors : list (Tensor C)) wires names :
  from_device e → e ≠ ValueError lengths_differ → e ≠ ValueError incompatible_shape →
  e ≠ NotImplementedError consecutive_wires_only →
  never_raises e (_add_initial_state_nodes (R := R) tensors wires names).
Proof.
  intros He H1 H2 H3. pose proof He as (He1 & He2 & He3).
  pose proof (_add_node_never e). pose proof (FiniteMPS_never e).
  pose proof (λ DV w n, split_into_chain_never e DV w n He).
  unfold _add_initial_state_nodes, add_exact_component, add_mps_component.
  never_auto.
Qed.

Lemma _get_operator_matrix_never e operation par :
  from_device e → never_raises e (_get_operator_matrix (R := R) operation par).
Proof. intros (He1 & He2 & He3). unfold _get_operator_matrix. never_auto. Qed.

(** The preparation itself raises only for a state vector of the wrong
    length, for a bad basis state, or from below. *)
Lemma _add_state_prep_nodes_never e operation par :
  from_device e → e ≠ ValueError lengths_differ → e ≠ ValueError incompatible_shape →
  e ≠ NotImplementedError consecutive_wires_only →
  e ≠ ValueError state_vector_length → e ≠ ValueError basis_state_parameter →
  never_raises e (_add_state_prep_nodes (R := R) operation par).
Proof.
  intros He H1 H2 H3 H4 H5. pose proof He as (He1 & He2 & He3).
  pose proof (λ t w n, _add_initial_state_nodes_never e t w n He H1 H2 H3).
  unfold _add_state_prep_nodes, basis_tensor. never_auto.
Qed.

(** A gate raises only the NotImplementedError on its wires, or from
    below. *)
Lemma _add_gate_nodes_never e operation wires par :
  from_device e → e ≠ NotImplementedError nearest_neighbour_gates →
  never_raises e (_add_gate_nodes (R := R) operation wires par).
Proof.
  intros He H1. pose proof He as (He1 & He2 & He3).
  pose proof (_add_node_never e). pose proof (tn_Node_never e).
  pose proof (λ o p, _get_operator_matrix_never e o p He).
  unfold _add_gate_nodes, connect_gate_wire, apply_one_site_gate,
    apply_two_site_gate, refresh_free_wire_edge.
  never_auto.
Qed.
End Raises.

(** ** State preparation through [apply] *)

Section StatePreparation.
Context {C R : Type} `{!Backend C R}.

Abbreviation Dev := (M (DefaultTensor C R)).

Definition state_preparation (operation : string) : Prop :=
  operation = "QubitStateVector" ∨ operation = "BasisState".

(** The wire lists [apply] lets pass for a state preparation. *)
Definition wires_accepted (n : nat) (wires : option (list nat)) : Prop :=
  wires = None ∨ wires = Some [] ∨ wires = Some (seq 0 n).

Lemma apply_preparation_rejected (s : DefaultTensor C R) operation wires par :
  state_preparation operation → ¬ wires_accepted (num_wires s) wires →
  apply operation wires par s = Raise (ValueError only_all_wires) s.
Proof.
  intros Hop Hw. unfold apply. rewrite decide_True by done.
  unfold mbind, M_bind, gets. rewrite decide_True; [done |].
  unfold wires_accepted in Hw. repeat split; intros Heq; apply Hw; auto.
Qed.

Lemma apply_preparation_accepted (s : DefaultTensor C R) operation wires par :
  state_preparation operation → wires_accepted (num_wires s) wires →
  apply operation wires par s = _add_state_prep_nodes operation par (cleared s).
Proof.
  intros Hop Hw. unfold apply. rewrite decide_True by done.
  unfold mbind, M_bind, gets. rewrite decide_False; [done |].
  intros (H1 & H2 & H3). by destruct Hw as [Hw | [Hw | Hw]].
Qed.

Lemma apply_gate (s : DefaultTensor C R) operation wires par :
  ¬ state_preparation operation →
  apply operation wires par s = _add_gate_nodes operation wires par s.
Proof. intros Hop. unfold apply. by rewrite decide_False. Qed.

(** A loop body that reads but does not assign. *)
Lemma map_m_or_raise {S A B : Type} (f : A → M S B) (g : A → option B) e l s :
  (∀ x s, f x s = or_raise e (g x) s) →
  map_m f l s = or_raise e (mapM g l) s.
Proof.
  intros Hf. induction l as [|x l IH]; [done |].
  simpl. unfold mbind at 1, M_bind. rewrite Hf.
  destruct (g x) as [y|]; simpl; [| done].
  unfold mbind at 1, M_bind. rewrite IH.
  by destruct (mapM g l).
Qed.

Definition basis_entry (par0 : Tensor C) (len wire : nat) : option (Tensor C) :=
  (λ x : C, if c_eqb x c_zero then _zero_state else reversed _zero_state)
    <$> (if decide (wire < len) then data par0 !! wire else None).

Lemma basis_tensor_entry par0 len wire (s : DefaultTensor C R) :
  basis_tensor par0 len wire s = or_raise IndexError (basis_entry par0 len wire) s.
Proof.
  unfold basis_tensor, basis_entry. unfold mbind, M_bind.
  by destruct (if decide (wire < len) then data par0 !! wire else None).
Qed.

Lemma basis_entry_shape par0 len wire t :
  basis_entry par0 len wire = Some t → shape t = [2].
Proof.
  unfold basis_entry. intros Ht. apply fmap_Some in Ht as (x & _ & ->).
  by destruct (c_eqb x c_zero).
Qed.

(** The comprehension over all wires reads past a shorter array. *)
Lemma basis_tensors_short par0 len n (s : DefaultTensor C R) :
  len < n →
  map_m (basis_tensor par0 len) (seq 0 n) s = Raise IndexError s.
Proof.
  intros Hlen. rewrite (map_m_or_raise _ (basis_entry par0 len) IndexError).
  2: { intros; apply basis_tensor_entry. }
  assert (mapM (basis_entry par0 len) (seq 0 n) = None) as ->; [| done].
  apply mapM_None. apply Exists_exists. exists len. split.
  - apply elem_of_seq. lia.
  - unfold basis_entry. rewrite decide_False by lia. done.
Qed.

Lemma basis_tensors_full par0 n (s : DefaultTensor C R) :
  n ≤ length (data par0) →
  ∃ tensors, map_m (basis_tensor par0 n) (seq 0 n) s = Ok tensors s
             ∧ Forall (λ t, shape t = [2]) tensors ∧ length tensors = n.
Proof.
  intros Hlen. rewrite (map_m_or_raise _ (basis_entry par0 n) IndexError).
  2: { intros; apply basis_tensor_entry. }
  assert (is_Some (mapM (basis_entry par0 n) (seq 0 n))) as [tensors Ht].
  { apply mapM_is_Some. apply Forall_forall. intros w Hw.
    apply elem_of_seq in Hw. simpl. unfold basis_entry.
    rewrite decide_True by lia.
    destruct (lookup_lt_is_Some_2 (data par0) w) as [x ->]; [lia | by eexists]. }
  rewrite Ht. exists tensors. split; [done |].
  apply mapM_Some in Ht. split.
  - apply Forall_forall. intros t Hin.
    apply list_elem_of_lookup in Hin as [i Hi].
    destruct (Forall2_lookup_r _ _ _ _ _ Ht Hi) as (w & _ & Hw).
    by eapply basis_entry_shape.
  - apply Forall2_length in Ht. by rewrite length_seq in Ht.
Qed.

(** A well-formed basis-state parameter: a vector of [len] zeros and ones. *)
Definition bits (par0 : Tensor C) (len : nat) : Prop :=
  shape par0 = [len] ∧ length (data par0) = len
  ∧ Forall (λ x, c_eqb x c_zero ∨ c_eqb x c_one) (data par0).

Lemma basis_state_validated (s : DefaultTensor C R) par0 len rest :
  bits par0 len → 0 < len ≤ num_wires s →
  _add_state_prep_nodes "BasisState" (par0 :: rest) s
  = (tensors ← map_m (basis_tensor par0 len) (seq 0 (num_wires s));
     _add_initial_state_nodes tensors ((λ w, [w]) <$> seq 0 (num_wires s))
       (replicate (num_wires s) "BasisState")) s.
Proof.
  intros (Hshape & Hdata & Hbits) Hlen. unfold _add_state_prep_nodes.
  unfold mbind at 1, M_bind at 1, gets. rewrite decide_False by done.
  rewrite decide_True by done. simpl. unfold mbind at 1, M_bind at 1. simpl.
  rewrite Hshape. rewrite decide_False by lia. rewrite decide_False by (by intros ?).
  rewrite decide_False; [done |].
  intros Hn. apply Hn. rewrite firstn_all2 by lia. done.
Qed.

(** C10: a [BasisState] array of zeros and ones that is shorter than
    the number of wires passes the validation of [_add_state_prep_nodes]
    (no ValueError), and the list comprehension over all wires then
    reads past its end: the call ends in an IndexError, which is in no
    category of the taxonomy, on the cleared device.  An array of exactly
    [num_wires] entries is prepared; a longer one is refused by the
    validation. *)
Theorem basis_state_shorter_than_wires (s : DefaultTensor C R) wires par0 rest len :
  wires_accepted (num_wires s) wires → bits par0 len → 0 < len →
  (len < num_wires s →
     apply "BasisState" wires (par0 :: rest) s = Raise IndexError (cleared s)
     ∧ taxonomy IndexError = None)
  ∧ (len = num_wires s →
     ∃ s', apply "BasisState" wires (par0 :: rest) s = Ok tt s')
  ∧ (num_wires s < len →
     apply "BasisState" wires (par0 :: rest) s
     = Raise (ValueError basis_state_parameter) (cleared s)).
Proof.
  intros Hw Hbits Hpos.
  rewrite apply_preparation_accepted by (done || by right).
  split; [| split].
  - intros Hlen. split; [| done].
    rewrite (basis_state_validated _ _ len) by (done || simpl; lia).
    by rewrite (bind_Raise _ _ _ _ _ (basis_tensors_short par0 len _ _ Hlen)).
  - intros ->.
    rewrite (basis_state_validated _ _ (num_wires s)) by (done || simpl; lia).
    destruct Hbits as (_ & Hdata & _).
    destruct (basis_tensors_full par0 (num_wires s) (cleared s))
      as (tensors & Ht & Hshape & Hl); [simpl in *; lia |].
    rewrite (bind_Ok _ _ _ _ _ Ht).
    destruct (_add_initial_state_nodes_total tensors (num_wires s)
                (replicate (num_wires s) "BasisState") Hshape Hl
                (length_replicate _ _) (cleared s)) as ([] & s' & Hs').
    by exists s'.
  - intros Hlen. destruct Hbits as (Hshape & _).
    unfold _add_state_prep_nodes.
    unfold mbind at 1, M_bind at 1, gets. rewrite decide_False by done.
    rewrite decide_True by done. simpl. unfold mbind at 1, M_bind at 1. simpl.
    rewrite Hshape. rewrite decide_True by (right; simpl; lia). done.
Qed.

(** C4, as the code has it: for a state preparation [apply] raises the
    ValueError on the wires (InvalidWires), leaving the device untouched,
    exactly when [wires] is given, is not empty and is not
    [[0, ..., num_wires - 1]]; with no wires, an empty list or all wires
    in order it clears the whole network and runs the preparation from
    the parameter on the cleared device, so nothing of the old network
    takes part in the result. *)
Theorem state_preparation_wires (s : DefaultTensor C R) operation wires par :
  state_preparation operation →
  (¬ wires_accepted (num_wires s) wires →
     apply operation wires par s = Raise (ValueError only_all_wires) s
     ∧ taxonomy (ValueError only_all_wires) = Some InvalidWires)
  ∧ (wires_accepted (num_wires s) wires →
     apply operation wires par s = _add_state_prep_nodes operation par (cleared s)
     ∧ raised (apply operation wires par s) ≠ Some (ValueError only_all_wires)).
Proof.
  intros Hop. split.
  - intros Hw. split; [by apply apply_preparation_rejected | done].
  - intros Hw. split; [by apply apply_preparation_accepted |].
    rewrite apply_preparation_accepted by done.
    apply _add_state_prep_nodes_never; try discriminate.
    repeat split; intros; discriminate.
Qed.
End StatePreparation.

(** ** The contracted state and its cache *)

Section Cache.
Context {C R : Type} `{!Backend C R}.

Abbreviation Dev := (M (DefaultTensor C R)).

Ltac run_monad :=
  unfold mbind, M_bind, mret, M_ret, get, gets, modify, raise, or_raise, when_; simpl.

(** With a cached node [_state] contracts nothing. *)
Lemma _state_cached (s : DefaultTensor C R) ket :
  _contracted_state_node s = Some ket →
  _state s = Ok (squeeze (node_tensor ket)) s.
Proof.
  intros Hc. unfold _state, _contract_premeasurement_network.
  run_monad. rewrite Hc. simpl. by rewrite Hc.
Qed.

Lemma _contract_premeasurement_network_caches (s s' : DefaultTensor C R) :
  _contract_premeasurement_network s = Ok tt s' →
  ∃ ket, _contracted_state_node s' = Some ket
         ∧ (∀ ket0, _contracted_state_node s = Some ket0 → ket = ket0 ∧ s' = s).
Proof.
  unfold _contract_premeasurement_network. intros H.
  apply bind_inv_Ok in H as (s0 & s1 & [= <- <-] & H).
  destruct (_contracted_state_node s) as [ket0|] eqn:Hc.
  - injection H as <-. exists ket0. split; [done |]. by intros ? [= <-].
  - apply bind_inv_Ok in H as (ket & s1 & _ & H). injection H as <-.
    exists ket. split; [done | done].
Qed.

(** A successful [_state] leaves the node it read in the cache. *)
Lemma _state_caches (s s' : DefaultTensor C R) t :
  _state s = Ok t s' →
  ∃ ket, _contracted_state_node s' = Some ket ∧ t = squeeze (node_tensor ket).
Proof.
  unfold _state. intros H.
  apply bind_inv_Ok in H as ([] & s1 & H1 & H).
  apply _contract_premeasurement_network_caches in H1 as (ket & Hk & _).
  revert H. run_monad. rewrite Hk. simpl. intros [= <- <-]. by exists ket.
Qed.

(** A gate does not assign [_contracted_state_node]. *)
Lemma gate_keeps_cache (s : DefaultTensor C R) operation wires par c :
  ¬ state_preparation operation →
  _contracted_state_node s = c →
  _contracted_state_node (state_of (apply operation wires par s)) = c.
Proof.
  intros Hop Hc. rewrite apply_gate by done.
  by apply (_add_gate_nodes_frame (λ x, _contracted_state_node x = c));
    eauto with preserves.
Qed.

(** After a read of the contracted state, a gate that is applied with
    success does not show in the next read: the tensor of before the
    gate is returned. *)
Lemma _state_stale_after_gate (s s1 s2 : DefaultTensor C R) t operation wires par :
  ¬ state_preparation operation →
  _state s = Ok t s1 →
  apply operation wires par s1 = Ok tt s2 →
  _state s2 = Ok t s2.
Proof.
  intros Hop Hs Ha. apply _state_caches in Hs as (ket & Hk & ->).
  apply _state_cached.
  pose proof (gate_keeps_cache s1 operation wires par _ Hop Hk) as H.
  by rewrite Ha in H.
Qed.

(** A state preparation that passes the check on its wires empties the
    cache, whatever happens next. *)
Lemma preparation_clears_cache (s : DefaultTensor C R) operation wires par :
  state_preparation operation → wires_accepted (num_wires s) wires →
  _contracted_state_node (state_of (apply operation wires par s)) = None.
Proof.
  intros Hop Hw. rewrite apply_preparation_accepted by done.
  by apply (_add_state_prep_nodes_frame (λ x, _contracted_state_node x = None));
    eauto with preserves.
Qed.

(** In the chain representation the contracted state is read off the
    cache and the chain alone. *)
Lemma _state_value_mps (s s' : DefaultTensor C R) :
  _rep s = "mps" → _rep s' = "mps" → mps s' = mps s →
  _contracted_state_node s' = _contracted_state_node s →
  value_of (_state s') = value_of (_state s).
Proof.
  intros Hr Hr' Hm Hc. unfold _state, _contract_premeasurement_network.
  run_monad. rewrite Hc, Hr, Hr', Hm.
  destruct (_contracted_state_node s) as [ket|] eqn:Hk; simpl.
  { by rewrite Hc, Hk. }
  destruct (mps s) as [[|node [|node' chain]]|] eqn:Hchain; simpl; try done.
  destruct (foldl _ _ _); unfold tn_Node; run_monad; done.
Qed.
End Cache.

(** ** What a rejected [apply] leaves behind *)

Section Rejection.
Context {C R : Type} `{!Backend C R}.

Abbreviation Dev := (M (DefaultTensor C R)).

Lemma from_device_ValueError why : from_device (ValueError why).
Proof. by repeat split. Qed.

Lemma from_device_NotImplementedError why : from_device (NotImplementedError why).
Proof. by repeat split. Qed.

(** A computation that keeps every predicate does not assign at all. *)
Lemma unchanged_Ok {A : Type} (m : Dev A) s a s' :
  (∀ P, preserves P m) → m s = Ok a s' → s' = s.
Proof. intros Hm H. specialize (Hm (λ x, x = s) s eq_refl). by rewrite H in Hm. Qed.

Lemma or_raise_inv_Raise {A : Type} e e' (o : option A) (s s' : DefaultTensor C R) :
  or_raise e' o s = Raise e s' → e = e' ∧ s' = s ∧ o = None.
Proof. destruct o; [done | by intros [= <- <-]]. Qed.

Lemma or_raise_inv_Ok {A : Type} e' (o : option A) (s s' : DefaultTensor C R) a :
  or_raise e' o s = Ok a s' → o = Some a ∧ s' = s.
Proof. destruct o; [by intros [= <- <-] | done]. Qed.

Lemma never_raises_elim {A : Type} e (m : Dev A) s s' :
  never_raises e m → m s = Raise e s' → False.
Proof. intros Hm H. specialize (Hm s). by rewrite H in Hm. Qed.

(** The wire lists the chain representation has no gate for. *)
Definition unsupported_wires (ws : list nat) : Prop :=
  length ws ≠ 1 ∧ ∀ w0 w1, ws = [w0; w1] → ¬ (w1 - w0 = 1 ∨ w0 - w1 = 1).

(** When a gate ends in the NotImplementedError, the device is a chain,
    and all that has happened is [_add_node] for the gate. *)
Lemma _add_gate_nodes_not_supported (s s' : DefaultTensor C R) operation wires par :
  _add_gate_nodes operation wires par s
  = Raise (NotImplementedError nearest_neighbour_gates) s' →
  ∃ A ws, wires = Some ws ∧ _rep s = "mps" ∧ unsupported_wires ws
          ∧ s' = state_of (_add_node (inl A) ws operation "state" s).
Proof.
  set (e := NotImplementedError nearest_neighbour_gates).
  assert (from_device e) as He by apply from_device_NotImplementedError.
  unfold _add_gate_nodes. intros H.
  apply bind_inv_Raise in H as [H | (A & s1 & HA & H)].
  { exfalso. by eapply never_raises_elim; [apply (_get_operator_matrix_never e) |]. }
  apply unchanged_Ok in HA as ->; [| intros P; apply _get_operator_matrix_frame].
  apply bind_inv_Raise in H as [H | (ws & s1 & Hws & H)].
  { by apply or_raise_inv_Raise in H as (? & _). }
  apply or_raise_inv_Ok in Hws as (-> & ->).
  apply bind_inv_Raise in H as [H | (A' & s1 & HA' & H)].
  { by apply or_raise_inv_Raise in H as (? & _). }
  apply or_raise_inv_Ok in HA' as (_ & ->).
  apply bind_inv_Raise in H as [H | (op_node & s1 & Hn & H)].
  { exfalso. by eapply never_raises_elim; [apply (_add_node_never e) |]. }
  apply bind_inv_Raise in H as [H | (rep & s2 & Hrep & H)]; [done |].
  injection Hrep as <- <-.
  assert (_rep s1 = _rep s) as Hr.
  { pose proof (_add_node_frame (λ x, _rep x = _rep s) (inl A') ws operation "state"
      ltac:(eauto with preserves) ltac:(eauto with preserves) s eq_refl) as Hf.
    by rewrite Hn in Hf. }
  assert (s1 = state_of (_add_node (inl A') ws operation "state" s)) as Hs1
    by (by rewrite Hn).
  destruct (decide (_rep s1 = "exact")) as [Hex|Hex].
  { exfalso. eapply never_raises_elim; [| exact H].
    unfold connect_gate_wire. never_auto. }
  destruct (decide (_rep s1 = "mps")) as [Hmps|Hmps]; [| done].
  exists A', ws. split; [done |]. split; [congruence |].
  pose proof (tn_Node_never (C := C) (R := R) e) as Hnode.
  destruct ws as [|w0 [|w1 [|w2 ws]]].
  - injection H as <-. split; [| done]. split; [done | by intros].
  - exfalso. eapply never_raises_elim; [| exact H].
    unfold apply_one_site_gate, refresh_free_wire_edge. never_auto.
  - destruct (decide (w1 - w0 = 1 ∨ w0 - w1 = 1)) as [Hadj|Hadj].
    + exfalso. eapply never_raises_elim; [| exact H].
      unfold apply_two_site_gate, refresh_free_wire_edge. never_auto.
    + injection H as <-. split; [| done].
      split; [done | by intros ? ? [= <- <-]].
  - injection H as <-. split; [| done]. split; [done | by intros].
Qed.

(** The ValueErrors of the preparation are raised before a node is made. *)
Lemma _add_state_prep_nodes_rejected (s s' : DefaultTensor C R) operation par e :
  e = ValueError basis_state_parameter ∨ e = ValueError state_vector_length →
  _add_state_prep_nodes operation par s = Raise e s' → s' = s.
Proof.
  intros He. assert (from_device e) as Hd.
  { destruct He as [-> | ->]; apply from_device_ValueError. }
  assert (∀ t w n, never_raises e (_add_initial_state_nodes (R := R) t w n)) as Hnever.
  { intros. apply _add_initial_state_nodes_never; [done | ..];
      destruct He as [-> | ->]; discriminate. }
  unfold _add_state_prep_nodes. intros H.
  apply bind_inv_Raise in H as [H | (n & s1 & Hn & H)]; [done |].
  injection Hn as <- <-.
  destruct (decide (operation = "QubitStateVector")).
  { apply bind_inv_Raise in H as [H | (v & s1 & Hv & H)].
    { by apply or_raise_inv_Raise in H as (_ & ? & _). }
    apply or_raise_inv_Ok in Hv as (_ & ->).
    destruct (decide (shape v = [2 ^ num_wires s])); [| by injection H].
    apply bind_inv_Raise in H as [H | (t & s1 & Ht & H)].
    { by apply or_raise_inv_Raise in H as (_ & ? & _). }
    exfalso. by eapply never_raises_elim. }
  destruct (decide (operation = "BasisState")); [| by injection H].
  apply bind_inv_Raise in H as [H | (par0 & s1 & Hp & H)].
  { by apply or_raise_inv_Raise in H as (_ & ? & _). }
  apply or_raise_inv_Ok in Hp as (_ & ->).
  destruct (shape par0) as [|len rest]; [by injection H |].
  repeat (destruct (decide _); [by injection H |]).
  apply bind_inv_Raise in H as [H | (t & s1 & Ht & H)].
  - rewrite (map_m_or_raise _ (basis_entry par0 len) IndexError) in H
      by (intros; apply basis_tensor_entry).
    by apply or_raise_inv_Raise in H as (_ & ? & _).
  - exfalso. by eapply never_raises_elim.
Qed.

(** C2, as the code has it.  A rejected [apply] is left without trace
    only when the rejection is the check of a state preparation on its
    wires.  A gate the chain representation does not support has its
    node registered before it is refused: the wire-edge table, the chain,
    the cache and the joined edges are as before and a read of the state
    gives what it gave before, but the registry holds one node more.  A
    state preparation refused for its parameter has already cleared the
    device. *)
Theorem apply_rejected (s s' : DefaultTensor C R) operation wires par e :
  apply operation wires par s = Raise e s' →
  (e = ValueError only_all_wires → s' = s)
  ∧ (e = NotImplementedError nearest_neighbour_gates →
     _free_wire_edges s' = _free_wire_edges s ∧ mps s' = mps s
     ∧ _contracted_state_node s' = _contracted_state_node s
     ∧ joined s' = joined s
     ∧ value_of (_state s') = value_of (_state s)
     ∧ ∃ node, _nodes s'
               = <["state" := default [] (_nodes s !! "state") ++ [node]]> (_nodes s))
  ∧ (e = ValueError basis_state_parameter ∨ e = ValueError state_vector_length →
     s' = cleared s).
Proof.
  intros H. destruct (decide (state_preparation operation)) as [Hop|Hop].
  - destruct (decide (wires_accepted (num_wires s) wires)) as [Hw|Hw].
    + rewrite apply_preparation_accepted in H by done.
      split; [| split].
      * intros ->. exfalso. eapply never_raises_elim; [| exact H].
        apply _add_state_prep_nodes_never; try discriminate.
        apply from_device_ValueError.
      * intros ->. exfalso. eapply never_raises_elim; [| exact H].
        apply _add_state_prep_nodes_never; try discriminate.
        apply from_device_NotImplementedError.
      * intros He. by eapply _add_state_prep_nodes_rejected.
    + rewrite apply_preparation_rejected in H by done.
      injection H as <- <-. split; [done |]. split; [done |]. by intros [|].
  - rewrite apply_gate in H by done. split; [| split].
    + intros ->. exfalso. eapply never_raises_elim; [| exact H].
      apply _add_gate_nodes_never; [apply from_device_ValueError | done].
    + intros ->.
      apply _add_gate_nodes_not_supported in H as (A & ws & -> & Hrep & _ & ->).
      repeat split; try done.
      * by apply _state_value_mps.
      * by eexists.
    + intros He. exfalso. eapply never_raises_elim; [| exact H].
      apply _add_gate_nodes_never; destruct He as [-> | ->];
        (apply from_device_ValueError || done).
Qed.
End Rejection.

(** ** Shapes the preparation refuses *)

Section Shapes.
Context {C R : Type} `{!Backend C R}.

Abbreviation Dev := (M (DefaultTensor C R)).

Lemma for_each_app {S A : Type} (l1 l2 : list A) (body : A → M S unit) s :
  for_each (l1 ++ l2) body s = (for_each l1 body;; for_each l2 body) s.
Proof.
  revert s. induction l1 as [|x l1 IH]; intros s; [done |].
  simpl. unfold mbind, M_bind. destruct (body x s) as [[] s1|e s1]; [| done].
  rewrite IH. done.
Qed.

Lemma map_m_app_Ok {S A B : Type} (f : A → M S B) (l1 l2 : list A) s ys s1 :
  map_m f l1 s = Ok ys s1 →
  map_m f (l1 ++ l2) s = (zs ← map_m f l2; mret (ys ++ zs)) s1.
Proof.
  revert s ys s1. induction l1 as [|x l1 IH]; intros s ys s1.
  - intros [= <- <-]. simpl. unfold mbind, M_bind.
    by destruct (map_m f l2 s).
  - simpl. intros H.
    apply bind_inv_Ok in H as (y & s2 & Hy & H).
    apply bind_inv_Ok in H as (ys' & s3 & Hys & [= <- <-]).
    rewrite (bind_Ok _ _ _ _ _ Hy). unfold mbind, M_bind.
    rewrite (IH _ _ _ Hys). unfold mbind, M_bind.
    by destruct (map_m f l2 s3).
Qed.

(** In the exact representation a component is accepted as soon as its
    rank is the number of its wires. *)
Lemma add_exact_component_accepts (c : Tensor C * list nat * string) :
  ndim c.1.1 = length c.1.2 → total (add_exact_component (R := R) c).
Proof.
  destruct c as [[t ws] nm]. simpl. intros Hr.
  unfold add_exact_component. rewrite decide_False by (by intros ?).
  apply total_bind; [apply _add_node_total | intros node].
  apply total_modify.
Qed.

Lemma add_exact_component_rejects (c : Tensor C * list nat * string) s :
  ndim c.1.1 ≠ length c.1.2 →
  add_exact_component (R := R) c s = Raise (ValueError incompatible_shape) s.
Proof.
  destruct c as [[t ws] nm]. simpl. intros Hr.
  unfold add_exact_component. by rewrite decide_True.
Qed.

Lemma add_mps_component_rejects (c : Tensor C * list nat * string) s :
  ndim c.1.1 ≠ length c.1.2 →
  add_mps_component (R := R) c s = Raise (ValueError incompatible_shape) s.
Proof.
  destruct c as [[t ws] nm]. simpl. intros Hr.
  unfold add_mps_component. by rewrite decide_True.
Qed.

Lemma zip3_lookup {A B D : Type} (a : list A) (b : list B) (c : list D) i x y z :
  a !! i = Some x → b !! i = Some y → c !! i = Some z →
  zip3 a b c !! i = Some (x, y, z).
Proof.
  intros Ha Hb Hc. unfold zip3.
  rewrite !lookup_zip_with. by rewrite Ha, Hb, Hc.
Qed.

Lemma zip3_lookup_inv {A B D : Type} (a : list A) (b : list B) (c : list D) i x :
  zip3 a b c !! i = Some x →
  a !! i = Some x.1.1 ∧ b !! i = Some x.1.2 ∧ c !! i = Some x.2.
Proof.
  unfold zip3. rewrite !lookup_zip_with. intros H.
  destruct (a !! i) as [xa|]; [| done]. destruct (b !! i) as [xb|]; [| done].
  destruct (c !! i) as [xc|]; [| done]. by injection H as <-.
Qed.

(** C9.  Let component [i] of a preparation be the first whose rank is
    not the length of its wire group.  In the exact representation the
    loop passes the components before it and then raises the ValueError
    on the shape (ShapeMismatch) in the state those components left: no
    node exists for component [i] or a later one.  In the chain
    representation the same holds whenever the components before it are
    taken into the chain.  A [QubitStateVector] whose parameter does not
    have the shape [(2 ** num_wires,)] is refused with the ValueError on
    the length of the state vector (ShapeMismatch). *)
Theorem preparation_rejects_shapes (s : DefaultTensor C R)
    tensors wires names i t w v rest ws :
  length tensors = length wires → length wires = length names →
  tensors !! i = Some t → wires !! i = Some w → ndim t ≠ length w →
  (∀ j t' w', j < i → tensors !! j = Some t' → wires !! j = Some w' →
              ndim t' = length w') →
  wires_accepted (num_wires s) ws → shape v ≠ [2 ^ num_wires s] →
  (_rep s = "exact" →
     ∃ s1, for_each (take i (zip3 tensors wires names)) add_exact_component
             (set_free_wire_edges [] s) = Ok tt s1
           ∧ _add_initial_state_nodes tensors wires names s
             = Raise (ValueError incompatible_shape) s1)
  ∧ (_rep s = "mps" →
     ∀ nodes s1,
       map_m add_mps_component (take i (zip3 tensors wires names)) s = Ok nodes s1 →
       _add_initial_state_nodes tensors wires names s
       = Raise (ValueError incompatible_shape) s1)
  ∧ taxonomy (ValueError incompatible_shape) = Some ShapeMismatch
  ∧ apply "QubitStateVector" ws (v :: rest) s
    = Raise (ValueError state_vector_length) (cleared s)
  ∧ taxonomy (ValueError state_vector_length) = Some ShapeMismatch.
Proof.
  intros Hl1 Hl2 Ht Hw Hbad Hfirst Hws Hv.
  destruct (lookup_lt_is_Some_2 names i) as [nm Hnm].
  { apply lookup_lt_Some in Ht. lia. }
  pose proof (zip3_lookup _ _ _ _ _ _ _ Ht Hw Hnm) as Hc.
  pose proof (take_drop_middle _ _ _ Hc) as Hsplit.
  split; [| split; [| split; [done | split; [| done]]]].
  - intros Hrep.
    destruct (total_for_each (take i (zip3 tensors wires names))
                (add_exact_component (R := R))) with (s := set_free_wire_edges [] s)
      as ([] & s1 & Hs1).
    { intros c Hin. apply add_exact_component_accepts.
      apply list_elem_of_lookup in Hin as [j Hj].
      pose proof (lookup_lt_Some _ _ _ Hj) as Hlt. rewrite length_take in Hlt.
      rewrite lookup_take_lt in Hj by lia.
      apply zip3_lookup_inv in Hj as (Hj1 & Hj2 & _).
      eapply Hfirst; [| done | done]. lia. }
    exists s1. split; [done |].
    unfold _add_initial_state_nodes. rewrite decide_False by (intros Hn; by apply Hn).
    unfold mbind at 1, M_bind at 1, gets. rewrite Hrep.
    rewrite decide_True by done.
    unfold mbind at 1, M_bind at 1, modify.
    rewrite <- Hsplit, for_each_app. rewrite (bind_Ok _ _ _ _ _ Hs1).
    simpl.
    by rewrite (bind_Raise _ _ _ _ _ (add_exact_component_rejects (t, w, nm) s1 Hbad)).
  - intros Hrep nodes s1 Hs1.
    unfold _add_initial_state_nodes. rewrite decide_False by (intros Hn; by apply Hn).
    unfold mbind at 1, M_bind at 1, gets. rewrite Hrep.
    rewrite decide_False by done. rewrite decide_True by done.
    rewrite <- Hsplit. apply bind_Raise.
    rewrite (map_m_app_Ok _ _ _ _ _ _ Hs1). apply bind_Raise. simpl.
    apply bind_Raise. by apply (add_mps_component_rejects (t, w, nm)).
  - rewrite apply_preparation_accepted by (done || by left).
    unfold _add_state_prep_nodes.
    unfold mbind at 1, M_bind at 1, gets. rewrite decide_True by done.
    simpl. unfold mbind at 1, M_bind at 1. simpl. by rewrite decide_False.
Qed.
End Shapes.

(** ** Measurements read the state *)

Section Stateless.
Context {S : Type}.

(** A computation that neither reads nor assigns the state. *)
Definition lift_result {A : Type} (r : exn + A) : M S A :=
  λ s, match r with inl e => Raise e s | inr a => Ok a s end.

Definition stateless {A : Type} (m : M S A) : Prop :=
  ∃ r, ∀ s, m s = lift_result r s.

Lemma stateless_ret {A : Type} (a : A) : stateless (mret a).
Proof. by exists (inr a). Qed.

Lemma stateless_raise {A : Type} e : stateless (raise e : M S A).
Proof. by exists (inl e). Qed.

Lemma stateless_or_raise {A : Type} e (o : option A) : stateless (or_raise e o).
Proof. destruct o; [apply stateless_ret | apply stateless_raise]. Qed.

Lemma stateless_bind {A B : Type} (m : M S A) (k : A → M S B) :
  stateless m → (∀ a, stateless (k a)) → stateless (m ≫= k).
Proof.
  intros [[e|a] Hm] Hk.
  - exists (inl e). intros s. unfold mbind, M_bind. by rewrite Hm.
  - destruct (Hk a) as [r Hr]. exists r. intros s.
    unfold mbind, M_bind. rewrite Hm. apply Hr.
Qed.

Lemma stateless_when (b : bool) (m : M S unit) : stateless m → stateless (when_ b m).
Proof. destruct b; [done | intros _; apply stateless_ret]. Qed.

Lemma stateless_map_m {A B : Type} (f : A → M S B) (l : list A) :
  (∀ x, stateless (f x)) → stateless (map_m f l).
Proof.
  intros H. induction l as [|x l IH]; simpl.
  - apply stateless_ret.
  - apply stateless_bind; [apply H | intros y].
    apply stateless_bind; [done | intros ys; apply stateless_ret].
Qed.

Lemma stateless_fold_m {A B : Type} (f : B → A → M S B) (l : list A) b :
  (∀ b x, stateless (f b x)) → stateless (fold_m f b l).
Proof.
  intros H. revert b. induction l as [|x l IH]; intros b; simpl.
  - apply stateless_ret.
  - apply stateless_bind; [apply H | done].
Qed.

(** The result of a stateless computation is the same in every state,
    and the state is returned as it was. *)
Lemma stateless_value {A : Type} (m : M S A) s s' :
  stateless m → value_of (m s) = value_of (m s') ∧ raised (m s) = raised (m s').
Proof. intros [r Hr]. rewrite !Hr. by destruct r. Qed.

Lemma stateless_state {A : Type} (m : M S A) s : stateless m → state_of (m s) = s.
Proof. intros [r Hr]. rewrite Hr. by destruct r. Qed.

Lemma stateless_Ok {A : Type} (m : M S A) s s' a s1 :
  stateless m → m s = Ok a s1 → s1 = s ∧ m s' = Ok a s'.
Proof.
  intros [r Hr]. rewrite !Hr. destruct r; simpl; [done |]. by intros [= <- <-].
Qed.
End Stateless.

Ltac stateless_step :=
  lazymatch goal with
  | |- stateless (_ ≫= _) => apply stateless_bind; [| intros ?]
  | |- stateless (mret _) => apply stateless_ret
  | |- stateless (raise _) => apply stateless_raise
  | |- stateless (or_raise _ _) => apply stateless_or_raise
  | |- stateless (when_ _ _) => apply stateless_when
  | |- stateless (map_m _ _) => apply stateless_map_m; intros ?
  | |- stateless (fold_m _ _ _) => apply stateless_fold_m; intros ? ?
  | |- stateless (match ?x with _ => _ end) => destruct x
  end.

Ltac stateless_auto := repeat first [ solve [eauto 2] | stateless_step ].

Section Measurement.
Context {C R : Type} `{!Backend C R}.

Abbreviation Dev := (M (DefaultTensor C R)).

Lemma _get_operator_matrix_stateless operation par :
  stateless (_get_operator_matrix (R := R) operation par).
Proof. unfold _get_operator_matrix. stateless_auto. Qed.

Lemma reshape_operator_stateless (A : Tensor C) wires :
  stateless (reshape_operator (R := R) A wires).
Proof. unfold reshape_operator. stateless_auto. Qed.

Lemma chain_expectation_stateless n (chain : list (Tensor C)) obs :
  stateless (chain_expectation (R := R) n chain obs).
Proof.
  unfold chain_expectation, connect_mps_observable, connect_mps_rest, connect_mps_wire.
  stateless_auto.
Qed.

(** What [_ev_mps] does once it has read the chain and the number of
    wires off the device. *)
Definition ev_mps_read (chain : option (list (Node C))) (n : nat)
    (local_candidate : bool) (tensors : list (Tensor C)) (wires : list (list nat))
  : Dev C :=
  local_measurement ←
    (if local_candidate
     then w0 ← or_raise IndexError (wires !! 0); mret (bool_decide (length w0 = 1))
     else mret false);
  chain ← or_raise (OtherError "AttributeError") chain;
  expval ←
    (if local_measurement : bool
     then chain_expectation (length chain) (node_tensor <$> chain)
            (zip tensors (take 1 wires))
     else chain_expectation n (node_tensor <$> chain) (zip tensors wires));
  or_raise (OtherError "not a scalar") (scalar_of expval).

Lemma ev_mps_read_stateless chain n b tensors wires :
  stateless (ev_mps_read chain n b tensors wires).
Proof.
  unfold ev_mps_read. pose proof chain_expectation_stateless. stateless_auto.
Qed.

Lemma _ev_mps_read (obs_nodes : list (Node C)) wires (s : DefaultTensor C R) :
  ¬ Exists (λ wires_seq, 2 < length wires_seq) wires →
  _ev_mps obs_nodes wires s
  = ev_mps_read (mps s) (num_wires s) (bool_decide (length obs_nodes = 1))
      (node_tensor <$> obs_nodes) wires s.
Proof.
  intros Hw. unfold _ev_mps, ev_mps_read. rewrite decide_False by done.
  unfold mbind at 1, M_bind at 1, get. by destruct obs_nodes as [|? [|? ?]].
Qed.

(** The value [_ev_mps] returns depends on the chain, the number of
    wires and the tensors of the observables only. *)
Lemma _ev_mps_value (obs_nodes obs_nodes' : list (Node C)) wires
    (s s' : DefaultTensor C R) :
  mps s' = mps s → num_wires s' = num_wires s →
  node_tensor <$> obs_nodes' = node_tensor <$> obs_nodes →
  ∃ r, _ev_mps obs_nodes wires s = lift_result r s
       ∧ _ev_mps obs_nodes' wires s' = lift_result r s'.
Proof.
  intros Hm Hn Ht.
  destruct (decide (Exists (λ wires_seq, 2 < length wires_seq) wires)) as [Hw|Hw].
  { exists (inl (NotImplementedError nearest_neighbour_measurement)).
    unfold _ev_mps. by rewrite !decide_True. }
  rewrite !_ev_mps_read by done. rewrite Hm, Hn, Ht.
  assert (length obs_nodes' = length obs_nodes) as ->.
  { by rewrite <- (length_fmap node_tensor obs_nodes'), Ht, length_fmap. }
  destruct (ev_mps_read_stateless (mps s) (num_wires s)
              (bool_decide (length obs_nodes = 1)) (node_tensor <$> obs_nodes) wires)
    as [r Hr].
  exists r. by rewrite !Hr.
Qed.

Lemma _contract_premeasurement_network_cached (s : DefaultTensor C R) ket :
  _contracted_state_node s = Some ket →
  _contract_premeasurement_network s = Ok tt s.
Proof.
  intros Hc. unfold _contract_premeasurement_network.
  unfold mbind, M_bind, get. by rewrite Hc.
Qed.

(** The edges of the cached node that no gate has been joined to. *)
Definition ket_is_free (s : DefaultTensor C R) (ket : Node C) : Prop :=
  Forall (is_dangling (joined s)) (node_edges ket).

(** What [_ev_exact] does once it has read the cached node off the
    device. *)
Definition ev_exact_read (free : bool) (n : nat) (ket : Tensor C)
    (tensors : list (Tensor C)) (wires : list (list nat)) : Dev C :=
  when_ (negb free) (raise (OtherError "connect"));;
  t ← or_raise (OtherError "contract")
        (expectation_network n ket (zip tensors wires));
  or_raise (OtherError "not a scalar") (scalar_of t).

Lemma ev_exact_read_stateless free n ket tensors wires :
  stateless (ev_exact_read free n ket tensors wires).
Proof. unfold ev_exact_read. stateless_auto. Qed.

(** With the contracted state in the cache, [_ev_exact] contracts the
    closed network of that tensor and nothing else. *)
Lemma _ev_exact_cached (obs_nodes : list (Node C)) wires (s : DefaultTensor C R) ket :
  _contracted_state_node s = Some ket →
  _ev_exact obs_nodes wires s
  = ev_exact_read (bool_decide (ket_is_free s ket)) (num_wires s) (node_tensor ket)
      (node_tensor <$> obs_nodes) wires s.
Proof.
  intros Hc. unfold _ev_exact.
  rewrite (bind_Ok _ _ _ _ _ (_contract_premeasurement_network_cached s ket Hc)).
  unfold mbind at 1, M_bind at 1, get.
  unfold mbind at 1, M_bind at 1. rewrite Hc. simpl.
  unfold ev_exact_read, ket_is_free.
  by destruct (decide (Forall (is_dangling (joined s)) (node_edges ket)));
    [rewrite bool_decide_eq_false_2 by tauto; rewrite bool_decide_eq_true_2 by done
    |rewrite bool_decide_eq_true_2 by done; rewrite bool_decide_eq_false_2 by done].
Qed.

(** The value depends on the tensor of the cached node, on whether its
    edges are free, and on the tensors of the observables. *)
Lemma _ev_exact_value (obs_nodes obs_nodes' : list (Node C)) wires
    (s s' : DefaultTensor C R) ket ket' :
  _contracted_state_node s = Some ket → _contracted_state_node s' = Some ket' →
  node_tensor ket' = node_tensor ket →
  (ket_is_free s ket ↔ ket_is_free s' ket') →
  num_wires s' = num_wires s →
  node_tensor <$> obs_nodes' = node_tensor <$> obs_nodes →
  ∃ r, _ev_exact obs_nodes wires s = lift_result r s
       ∧ _ev_exact obs_nodes' wires s' = lift_result r s'.
Proof.
  intros Hc Hc' Hk Hfree Hn Ht.
  rewrite (_ev_exact_cached _ _ s ket), (_ev_exact_cached _ _ s' ket') by done.
  rewrite Hn, Ht, Hk, (bool_decide_ext _ _ Hfree).
  destruct (ev_exact_read_stateless (bool_decide (ket_is_free s' ket')) (num_wires s)
              (node_tensor ket) (node_tensor <$> obs_nodes) wires) as [r Hr].
  exists r. by rewrite !Hr.
Qed.

(** The first contraction fills the cache; done again it is a no-op. *)
Lemma _ev_exact_after_contraction (obs_nodes : list (Node C)) wires
    (s s0 : DefaultTensor C R) :
  _contract_premeasurement_network s = Ok tt s0 →
  _ev_exact obs_nodes wires s = _ev_exact obs_nodes wires s0.
Proof.
  intros Hs. pose proof Hs as Hk.
  apply _contract_premeasurement_network_caches in Hk as (ket & Hk & _).
  unfold _ev_exact at 1. rewrite (bind_Ok _ _ _ _ _ Hs).
  unfold _ev_exact.
  by rewrite (bind_Ok _ _ _ _ _ (_contract_premeasurement_network_cached s0 ket Hk)).
Qed.

(** [ev] once the complex value is known: the warning and the real part. *)
Definition ev_result (r : exn + C) : Dev R :=
  expval ← lift_result r;
  when_ (r_abs_gt_TOL (c_imag expval))
        (modify (λ s, set_warned (warned s ++ [c_imag expval]) s));;
  mret (c_real expval).

Lemma ev_result_value r (s s' : DefaultTensor C R) :
  value_of (ev_result r s) = value_of (ev_result r s')
  ∧ raised (ev_result r s) = raised (ev_result r s').
Proof.
  unfold ev_result, mbind, M_bind, lift_result. destruct r as [e|c]; [done |].
  by destruct (r_abs_gt_TOL (c_imag c)).
Qed.

Lemma ev_result_frame r (P : DefaultTensor C R → Prop) :
  ignores set_warned P → preserves P (ev_result r).
Proof.
  intros HP s Hs. unfold ev_result, mbind, M_bind, lift_result.
  destruct r as [e|c]; [done |].
  destruct (r_abs_gt_TOL (c_imag c)); simpl; [by apply HP | done].
Qed.

(** A device on which a measurement contracts nothing any more. *)
Definition settled (s : DefaultTensor C R) : Prop :=
  _rep s = "exact" → is_Some (_contracted_state_node s).

(** Devices a measurement cannot tell apart. *)
Definition same_reading (s s' : DefaultTensor C R) : Prop :=
  _rep s' = _rep s ∧ num_wires s' = num_wires s ∧ mps s' = mps s
  ∧ _contracted_state_node s' = _contracted_state_node s
  ∧ joined s' = joined s.

Lemma ev_unfold (obs_nodes : list (Node C)) wires (s : DefaultTensor C R) :
  ev obs_nodes wires s
  = (expval ← (if decide (_rep s = "exact") then _ev_exact obs_nodes wires
               else if decide (_rep s = "mps") then _ev_mps obs_nodes wires
               else raise (OtherError "UnboundLocalError"));
     when_ (r_abs_gt_TOL (c_imag expval))
           (modify (λ s, set_warned (warned s ++ [c_imag expval]) s));;
     mret (c_real expval)) s.
Proof. reflexivity. Qed.

Lemma ev_settled (obs_nodes obs_nodes' : list (Node C)) wires
    (s s' : DefaultTensor C R) :
  settled s → same_reading s s' →
  node_tensor <$> obs_nodes' = node_tensor <$> obs_nodes →
  ∃ r, ev obs_nodes wires s = ev_result r s
       ∧ ev obs_nodes' wires s' = ev_result r s'.
Proof.
  intros Hs (Hr & Hn & Hm & Hc & Hj) Ht. rewrite !ev_unfold. rewrite Hr.
  destruct (decide (_rep s = "exact")) as [Hex|Hex].
  - destruct (Hs Hex) as [ket Hk].
    destruct (_ev_exact_value obs_nodes obs_nodes' wires s s' ket ket)
      as (r & H1 & H2); [done | congruence | done | | done | done |].
    { unfold ket_is_free. by rewrite Hj. }
    exists r. unfold ev_result, mbind, M_bind. by rewrite H1, H2.
  - destruct (decide (_rep s = "mps")) as [Hmps|Hmps].
    + destruct (_ev_mps_value obs_nodes obs_nodes' wires s s')
        as (r & H1 & H2); [done | done | done |].
      exists r. unfold ev_result, mbind, M_bind. by rewrite H1, H2.
    + by exists (inl (OtherError "UnboundLocalError")).
Qed.

Lemma ev_after_contraction (obs_nodes : list (Node C)) wires
    (s s0 : DefaultTensor C R) :
  _rep s = "exact" → _contract_premeasurement_network s = Ok tt s0 →
  ev obs_nodes wires s = ev obs_nodes wires s0.
Proof.
  intros Hex Hs.
  assert (_rep s0 = _rep s) as Hr.
  { pose proof (_contract_premeasurement_network_frame (λ x, _rep x = _rep s)
      ltac:(eauto with preserves) ltac:(eauto with preserves)
      ltac:(eauto with preserves) ltac:(eauto with preserves)
      ltac:(eauto with preserves) ltac:(eauto with preserves) s eq_refl) as Hf.
    by rewrite Hs in Hf. }
  rewrite !ev_unfold. rewrite Hr, Hex.
  rewrite decide_True by done.
  unfold mbind at 1 3, M_bind at 1 3.
  by rewrite (_ev_exact_after_contraction _ _ s s0).
Qed.

(** A measurement that returns has run on a settled device: the given
    one, or the one its first contraction produced. *)
Lemma ev_settles (obs_nodes : list (Node C)) wires (s s1 : DefaultTensor C R) v :
  ev obs_nodes wires s = Ok v s1 →
  ∃ s0, settled s0 ∧ ev obs_nodes wires s0 = Ok v s1
        ∧ _rep s0 = _rep s ∧ num_wires s0 = num_wires s
        ∧ (∀ ket, _contracted_state_node s = Some ket →
                  _contracted_state_node s0 = Some ket).
Proof.
  intros H. destruct (decide (_rep s = "exact")) as [Hex|Hex].
  - pose proof H as H'. rewrite ev_unfold in H'.
    apply bind_inv_Ok in H' as (c & sb & Hev & _).
    rewrite decide_True in Hev by done. unfold _ev_exact in Hev.
    apply bind_inv_Ok in Hev as ([] & s0 & Hs0 & _).
    exists s0. rewrite <- (ev_after_contraction _ _ s s0) by done.
    pose proof (_contract_premeasurement_network_caches _ _ Hs0) as (ket & Hk & Hsame).
    pose proof (_contract_premeasurement_network_frame
      (λ x, _rep x = _rep s ∧ num_wires x = num_wires s)
      ltac:(eauto with preserves) ltac:(eauto with preserves)
      ltac:(eauto with preserves) ltac:(eauto with preserves)
      ltac:(eauto with preserves) ltac:(eauto with preserves)
      s (conj eq_refl eq_refl)) as Hf.
    rewrite Hs0 in Hf. destruct Hf as [Hr Hn].
    repeat split; try done.
    + intros _. by exists ket.
    + intros ket0 Hk0. destruct (Hsame ket0 Hk0) as [-> _]. done.
  - exists s. repeat split; try done. by intros ?.
Qed.

(** On a settled device a measurement assigns nothing but the warnings. *)
Lemma ev_settled_reading (obs_nodes : list (Node C)) wires (s : DefaultTensor C R) :
  settled s → same_reading s (state_of (ev obs_nodes wires s)).
Proof.
  intros Hs. destruct (ev_settled obs_nodes obs_nodes wires s s) as (r & Hr & _);
    [done | by repeat split | done |].
  rewrite Hr.
  apply (ev_result_frame r (λ x, same_reading s x)).
  - by intros v x Hx.
  - by repeat split.
Qed.

Lemma settled_same_reading (s s' : DefaultTensor C R) :
  settled s → same_reading s s' → settled s'.
Proof. intros Hs (Hr & _ & _ & Hc & _) Hex. rewrite Hc. apply Hs. congruence. Qed.

Lemma same_reading_trans (s1 s2 s3 : DefaultTensor C R) :
  same_reading s1 s2 → same_reading s2 s3 → same_reading s1 s3.
Proof.
  unfold same_reading. intros (?&?&?&?&?) (?&?&?&?&?). repeat split; congruence.
Qed.

Lemma same_reading_sym (s1 s2 : DefaultTensor C R) :
  same_reading s1 s2 → same_reading s2 s1.
Proof. unfold same_reading. intros (?&?&?&?&?). repeat split; congruence. Qed.

(** Registering observable nodes does not change what is measured. *)
Lemma _create_nodes_from_tensors_reading tensors wires names key
    (s : DefaultTensor C R) :
  same_reading s (state_of (_create_nodes_from_tensors tensors wires names key s)).
Proof.
  by apply (_create_nodes_from_tensors_frame (λ x, same_reading s x));
    eauto with preserves.
Qed.

(** The nodes hold the tensors they were made of, whatever identities
    they get. *)
Lemma _create_nodes_from_tensors_Ok tensors wires names key (s : DefaultTensor C R) :
  ∃ nodes s1, _create_nodes_from_tensors tensors wires names key s = Ok nodes s1
              ∧ node_tensor <$> nodes = (λ c, c.1.1) <$> zip3 tensors wires names.
Proof.
  unfold _create_nodes_from_tensors.
  generalize (zip3 tensors wires names). intros cs. revert s.
  induction cs as [|[[A w] o] cs IH]; intros s; simpl.
  - by exists [], s.
  - unfold mbind at 1, M_bind at 1. unfold _add_node at 1, tn_Node.
    unfold mbind, M_bind, get, modify, mret, M_ret. simpl.
    match goal with |- context [map_m _ cs ?s'] => destruct (IH s') as (nodes & s1 & -> & Ht) end.
    eexists _, s1. split; [done |]. rewrite !fmap_cons. by f_equal.
Qed.
End Measurement.

(** ** Expectation values are reads *)

Section Idempotence.
Context {C R : Type} `{!Backend C R}.

Abbreviation Dev := (M (DefaultTensor C R)).

Lemma value_of_Some {S A : Type} (o : outcome S A) v :
  value_of o = Some v → o = Ok v (state_of o).
Proof. destruct o; [by intros [= ->] | done]. Qed.

(** Two measurements of observables with the same tensors, the second on
    a device the first cannot be told apart from: when the first returns
    a value, the second returns that value and keeps the cache. *)
Lemma ev_again (obs_nodes obs_nodes' : list (Node C)) wires
    (s s1 s' : DefaultTensor C R) v :
  ev obs_nodes wires s = Ok v s1 → same_reading s1 s' →
  node_tensor <$> obs_nodes' = node_tensor <$> obs_nodes →
  ∃ s2, ev obs_nodes' wires s' = Ok v s2 ∧ same_reading s1 s2.
Proof.
  intros Hev Hread Ht.
  destruct (ev_settles _ _ _ _ _ Hev) as (s0 & Hs0 & Hev0 & _).
  pose proof (ev_settled_reading obs_nodes wires s0 Hs0) as H01.
  rewrite Hev0 in H01. simpl in H01.
  pose proof (same_reading_trans _ _ _ H01 Hread) as H0'.
  destruct (ev_settled obs_nodes obs_nodes' wires s0 s' Hs0 H0' Ht) as (r & Hr & Hr').
  destruct (ev_result_value r s0 s') as [Hv _].
  rewrite <- Hr, Hev0 in Hv. simpl in Hv. symmetry in Hv.
  rewrite <- Hr' in Hv. apply value_of_Some in Hv.
  eexists. split; [exact Hv |].
  pose proof (ev_settled_reading obs_nodes' wires s'
                (settled_same_reading _ _ Hs0 H0')) as H'2.
  by apply (same_reading_trans _ s').
Qed.

(** C3.  When [expval] returns a value, calling it again with the same
    observable, wires and parameters returns the same value; the cached
    contracted state is the same node after the second call as after the
    first, and a node that was in the cache before the first call is
    still there: a measurement fills the cache at most, it never empties
    or replaces it. *)
Theorem expval_is_idempotent (s s1 : DefaultTensor C R) (m : measurement C) (v : R) :
  expval m s = Ok v s1 →
  ∃ s2, expval m s1 = Ok v s2
        ∧ _contracted_state_node s2 = _contracted_state_node s1
        ∧ (∀ ket, _contracted_state_node s = Some ket →
                  _contracted_state_node s1 = Some ket).
Proof.
  unfold expval. destruct (as_lists m) as [[observable wires] par]. intros H.
  apply bind_inv_Ok in H as (tensors & sa & Ht & H).
  assert (stateless (S := DefaultTensor C R)
            (map_m (λ '(o, p, w), A ← _get_operator_matrix o p; reshape_operator A w)
                   (zip3 observable par wires))) as Hpure.
  { pose proof (_get_operator_matrix_stateless (C := C) (R := R)).
    pose proof (reshape_operator_stateless (C := C) (R := R)).
    stateless_auto. }
  destruct (stateless_Ok _ _ s1 _ _ Hpure Ht) as [-> Ht1].
  apply bind_inv_Ok in H as (nodes & sb & Hn & Hev).
  destruct (_create_nodes_from_tensors_Ok tensors wires observable "observables" s)
    as (nodes0 & sb0 & Hn0 & Htensors).
  rewrite Hn in Hn0. injection Hn0 as <- <-.
  destruct (_create_nodes_from_tensors_Ok tensors wires observable "observables" s1)
    as (nodes' & sb' & Hn' & Htensors').
  pose proof (_create_nodes_from_tensors_reading tensors wires observable
                "observables" s1) as Hread.
  rewrite Hn' in Hread. simpl in Hread.
  destruct (ev_again nodes nodes' wires sb s1 sb' v Hev Hread) as (s2 & Hev2 & H12).
  { by rewrite Htensors, Htensors'. }
  exists s2. rewrite (bind_Ok _ _ _ _ _ Ht1), (bind_Ok _ _ _ _ _ Hn').
  split; [done |]. split; [by destruct H12 as (_ & _ & _ & ? & _) |].
  intros ket Hket.
  pose proof (_create_nodes_from_tensors_reading tensors wires observable
                "observables" s) as Hread0.
  rewrite Hn in Hread0. destruct Hread0 as (_ & _ & _ & Hc & _). simpl in Hc.
  destruct (ev_settles _ _ _ _ _ Hev) as (s0 & Hs0 & Hev0 & _ & _ & Hkeep).
  pose proof (ev_settled_reading nodes wires s0 Hs0) as H01.
  rewrite Hev0 in H01. destruct H01 as (_ & _ & _ & Hc1 & _). simpl in Hc1.
  rewrite Hc1. apply Hkeep. by rewrite Hc.
Qed.
End Idempotence.

(** ** Devices a measurement cannot tell apart *)

Section SameNetwork.
Context {C R : Type} `{!Backend C R}.

(** The axes of a contraction are the edges of [output_edge_order]. *)
Lemma tn_contract_shape (nodes : list (Node C)) joined out t :
  tn_contract nodes joined out = Some t → shape t = e_dim <$> out.
Proof.
  unfold tn_contract. destruct (decide _); [| done].
  intros H. apply fmap_Some in H as (d & _ & ->). done.
Qed.

Lemma length_node_edges (n : Node C) : length (node_edges n) = ndim (node_tensor n).
Proof. unfold node_edges. by rewrite length_fmap, length_seq. Qed.

(** The device [_contract_premeasurement_network] leaves in the exact
    representation, given the nodes it contracted and their tensor. *)
Lemma contracted_node_spec (s : DefaultTensor C R) nodes t :
  ∃ ket s',
    contracted_node nodes t s = Ok ket s'
    ∧ node_tensor ket = t ∧ node_name ket = "Ket"
    ∧ joined s' = [] ∧ _free_wire_edges s' = node_edges ket
    ∧ same_configuration s s' ∧ mps s' = mps s ∧ warned s' = warned s
    ∧ _contracted_state_node s' = _contracted_state_node s
    ∧ next_id s ≤ next_id s'
    ∧ ((node_id ket = next_id s ∧ next_id s' = S (next_id s) ∧ _nodes s' = _nodes s)
       ∨ (∃ node, nodes = [node] ∧ node_id ket = node_id node
                  ∧ next_id s' = next_id s
                  ∧ _nodes s' = <["state" := [ket]]> (_nodes s))).
Proof.
  unfold contracted_node.
  destruct nodes as [|node [|node' rest]].
  1,3: (eexists (mkNode (next_id s) "Ket" t), _; split; [reflexivity |];
        simpl; repeat split; try done; try lia; left; by repeat split).
  unfold mbind, M_bind, get at 1.
  destruct (decide _) as [Hno|Hsome].
  - eexists (mkNode (node_id node) "Ket" t), _. split; [reflexivity |].
    simpl. repeat split; try done. right. by exists node.
  - eexists (mkNode (next_id s) "Ket" t), _; split; [reflexivity |].
    simpl; repeat split; try done; try lia; left; by repeat split.
Qed.

(** What the contraction of the exact representation computes, or the
    exception it ends in. *)
Definition exact_contraction (s : DefaultTensor C R) : exn + Tensor C :=
  if decide (_contraction_method s ∉ contract_fns)
  then inl (KeyError (_contraction_method s))
  else match _nodes s !! "state" with
       | None => inl (KeyError "state")
       | Some nodes =>
           match tn_contract nodes (joined s) (_free_wire_edges s) with
           | None => inl (OtherError "contract")
           | Some t => inr t
           end
       end.

Lemma _contract_premeasurement_network_exact (s : DefaultTensor C R) :
  _rep s = "exact" → _contracted_state_node s = None →
  match exact_contraction s with
  | inl e => _contract_premeasurement_network s = Raise e s
  | inr t =>
      ∃ ket s',
        _contract_premeasurement_network s = Ok tt s'
        ∧ _contracted_state_node s' = Some ket
        ∧ node_tensor ket = t ∧ node_name ket = "Ket"
        ∧ joined s' = [] ∧ _free_wire_edges s' = node_edges ket
        ∧ same_configuration s s' ∧ mps s' = mps s ∧ warned s' = warned s
        ∧ next_id s ≤ next_id s'
        ∧ ((node_id ket = next_id s ∧ next_id s' = S (next_id s) ∧ _nodes s' = _nodes s)
           ∨ (∃ node, _nodes s !! "state" = Some [node] ∧ node_id ket = node_id node
                      ∧ next_id s' = next_id s
                      ∧ _nodes s' = <["state" := [ket]]> (_nodes s)))
  end.
Proof.
  intros Hex Hc. unfold exact_contraction.
  unfold _contract_premeasurement_network, mbind, M_bind, get, when_, or_raise,
    raise, mret, M_ret, modify.
  rewrite Hc. rewrite (decide_True (P := _rep s = "exact")) by done.
  destruct (decide (_contraction_method s ∉ contract_fns)) as [Hm|Hm].
  { by rewrite bool_decide_eq_true_2. }
  rewrite bool_decide_eq_false_2 by done.
  destruct (_nodes s !! "state") as [nodes|] eqn:Hnodes; [| done].
  destruct (tn_contract nodes (joined s) (_free_wire_edges s)) as [t|]; [| done].
  destruct (contracted_node_spec s nodes t)
    as (ket & s' & Hk & Ht & Hname & Hj & Hf & Hcfg & Hmps & Hw & _ & Hid & Hcase).
  rewrite Hk. exists ket, (set_contracted_state_node (Some ket) s').
  split; [done |]. simpl. repeat split; try done; try apply Hcfg.
  destruct Hcase as [?|(node & -> & ?)]; [by left | right; by exists node].
Qed.

(** Devices with the same network of the state: a measurement cannot
    tell them apart, whether it has to contract first or not. *)
Definition same_state_network (s s' : DefaultTensor C R) : Prop :=
  same_reading s s'
  ∧ _contraction_method s' = _contraction_method s
  ∧ _free_wire_edges s' = _free_wire_edges s
  ∧ _nodes s' !! "state" = _nodes s !! "state".

Lemma same_state_network_refl (s : DefaultTensor C R) : same_state_network s s.
Proof. by repeat split. Qed.

Lemma same_state_network_trans (s1 s2 s3 : DefaultTensor C R) :
  same_state_network s1 s2 → same_state_network s2 s3 → same_state_network s1 s3.
Proof.
  intros (Ha & ? & ? & ?) (Hb & ? & ? & ?).
  split; [by eapply same_reading_trans |]. repeat split; congruence.
Qed.

Lemma is_dangling_nil (e : Edge) : is_dangling [] e.
Proof. constructor. Qed.

Lemma ket_is_free_nil (s : DefaultTensor C R) ket : joined s = [] → ket_is_free s ket.
Proof. intros Hj. unfold ket_is_free. rewrite Hj. apply Forall_forall. intros e _. constructor. Qed.

(** On devices with the same network of the state, observables with the
    same tensors have the same expectation value, or fail alike. *)
Lemma ev_same_state_network (obs_nodes obs_nodes' : list (Node C)) wires
    (s s' : DefaultTensor C R) :
  same_state_network s s' →
  node_tensor <$> obs_nodes' = node_tensor <$> obs_nodes →
  value_of (ev obs_nodes wires s) = value_of (ev obs_nodes' wires s')
  ∧ raised (ev obs_nodes wires s) = raised (ev obs_nodes' wires s').
Proof.
  intros (Hread & Hm & Hf & Hnodes) Ht.
  destruct (decide (settled s)) as [Hs|Hs].
  { destruct (ev_settled obs_nodes obs_nodes' wires s s' Hs Hread Ht) as (r & -> & ->).
    apply ev_result_value. }
  assert (_rep s = "exact" ∧ _contracted_state_node s = None) as [Hex Hc].
  { unfold settled in Hs. destruct (decide (_rep s = "exact")) as [Hex|Hex]; [| tauto].
    split; [done |]. destruct (_contracted_state_node s); [| done].
    exfalso. apply Hs. by eexists. }
  destruct Hread as (Hr & Hn & Hmps & Hc' & Hj).
  assert (exact_contraction s' = exact_contraction s) as Hsame.
  { unfold exact_contraction. by rewrite Hm, Hnodes, Hj, Hf. }
  pose proof (_contract_premeasurement_network_exact s Hex Hc) as H1.
  pose proof (_contract_premeasurement_network_exact s'
                ltac:(congruence) ltac:(congruence)) as H2.
  rewrite Hsame in H2.
  rewrite !ev_unfold. rewrite Hr, Hex.
  rewrite !(decide_True (P := "exact" = "exact")) by done.
  destruct (exact_contraction s) as [e|t].
  - unfold _ev_exact. unfold mbind, M_bind. cbv beta. by rewrite H1, H2.
  - destruct H1 as (ket & s0 & H1 & Hk & Hkt & _ & Hj0 & _ & Hcfg & _).
    destruct H2 as (ket' & s0' & H2 & Hk' & Hkt' & _ & Hj0' & _ & Hcfg' & _).
    unfold mbind, M_bind. cbv beta.
    rewrite (_ev_exact_after_contraction _ _ s s0 H1).
    rewrite (_ev_exact_after_contraction _ _ s' s0' H2).
    destruct (_ev_exact_value obs_nodes obs_nodes' wires s0 s0' ket ket')
      as (r & -> & ->); try done.
    + congruence.
    + split; intros _; by apply ket_is_free_nil.
    + destruct Hcfg as (-> & _), Hcfg' as (-> & _). done.
    + destruct (ev_result_value r s0 s0') as [Hv He].
      unfold ev_result, mbind, M_bind in Hv, He. done.
Qed.


Lemma same_state_network_sym (s1 s2 : DefaultTensor C R) :
  same_state_network s1 s2 → same_state_network s2 s1.
Proof.
  intros (Ha & ? & ? & ?). split; [by apply same_reading_sym |]. by repeat split.
Qed.

(** A node registered under ["observables"] is no part of the network of
    the state. *)
Lemma _add_node_observable (s : DefaultTensor C R) A wires name :
  preserves (same_state_network s) (_add_node A wires name "observables").
Proof.
  intros x (Hread & Hm & Hf & Hn). unfold _add_node, tn_Node.
  destruct A as [t|n]; unfold mbind, M_bind, get, modify, mret, M_ret; simpl;
    (split; [exact Hread |]; repeat split; try done;
     simpl; by rewrite lookup_insert_ne).
Qed.

Lemma _create_nodes_from_tensors_observables tensors wires names
    (s : DefaultTensor C R) :
  same_state_network s
    (state_of (_create_nodes_from_tensors tensors wires names "observables" s)).
Proof.
  apply (preserves_map_m (same_state_network s)); [| apply same_state_network_refl].
  intros [[A w] o]. apply _add_node_observable.
Qed.

(** A measurement that has returned does not change what the next one
    returns: the next one reads what the first one has contracted. *)
Lemma ev_then_ev (obs_nodes : list (Node C)) wires (s s1 : DefaultTensor C R) v
    (nodes nodes' : list (Node C)) wires' :
  ev obs_nodes wires s = Ok v s1 →
  node_tensor <$> nodes' = node_tensor <$> nodes →
  value_of (ev nodes' wires' s1) = value_of (ev nodes wires' s).
Proof.
  intros Hev Ht.
  assert (∃ s0, settled s0 ∧ ev obs_nodes wires s0 = Ok v s1
                ∧ ev nodes wires' s = ev nodes wires' s0) as (s0 & Hs0 & Hev0 & ->).
  { destruct (decide (_rep s = "exact")) as [Hex|Hex].
    - pose proof Hev as H'. rewrite ev_unfold in H'.
      apply bind_inv_Ok in H' as (c & sb & H' & _).
      rewrite decide_True in H' by done. unfold _ev_exact in H'.
      apply bind_inv_Ok in H' as ([] & s0 & Hs0 & _).
      exists s0. rewrite <- !(ev_after_contraction _ _ s s0) by done.
      split; [| done].
      pose proof (_contract_premeasurement_network_caches _ _ Hs0) as (ket & Hk & _).
      intros _. by exists ket.
    - exists s. split; [by intros ? | done]. }
  pose proof (ev_settled_reading obs_nodes wires s0 Hs0) as H01.
  rewrite Hev0 in H01. simpl in H01.
  destruct (ev_settled nodes nodes' wires' s0 s1 Hs0 H01 Ht) as (r & -> & ->).
  symmetry. apply ev_result_value.
Qed.

(** Devices on which every measurement returns what it returns on [s]. *)
Definition measures_as (s x : DefaultTensor C R) : Prop :=
  ∀ (nodes nodes' : list (Node C)) wires,
    node_tensor <$> nodes' = node_tensor <$> nodes →
    value_of (ev nodes wires s) = value_of (ev nodes' wires x).

Lemma measures_as_same_state_network (s x : DefaultTensor C R) :
  same_state_network s x → measures_as s x.
Proof. intros H nodes nodes' wires Ht. by apply ev_same_state_network. Qed.

Lemma measures_as_registered (s x x' : DefaultTensor C R) :
  measures_as s x → same_state_network x x' → measures_as s x'.
Proof.
  intros H Hx nodes nodes' wires Ht. rewrite (H nodes nodes' wires Ht).
  by apply ev_same_state_network.
Qed.

Lemma measures_as_measured (s x x' : DefaultTensor C R) obs_nodes wires v :
  measures_as s x → ev obs_nodes wires x = Ok v x' → measures_as s x'.
Proof.
  intros H Hev nodes nodes' wires' Ht. rewrite (H nodes nodes' wires' Ht).
  symmetry. by eapply ev_then_ev.
Qed.
End SameNetwork.

(** ** The variance *)

Section Variance.
Context {C R : Type} `{!Backend C R}.

Abbreviation Dev := (M (DefaultTensor C R)).

(** [var] and [expval] reshape the same matrices. *)
Lemma expval_tensors observable par wires matrices tensors (s : DefaultTensor C R) :
  map_m (λ '(o, p), _get_operator_matrix o p) (zip observable par) s = Ok matrices s →
  map_m (λ '(A, w), reshape_operator A w) (zip matrices wires) s = Ok tensors s →
  map_m (λ '(o, p, w), A ← _get_operator_matrix o p; reshape_operator A w)
        (zip3 observable par wires) s = Ok tensors s.
Proof.
  revert par wires matrices tensors.
  induction observable as [|o os IH]; intros par wires matrices tensors.
  { simpl. intros [= <-]. simpl. by intros [= <-]. }
  destruct par as [|p ps].
  { simpl. intros [= <-]. simpl. by intros [= <-]. }
  simpl. intros Hm.
  apply bind_inv_Ok in Hm as (A & sa & HA & Hm).
  destruct (stateless_Ok _ _ s _ _ (_get_operator_matrix_stateless o p) HA) as [Hsa _].
  subst sa.
  apply bind_inv_Ok in Hm as (ms & sb & Hms & [= <- Hsb]). subst sb.
  destruct wires as [|w ws].
  { simpl. by intros [= <-]. }
  simpl. intros Ht.
  apply bind_inv_Ok in Ht as (t & sc & Ht1 & Ht).
  destruct (stateless_Ok _ _ s _ _ (reshape_operator_stateless A w) Ht1) as [Hsc _].
  subst sc.
  apply bind_inv_Ok in Ht as (ts & sd & Hts & [= <- Hsd]). subst sd.
  change (zip3 (o :: os) (p :: ps) (w :: ws)) with ((o, p, w) :: zip3 os ps ws).
  simpl.
  assert ((A ← _get_operator_matrix o p; reshape_operator A w) s = Ok t s) as Hhead
    by (by rewrite (bind_Ok _ _ _ _ _ HA)).
  rewrite (bind_Ok _ _ _ _ _ Hhead).
  by rewrite (bind_Ok _ _ _ _ _ (IH ps ws ms ts Hms Hts)).
Qed.

(** The tensors [var] makes of the squared matrices. *)
Lemma squared_tensors (l : list (Tensor C * list nat)) squares
    (s s1 : DefaultTensor C R) :
  map_m (λ '(A, wires),
           AA ← or_raise (OtherError "matmul") (matmul A A);
           reshape_operator AA wires) l s = Ok squares s1 →
  Forall2 (λ AA Aw, ∃ A2, matmul Aw.1 Aw.1 = Some A2
                          ∧ reshape A2 (replicate (length Aw.2 * 2) 2) = Some AA)
          squares l.
Proof.
  revert squares s s1.
  induction l as [|[A w] l IH]; intros squares s s1; simpl.
  { intros [= <- _]. constructor. }
  intros H. apply bind_inv_Ok in H as (AA & sa & HAA & H).
  apply bind_inv_Ok in H as (rest & sb & Hrest & [= <- _]).
  apply bind_inv_Ok in HAA as (A2 & sc & HA2 & HAA).
  apply or_raise_inv_Ok in HA2 as [HA2 _].
  apply or_raise_inv_Ok in HAA as [HAA _].
  constructor; [by exists A2 | by eapply IH].
Qed.

(** C8.  When [var] returns [v] on a device [s], then
    [v = e2 - e1 * e1], where [e1] is the value [expval] returns on [s]
    for the same observables, wires and parameters, and [e2] is the
    value that [ev], the same machinery, returns on [s] for nodes that
    hold the matrix products [A @ A] of the observables' matrices,
    reshaped like the observables. *)
Theorem var_is_expectation_of_square_minus_square
    (s s' : DefaultTensor C R) (m : measurement C) (v : R) :
  var m s = Ok v s' →
  ∃ matrices squares e2 e1,
    map_m (λ '(o, p), _get_operator_matrix o p) (zip (as_lists m).1.1 (as_lists m).2) s
    = Ok matrices s
    ∧ Forall2 (λ AA Aw, ∃ A2, matmul Aw.1 Aw.1 = Some A2
                              ∧ reshape A2 (replicate (length Aw.2 * 2) 2) = Some AA)
              squares (zip matrices (as_lists m).1.2)
    ∧ (∀ nodes : list (Node C),
         node_tensor <$> nodes
         = (λ c, c.1.1) <$> zip3 squares (as_lists m).1.2 (as_lists m).1.1 →
         value_of (ev nodes (as_lists m).1.2 s) = Some e2)
    ∧ value_of (expval m s) = Some e1
    ∧ v = r_sub e2 (r_mul e1 e1).
Proof.
  unfold var, expval. destruct (as_lists m) as [[observable wires] par]. simpl.
  intros H.
  pose proof (_get_operator_matrix_stateless (C := C) (R := R)) as Hmat.
  pose proof (reshape_operator_stateless (C := C) (R := R)) as Hresh.
  assert (∀ l, stateless (S := DefaultTensor C R)
                 (map_m (λ '(o, p), _get_operator_matrix o p) l)) as Hpure1
    by (intros; stateless_auto).
  assert (∀ l, stateless (S := DefaultTensor C R)
                 (map_m (λ '(A, wires), reshape_operator A wires) l)) as Hpure2
    by (intros; stateless_auto).
  assert (∀ l, stateless (S := DefaultTensor C R)
                 (map_m (λ '(A, wires),
                           AA ← or_raise (OtherError "matmul") (matmul A A);
                           reshape_operator AA wires) l)) as Hpure3
    by (intros; stateless_auto).
  apply bind_inv_Ok in H as (matrices & sm & Hm & H).
  destruct (stateless_Ok _ _ s _ _ (Hpure1 _) Hm) as [Hsm _]. subst sm.
  apply bind_inv_Ok in H as (tensors & st & Ht & H).
  destruct (stateless_Ok _ _ s _ _ (Hpure2 _) Ht) as [Hst _]. subst st.
  apply bind_inv_Ok in H as (squares & sq & Hsq & H).
  destruct (stateless_Ok _ _ s _ _ (Hpure3 _) Hsq) as [Hsq' _]. subst sq.
  apply bind_inv_Ok in H as (obs_nodes & s1 & Hn & H).
  apply bind_inv_Ok in H as (sq_nodes & s2 & Hn2 & H).
  apply bind_inv_Ok in H as (e2 & s3 & Hev2 & H).
  apply bind_inv_Ok in H as (e1 & s4 & Hev1 & [= <- <-]).
  destruct (_create_nodes_from_tensors_Ok tensors wires observable "observables" s)
    as (? & ? & Hn0 & Htensors).
  rewrite Hn in Hn0. injection Hn0 as <- <-.
  destruct (_create_nodes_from_tensors_Ok squares wires observable "observables" s1)
    as (? & ? & Hn0 & Hsquares).
  rewrite Hn2 in Hn0. injection Hn0 as <- <-.
  pose proof (_create_nodes_from_tensors_observables tensors wires observable s) as H1.
  rewrite Hn in H1. simpl in H1.
  pose proof (_create_nodes_from_tensors_observables squares wires observable s1) as H2.
  rewrite Hn2 in H2. simpl in H2.
  pose proof (same_state_network_trans _ _ _ H1 H2) as H02.
  exists matrices, squares, e2, e1.
  split; [done |]. split; [by eapply squared_tensors |].
  split; [| split; [| done]].
  - intros nodes Hnodes.
    destruct (ev_same_state_network nodes sq_nodes wires s s2 H02) as [-> _].
    + by rewrite Hsquares, Hnodes.
    + by rewrite Hev2.
  - rewrite (bind_Ok _ _ _ _ _ (expval_tensors _ _ _ _ _ _ Hm Ht)).
    destruct (_create_nodes_from_tensors_Ok tensors wires observable "observables" s)
      as (nodes' & sx & Hn' & Htensors').
    rewrite Hn in Hn'. injection Hn' as <- <-.
    rewrite (bind_Ok _ _ _ _ _ Hn).
    destruct (ev_same_state_network obs_nodes obs_nodes wires s1 s2 H2 eq_refl)
      as [-> _].
    rewrite <- (ev_then_ev sq_nodes wires s2 s3 e2 obs_nodes obs_nodes wires Hev2 eq_refl).
    by rewrite Hev1.
Qed.
End Variance.

(** ** Sampling *)

Section Product.
Context {A : Type}.

(** A member of the product takes one element of each list. *)
Lemma elem_of_product (ls : list (list A)) (xs : list A) :
  xs ∈ product ls ↔ Forall2 (λ x l, x ∈ l) xs ls.
Proof.
  revert xs. induction ls as [|l ls IH]; intros xs; csimpl.
  - rewrite list_elem_of_singleton. split; [intros ->; constructor | by inversion 1].
  - rewrite list_elem_of_bind. split.
    + intros (x & Hxs & Hx). apply list_elem_of_fmap in Hxs as (ys & -> & Hys).
      constructor; [done | by apply IH].
    + inversion 1 as [|x l' ys ls' Hx Hys]; subst.
      exists x. split; [| done]. apply list_elem_of_fmap. exists ys.
      split; [done | by apply IH].
Qed.

Lemma length_product (ls : list (list A)) :
  length (product ls) = foldr (λ l n, length l * n) 1 ls.
Proof.
  induction ls as [|l ls IH]; [done |]. csimpl. rewrite <- IH. clear IH.
  induction l as [|x l IHl]; [done |]. csimpl.
  by rewrite length_app, length_fmap, IHl.
Qed.

End Product.

Section ProductZip.
Context {A B : Type}.

Lemma fmap_zip_with_cons (x : A) (y : B) (pl : list (list A)) (pk : list (list B)) :
  zip_with zip ((λ xs, x :: xs) <$> pl) ((λ ys, y :: ys) <$> pk)
  = (λ c, (x, y) :: c) <$> zip_with zip pl pk.
Proof. revert pk. induction pl as [|a pl IH]; intros [|b pk]; simpl; by f_equal. Qed.

(** The two enumerations of [sample] run in step: when the lists have
    pairwise the same length, the combination at a position takes in
    each pair of lists the elements at one and the same place. *)
Lemma product_zip (ls : list (list A)) (ks : list (list B)) :
  Forall2 (λ l k, length l = length k) ls ks →
  product (zip_with zip ls ks) = zip_with zip (product ls) (product ks).
Proof.
  induction 1 as [|l k ls ks Hl Hls IH]; [done |]. csimpl. rewrite IH.
  assert (length (product ls) = length (product ks)) as Hlen.
  { rewrite (length_product ls), (length_product ks). clear IH.
    induction Hls as [|l' k' ls' ks' Hl' _ IH']; simpl; [done | by rewrite Hl', IH']. }
  clear IH. revert k Hl. induction l as [|x l IHl]; intros [|y k]; csimpl; try done.
  intros [= Hl]. rewrite zip_with_app by (by rewrite !length_fmap).
  rewrite fmap_zip_with_cons. f_equal. by apply IHl.
Qed.
End ProductZip.

Section Sampling.
Context {C R : Type} `{!Backend C R}.

Abbreviation Dev := (M (DefaultTensor C R)).

(** The draws are as many as asked for, and each is an entry of [a]. *)
Lemma random_choice_spec (rng : nat → R) (a : list R) size p xs :
  random_choice rng a size p = Some xs →
  length xs = size ∧ Forall (λ x, x ∈ a) xs
  ∧ length a = length p ∧ r_probabilities p.
Proof.
  unfold random_choice. intros H.
  apply bind_Some in H as (Hg & _ & H).
  destruct Hg as (_ & Hlen & Hp).
  apply bind_Some in H as (last_cdf & _ & H).
  split; [| split; [| by split]].
  - apply length_mapM in H. by rewrite length_seq in H.
  - apply mapM_Some in H. apply Forall_forall. intros x Hx.
    apply list_elem_of_lookup in Hx as [i Hi].
    destruct (Forall2_lookup_r _ _ _ _ _ H Hi) as (k & _ & Hk).
    apply list_elem_of_lookup. eauto.
Qed.

(** [projectors_with_wires]: every projector of observable [idx] with
    [wires[idx]]. *)
Definition attach_wires (wires : list (list nat)) (groups : list (list (Tensor C)))
  : list (list (Tensor C * list nat)) :=
  imap (λ idx group, (λ proj, (proj, default [] (wires !! idx))) <$> group) groups.

Lemma attach_wires_group (wires : list (list nat)) idx (group : list (Tensor C))
    (s s' : DefaultTensor C R) pw :
  map_m (λ proj, w ← or_raise IndexError (wires !! idx); mret (proj, w)) group s
  = Ok pw s' →
  pw = (λ proj, (proj, default [] (wires !! idx))) <$> group ∧ s' = s.
Proof.
  revert pw s'. induction group as [|proj group IH]; intros pw s'; simpl.
  { by intros [= <- <-]. }
  intros H. apply bind_inv_Ok in H as (y & s1 & Hy & H).
  apply bind_inv_Ok in H as (ys & s2 & Hys & [= <- <-]).
  apply bind_inv_Ok in Hy as (w & s3 & Hw & [= <- <-]).
  apply or_raise_inv_Ok in Hw as [Hw ->].
  destruct (IH _ _ Hys) as [-> ->]. by rewrite Hw.
Qed.

Lemma attach_wires_groups (wires : list (list nat)) (groups : list (list (Tensor C)))
    k (s s' : DefaultTensor C R) pw :
  map_m (λ '(idx, proj_group),
           map_m (λ proj, w ← or_raise IndexError (wires !! idx); mret (proj, w))
                 proj_group)
        (imap (λ idx g, (k + idx, g)) groups) s = Ok pw s' →
  pw = imap (λ idx group, (λ proj, (proj, default [] (wires !! (k + idx)))) <$> group)
            groups
  ∧ s' = s.
Proof.
  revert k pw s'. induction groups as [|g groups IH]; intros k pw s'.
  { simpl. by intros [= <- <-]. }
  rewrite !imap_cons. simpl. intros H.
  apply bind_inv_Ok in H as (y & s1 & Hy & H).
  apply bind_inv_Ok in H as (ys & s2 & Hys & [= <- <-]).
  apply attach_wires_group in Hy as [-> ->].
  rewrite (imap_ext _ (λ idx g0, (S k + idx, g0))) in Hys
    by (intros; simpl; f_equal; lia).
  apply IH in Hys as [-> ->]. split; [| done]. f_equal.
  apply imap_ext. intros i x _. simpl. by replace (k + S i) with (S k + i) by lia.
Qed.

Lemma attach_wires_spec (wires : list (list nat)) (groups : list (list (Tensor C)))
    (s s' : DefaultTensor C R) pw :
  map_m (λ '(idx, proj_group),
           map_m (λ proj, w ← or_raise IndexError (wires !! idx); mret (proj, w))
                 proj_group)
        (imap (λ idx g, (idx, g)) groups) s = Ok pw s' →
  pw = attach_wires wires groups ∧ s' = s.
Proof. exact (attach_wires_groups wires groups 0 s s' pw). Qed.

Lemma joint_probability_keeps_shots projs (n : nat) :
  preserves (λ x : DefaultTensor C R, shots x = n) (joint_probability projs).
Proof. unfold joint_probability, reshape_operator. preserves_auto. Qed.

(** The nodes [sample] measures for one combination of projectors hold
    the projectors, reshaped; the weight is their expectation value. *)
Definition projector_tensors (projs : list (Tensor C * list nat))
    (tensors : list (Tensor C)) : Prop :=
  Forall2 (λ t pw, reshape pw.1 (replicate (length pw.2 * 2) 2) = Some t) tensors projs.

Lemma projector_nodes (projs : list (Tensor C * list nat)) (x x' : DefaultTensor C R)
    obs_nodes :
  map_m (λ '(proj, proj_wires),
           tensor ← reshape_operator proj proj_wires;
           _add_node (inl tensor) proj_wires "UnnamedNode" "observables") projs x
  = Ok obs_nodes x' →
  same_state_network x x' ∧ projector_tensors projs (node_tensor <$> obs_nodes).
Proof.
  revert x x' obs_nodes.
  induction projs as [|[proj w] projs IH]; intros x x' obs_nodes; simpl.
  { intros [= <- <-]. split; [apply same_state_network_refl | constructor]. }
  intros H. apply bind_inv_Ok in H as (node & x1 & Hnode & H).
  apply bind_inv_Ok in H as (rest & x2 & Hrest & [= <- <-]).
  apply bind_inv_Ok in Hnode as (t & x0 & Ht & Hnode).
  apply or_raise_inv_Ok in Ht as [Ht ->].
  pose proof (_add_node_observable x (inl t) w "UnnamedNode" x
                (same_state_network_refl x)) as H1.
  rewrite Hnode in H1. simpl in H1.
  destruct (IH _ _ _ Hrest) as [H2 Hts].
  split; [by eapply same_state_network_trans |].
  rewrite fmap_cons. constructor; [| done]. simpl.
  revert Hnode. unfold _add_node, tn_Node, mbind, M_bind, get, modify, mret, M_ret.
  simpl. by intros [= <- _].
Qed.

Lemma joint_probability_spec (s x x' : DefaultTensor C R) projs p :
  measures_as s x → joint_probability projs x = Ok p x' →
  measures_as s x'
  ∧ ∃ tensors, projector_tensors projs tensors
               ∧ ∀ nodes : list (Node C),
                   node_tensor <$> nodes = tensors →
                   value_of (ev nodes (projs.*2) s) = Some p.
Proof.
  intros Hs H. unfold joint_probability in H.
  apply bind_inv_Ok in H as (obs_nodes & xa & Hnodes & Hev).
  apply projector_nodes in Hnodes as [Hxa Hts].
  pose proof (measures_as_registered _ _ _ Hs Hxa) as Hsa.
  split; [by eapply measures_as_measured |].
  exists (node_tensor <$> obs_nodes). split; [done |].
  intros nodes Ht. rewrite (Hsa nodes obs_nodes (projs.*2)) by done.
  by rewrite Hev.
Qed.

Lemma joint_probabilities_spec (s x x' : DefaultTensor C R) combinations ps :
  measures_as s x → map_m joint_probability combinations x = Ok ps x' →
  Forall2 (λ p projs,
             ∃ tensors, projector_tensors projs tensors
                        ∧ ∀ nodes : list (Node C),
                            node_tensor <$> nodes = tensors →
                            value_of (ev nodes (projs.*2) s) = Some p)
          ps combinations.
Proof.
  revert x x' ps.
  induction combinations as [|projs combinations IH]; intros x x' ps Hs; simpl.
  { intros [= <- _]. constructor. }
  intros H. apply bind_inv_Ok in H as (p & x1 & Hp & H).
  apply bind_inv_Ok in H as (rest & x2 & Hrest & [= <- _]).
  destruct (joint_probability_spec _ _ _ _ _ Hs Hp) as [Hs1 Hp1].
  constructor; [done | by eapply IH].
Qed.

(** C7.  When [sample] returns on a device [s], it returns exactly
    [shots] values, each the product of one eigenvalue per observable;
    the values are drawn by [np.random.choice] from the products over
    the Cartesian product of the eigenvalues, with weights passed on as
    they are: weight [i] is the expectation value, on [s], of the
    projectors of combination [i] of the Cartesian product of the
    projectors, each reshaped and on the wires of its observable; and
    the two products are enumerated in step, so that (when every
    observable has as many projectors as eigenvalues) weight [i]
    belongs to the projectors at the places of the eigenvalues of
    outcome [i]. *)
Theorem sample_draws_joint_outcomes (rng : nat → R) (s s' : DefaultTensor C R)
    (m : measurement C) (xs : list R) :
  sample rng m s = Ok xs s' →
  ∃ matrices joint_probabilities,
    let decompositions := spectral_decomposition <$> matrices in
    let eigenvalues := decompositions.*1 in
    let projectors_with_wires := attach_wires (as_lists m).1.2 (decompositions.*2) in
    map_m (λ '(o, p), _get_operator_matrix o p) (zip (as_lists m).1.1 (as_lists m).2) s
    = Ok matrices s
    ∧ length xs = shots s
    ∧ Forall (λ x, ∃ choice, Forall2 (λ e es, e ∈ es) choice eigenvalues
                             ∧ x = r_prod choice) xs
    ∧ Forall2 (λ p projs,
                 ∃ tensors, projector_tensors projs tensors
                            ∧ ∀ nodes : list (Node C),
                                node_tensor <$> nodes = tensors →
                                value_of (ev nodes (projs.*2) s) = Some p)
              joint_probabilities (product projectors_with_wires)
    ∧ random_choice rng (r_prod <$> product eigenvalues) (shots s) joint_probabilities
      = Some xs
    ∧ (Forall2 (λ es ps, length es = length ps) eigenvalues projectors_with_wires →
       zip_with zip (product eigenvalues) (product projectors_with_wires)
       = product (zip_with zip eigenvalues projectors_with_wires)).
Proof.
  unfold sample. destruct (as_lists m) as [[observable wires] par]. simpl.
  intros H.
  assert (∀ l, stateless (S := DefaultTensor C R)
                 (map_m (λ '(o, p), _get_operator_matrix o p) l)) as Hpure.
  { intros. pose proof (_get_operator_matrix_stateless (C := C) (R := R)).
    stateless_auto. }
  apply bind_inv_Ok in H as (matrices & sm & Hm & H).
  destruct (stateless_Ok _ _ s _ _ (Hpure _) Hm) as [Hsm _]. subst sm.
  apply bind_inv_Ok in H as ([] & sw & Hw & H).
  assert (sw = s) as ->.
  { revert Hw. destruct (bool_decide _); [done | by intros [= <-]]. }
  apply bind_inv_Ok in H as (pw & sp & Hpw & H).
  apply attach_wires_spec in Hpw as [-> ->].
  apply bind_inv_Ok in H as (probs & sj & Hprobs & H).
  apply bind_inv_Ok in H as (n & sn & [= <- <-] & H).
  apply or_raise_inv_Ok in H as [Hchoice ->].
  assert (shots sj = shots s) as Hshots.
  { pose proof (preserves_map_m (λ x, shots x = shots s) joint_probability
      (product (attach_wires wires (spectral_decomposition <$> matrices).*2))) as Hf.
    specialize (Hf (λ projs, joint_probability_keeps_shots projs (shots s)) s eq_refl).
    by rewrite Hprobs in Hf. }
  rewrite Hshots in Hchoice.
  exists matrices, probs. simpl.
  destruct (random_choice_spec _ _ _ _ _ Hchoice) as (Hlen & Hin & _).
  split; [done |]. split; [done |]. split; [| split; [| split; [done |]]].
  - eapply Forall_impl; [exact Hin |]. intros x Hx.
    apply list_elem_of_fmap in Hx as (choice & -> & Hc).
    exists choice. split; [by apply elem_of_product | done].
  - eapply joint_probabilities_spec; [| exact Hprobs].
    apply measures_as_same_state_network, same_state_network_refl.
  - intros Hsame. symmetry. by apply product_zip.
Qed.
End Sampling.

(** ** The wire-edge table *)

Section WireTable.
Context {C R : Type} `{!Backend C R}.

Abbreviation Dev := (M (DefaultTensor C R)).

(** The table [_free_wire_edges] in order: it has one entry per wire;
    the entries differ from each other and hang free; in the chain
    representation entry [i] is the edge of the wire axis of chain node
    [i].  Every node identity that occurs is one that has been handed
    out. *)
Definition table_in_order (s : DefaultTensor C R) : Prop :=
  (_rep s = "exact" ∨ _rep s = "mps")
  ∧ length (_free_wire_edges s) = num_wires s
  ∧ NoDup (_free_wire_edges s)
  ∧ Forall (is_dangling (joined s)) (_free_wire_edges s)
  ∧ Forall (λ e, e_node e < next_id s) (_free_wire_edges s)
  ∧ Forall (λ c, e_node c.1 < next_id s ∧ e_node c.2 < next_id s) (joined s)
  ∧ (_rep s = "mps" →
     ∃ chain, mps s = Some chain
              ∧ Forall2 (λ e node, e_node e = node_id node ∧ e_axis e = 1)
                        (_free_wire_edges s) chain).

Lemma table_in_order_grows : grows table_in_order.
Proof.
  intros v s Hv (Hrep & Hlen & Hnd & Hd & Hf & Hj & Hm).
  repeat split; try done; simpl.
  - eapply Forall_impl; [exact Hf |]. simpl. intros; lia.
  - eapply Forall_impl; [exact Hj |]. simpl. intros; lia.
Qed.

(** *** After a preparation *)

Lemma NoDup_node_edges (node : Node C) : NoDup (node_edges node).
Proof.
  unfold node_edges. apply NoDup_fmap_2_strong; [| apply NoDup_seq].
  by intros a b _ _ [= ]. 
Qed.

Lemma node_edges_id (node : Node C) e : e ∈ node_edges node → e_node e = node_id node.
Proof. unfold node_edges. intros Hin. by apply list_elem_of_fmap in Hin as (a & -> & _). Qed.

Lemma _add_node_array (t : Tensor C) wires name key (s s' : DefaultTensor C R) node :
  _add_node (inl t) wires name key s = Ok node s' →
  node_id node = next_id s ∧ node_tensor node = t ∧ next_id s' = S (next_id s)
  ∧ _free_wire_edges s' = _free_wire_edges s ∧ joined s' = joined s
  ∧ _rep s' = _rep s ∧ num_wires s' = num_wires s ∧ mps s' = mps s.
Proof. by intros [= <- <-]. Qed.

Lemma _add_node_node (n : Node C) wires name key (s s' : DefaultTensor C R) node :
  _add_node (inr n) wires name key s = Ok node s' →
  node_id node = node_id n ∧ next_id s' = next_id s.
Proof. by intros [= <- <-]. Qed.

(** The loop of the exact representation appends the edges of one new
    node per component. *)
Lemma exact_components cs (s s' : DefaultTensor C R) :
  for_each cs add_exact_component s = Ok tt s' →
  ∃ new, _free_wire_edges s' = _free_wire_edges s ++ new
         ∧ NoDup new ∧ Forall (λ e, next_id s ≤ e_node e < next_id s') new
         ∧ length new = length (concat ((λ c, c.1.2) <$> cs))
         ∧ next_id s ≤ next_id s'
         ∧ joined s' = joined s ∧ _rep s' = _rep s ∧ num_wires s' = num_wires s.
Proof.
  revert s. induction cs as [|[[t w] nm] cs IH]; intros s; simpl.
  { intros [= <-]. exists []. rewrite app_nil_r. repeat split; by try constructor. }
  intros H. apply bind_inv_Ok in H as ([] & s1 & Hc & H).
  unfold add_exact_component in Hc.
  destruct (decide (ndim t ≠ length w)) as [|Hr]; [done |].
  apply dec_stable in Hr.
  apply bind_inv_Ok in Hc as (node & sa & Hnode & [= <-]).
  apply _add_node_array in Hnode as (Hid & Ht & Hnext & Hfree & Hj & Hrep & Hn & _).
  destruct (IH _ H) as (new & Hnew & Hnd & Hb & Hlen & Hle & Hj' & Hrep' & Hn').
  simpl in *. exists (node_edges node ++ new).
  split; [by rewrite Hnew, Hfree, <- app_assoc |].
  split; [| split; [| split; [| split; [lia | split; [congruence | split; congruence]]]]].
  - apply NoDup_app. split; [apply NoDup_node_edges | split; [| done]].
    intros e He Hin. apply node_edges_id in He.
    rewrite Forall_forall in Hb. specialize (Hb e Hin). simpl in Hb. lia.
  - apply Forall_app. split.
    + apply Forall_forall. intros e He. apply node_edges_id in He. lia.
    + eapply Forall_impl; [exact Hb |]. simpl. intros; lia.
  - rewrite !length_app, Hlen. f_equal.
    unfold node_edges. by rewrite length_fmap, length_seq, Ht.
Qed.

Lemma split_into_chain_length DV wires_seq name (s s' : DefaultTensor C R) nodes :
  split_into_chain DV wires_seq name s = Ok nodes s' →
  length nodes = length wires_seq.
Proof.
  revert DV s s' nodes.
  induction wires_seq as [|wire [|wire' rest] IH]; intros DV s s' nodes.
  - by intros [= <- _].
  - simpl. intros H. apply bind_inv_Ok in H as (node & s1 & _ & [= <- _]). done.
  - change (split_into_chain DV (wire :: wire' :: rest) name)
      with ('(U, DV') ← or_raise (OtherError "split_node") (split_node (tensor_of DV) 2);
            U ← tn_Node U "__unnamed_node__";
            DV' ← tn_Node DV' "__unnamed_node__";
            node ← _add_node (inr U) [wire] name "state";
            nodes ← split_into_chain (inr DV') (wire' :: rest) name;
            mret (node :: nodes)).
    intros H. apply bind_inv_Ok in H as ([U DV'] & s1 & _ & H).
    apply bind_inv_Ok in H as (U' & s2 & _ & H).
    apply bind_inv_Ok in H as (DV'' & s3 & _ & H).
    apply bind_inv_Ok in H as (node & s4 & _ & H).
    apply bind_inv_Ok in H as (nodes' & s5 & Hrec & [= <- _]).
    simpl. f_equal. by eapply IH.
Qed.

Lemma add_mps_component_length c (s s' : DefaultTensor C R) nodes :
  add_mps_component c s = Ok nodes s' → length nodes = length c.1.2.
Proof.
  destruct c as [[t w] nm]. unfold add_mps_component. simpl.
  destruct (decide (ndim t ≠ length w)) as [|Hr]; [done |].
  apply dec_stable in Hr.
  destruct (decide (1 :: shape t ++ [1] = [1; 2; 1])) as [Hshape|_].
  - intros H. apply bind_inv_Ok in H as (node & s1 & _ & [= <- _]).
    simpl. rewrite <- Hr. unfold ndim.
    destruct (shape t) as [|d [|d' ds]]; simpl in *; [done | done |].
    injection Hshape as _ _ Hds. by destruct ds.
  - repeat (destruct (decide _); [done |]). apply split_into_chain_length.
Qed.

Lemma mps_components cs (s s' : DefaultTensor C R) nodess :
  map_m add_mps_component cs s = Ok nodess s' →
  length (concat nodess) = length (concat ((λ c, c.1.2) <$> cs)).
Proof.
  revert s s' nodess. induction cs as [|c cs IH]; intros s s' nodess; simpl.
  { by intros [= <- _]. }
  intros H. apply bind_inv_Ok in H as (nodes & s1 & Hc & H).
  apply bind_inv_Ok in H as (rest & s2 & Hrest & [= <- _]).
  simpl. rewrite !length_app. f_equal; [by eapply add_mps_component_length | by eapply IH].
Qed.

(** The nodes of a new chain get the next identities in a row. *)
Lemma FiniteMPS_ids (nodes : list (Node C)) k (s s' : DefaultTensor C R) chain :
  map_m (λ '(n, node), tn_Node (node_tensor node) ("node" +:+ pretty n))
        (imap (λ n node, (k + n, node)) nodes) s = Ok chain s' →
  node_id <$> chain = seq (next_id s) (length nodes)
  ∧ next_id s' = next_id s + length nodes.
Proof.
  revert k s s' chain. induction nodes as [|node nodes IH]; intros k s s' chain.
  { simpl. intros [= <- <-]. split; [done | lia]. }
  rewrite imap_cons. simpl. intros H.
  apply bind_inv_Ok in H as (n0 & s1 & [= <- <-] & H).
  apply bind_inv_Ok in H as (rest & s2 & Hrest & [= <- <-]).
  rewrite (imap_ext _ (λ n node0, (S k + n, node0))) in Hrest
    by (intros; simpl; f_equal; lia).
  apply IH in Hrest as [Hids Hnext]. simpl in Hids, Hnext.
  split; [| lia]. rewrite fmap_cons, Hids. done.
Qed.

Lemma FiniteMPS_spec (nodes : list (Node C)) (s s' : DefaultTensor C R) chain :
  FiniteMPS nodes s = Ok chain s' →
  node_id <$> chain = seq (next_id s) (length nodes)
  ∧ next_id s' = next_id s + length nodes.
Proof. exact (FiniteMPS_ids nodes 0 s s' chain). Qed.

Lemma zip3_wires {A B D : Type} (a : list A) (b : list B) (c : list D) :
  length a = length b → length b = length c →
  (λ x, x.1.2) <$> zip3 a b c = b.
Proof.
  revert b c. induction a as [|x a IH]; intros [|y b] [|z c]; simpl; try done.
  intros [= Hab] [= Hbc]. f_equal. by apply IH.
Qed.

(** A preparation that returns leaves a table in order, when the wire
    groups together have one wire per wire of the device and no edges
    are joined yet. *)
Lemma prepared_table (s s' : DefaultTensor C R) tensors wires names :
  (_rep s = "exact" ∨ _rep s = "mps") → joined s = [] →
  length (concat wires) = num_wires s →
  _add_initial_state_nodes tensors wires names s = Ok tt s' →
  table_in_order s'.
Proof.
  intros Hrep Hj Hn. unfold _add_initial_state_nodes.
  destruct (decide _) as [|Hlen]; [done |]. apply dec_stable in Hlen.
  destruct Hlen as [Hl1 Hl2].
  unfold mbind at 1, M_bind at 1, gets.
  destruct (decide (_rep s = "exact")) as [Hex|Hex].
  - unfold mbind at 1, M_bind at 1, modify. intros H.
    apply exact_components in H
      as (new & Hnew & Hnd & Hb & Hlen & _ & Hj' & Hrep' & Hn').
    simpl in *. rewrite zip3_wires in Hlen by done.
    unfold table_in_order. rewrite Hnew. repeat split.
    + left. congruence.
    + congruence.
    + done.
    + rewrite Hj', Hj. apply Forall_forall. intros e _. constructor.
    + eapply Forall_impl; [exact Hb |]. simpl. intros; lia.
    + rewrite Hj', Hj. constructor.
    + intros Hmps. congruence.
  - destruct Hrep as [|Hmps]; [done |]. rewrite decide_True by done.
    intros H. apply bind_inv_Ok in H as (nodess & s1 & Hcs & H).
    apply bind_inv_Ok in H as (chain & s2 & Hchain & H).
    injection H as <-.
    pose proof (mps_components _ _ _ _ Hcs) as Hm.
    rewrite zip3_wires in Hm by done.
    pose proof (FiniteMPS_spec _ _ _ _ Hchain) as [Hids Hnext].
    pose proof (preserves_map_m
      (λ x, _rep x = _rep s ∧ num_wires x = num_wires s ∧ joined x = joined s)
      add_mps_component (zip3 tensors wires names)
      ltac:(intros; eauto with preserves) s (conj eq_refl (conj eq_refl eq_refl))) as Hf1.
    rewrite Hcs in Hf1. simpl in Hf1. destruct Hf1 as (Hr1 & Hn1 & Hj1).
    pose proof (FiniteMPS_frame
      (λ x, _rep x = _rep s ∧ num_wires x = num_wires s ∧ joined x = joined s)
      (concat nodess) ltac:(eauto with preserves) s1 (conj Hr1 (conj Hn1 Hj1))) as Hf2.
    rewrite Hchain in Hf2. simpl in Hf2. destruct Hf2 as (Hr2 & Hn2 & Hj2).
    assert (length chain = num_wires s) as Hlc.
    { rewrite <- (length_fmap node_id), Hids, length_seq. congruence. }
    assert (Forall (λ node, node_id node < next_id s2) chain) as Hbound.
    { apply Forall_forall. intros node Hin.
      assert (node_id node ∈ node_id <$> chain) as Hi by (by apply list_elem_of_fmap_2).
      rewrite Hids in Hi. apply elem_of_seq in Hi. lia. }
    repeat split; simpl.
    + right. congruence.
    + rewrite length_fmap. congruence.
    + apply (NoDup_fmap_1 e_node). rewrite <- list_fmap_compose.
      change (e_node ∘ (λ node : Node C, node_edge node 1)) with (node_id (C := C)).
      rewrite Hids. apply NoDup_seq.
    + rewrite Hj2, Hj. apply Forall_forall. intros e _. constructor.
    + apply Forall_fmap. eapply Forall_impl; [exact Hbound |]. done.
    + rewrite Hj2, Hj. constructor.
    + intros _. exists chain. split; [done |].
      apply Forall2_fmap_l. apply Forall_Forall2_diag.
      apply Forall_forall. by intros.
Qed.

Lemma length_concat_singletons (l : list nat) :
  length (concat ((λ w, [w]) <$> l)) = length l.
Proof. induction l as [|w l IH]; simpl; by f_equal. Qed.

Lemma reset_table (s s' : DefaultTensor C R) :
  (_rep s = "exact" ∨ _rep s = "mps") → reset s = Ok tt s' → table_in_order s'.
Proof.
  intros Hrep H. unfold reset in H.
  rewrite (bind_Ok _ _ _ _ _ (_clear_network_data_spec s)) in H.
  apply bind_inv_Ok in H as (n & s1 & [= <- <-] & H).
  eapply prepared_table; [| | | exact H]; simpl; [done | done |].
  by rewrite length_concat_singletons, length_seq.
Qed.

Lemma _add_state_prep_nodes_table (s s' : DefaultTensor C R) operation par :
  (_rep s = "exact" ∨ _rep s = "mps") → joined s = [] →
  _add_state_prep_nodes operation par s = Ok tt s' → table_in_order s'.
Proof.
  intros Hrep Hj. unfold _add_state_prep_nodes. intros H.
  apply bind_inv_Ok in H as (n & s1 & [= <- <-] & H).
  destruct (decide (operation = "QubitStateVector")).
  { apply bind_inv_Ok in H as (v & s1 & Hv & H).
    apply or_raise_inv_Ok in Hv as [_ ->].
    destruct (decide _); [| done].
    apply bind_inv_Ok in H as (t & s1 & Ht & H).
    apply or_raise_inv_Ok in Ht as [_ ->].
    eapply prepared_table; [| | | exact H]; [done | done |].
    simpl. by rewrite app_nil_r, length_seq. }
  destruct (decide (operation = "BasisState")); [| done].
  apply bind_inv_Ok in H as (par0 & s1 & Hp & H).
  apply or_raise_inv_Ok in Hp as [_ ->].
  destruct (shape par0) as [|len rest]; [done |].
  repeat (destruct (decide _); [done |]).
  apply bind_inv_Ok in H as (tensors & s1 & Ht & H).
  rewrite (map_m_or_raise _ (basis_entry par0 len) IndexError) in Ht
    by (intros; apply basis_tensor_entry).
  apply or_raise_inv_Ok in Ht as [_ ->].
  eapply prepared_table; [| | | exact H]; [done | done |].
  by rewrite length_concat_singletons, length_seq.
Qed.

Lemma preparation_table (s s' : DefaultTensor C R) operation wires par :
  (_rep s = "exact" ∨ _rep s = "mps") → state_preparation operation →
  apply operation wires par s = Ok tt s' → table_in_order s'.
Proof.
  intros Hrep Hop H.
  destruct (decide (wires_accepted (num_wires s) wires)) as [Hw|Hw].
  - rewrite apply_preparation_accepted in H by done.
    by eapply _add_state_prep_nodes_table; [| | exact H].
  - by rewrite apply_preparation_rejected in H.
Qed.

(** *** A gate in the exact representation *)

Lemma elem_of_insert_inv {A : Type} (l : list A) i x y :
  y ∈ <[i:=x]> l → y = x ∨ y ∈ l.
Proof.
  intros Hin. apply list_elem_of_lookup in Hin as [j Hj].
  apply list_lookup_insert_Some in Hj as [(_ & -> & _) | (_ & Hj)]; [by left |].
  right. by eapply list_elem_of_lookup_2.
Qed.

Lemma elem_of_insert_NoDup {A : Type} (l : list A) i e x y :
  NoDup l → l !! i = Some e → y ∈ <[i:=x]> l → y = x ∨ (y ∈ l ∧ y ≠ e).
Proof.
  intros Hnd He Hin. apply list_elem_of_lookup in Hin as [j Hj].
  apply list_lookup_insert_Some in Hj as [(_ & -> & _) | (Hne & Hj)]; [by left |].
  right. split; [by eapply list_elem_of_lookup_2 |].
  intros ->. apply Hne. by eapply NoDup_lookup.
Qed.

Lemma NoDup_insert_fresh {A : Type} (l : list A) i x :
  NoDup l → x ∉ l → NoDup (<[i:=x]> l).
Proof.
  intros Hnd. revert i.
  induction Hnd as [|a l Ha Hnd IH]; intros i Hx; [by destruct i; constructor |].
  apply not_elem_of_cons in Hx as [Hxa Hx].
  destruct i as [|i]; simpl; constructor; try done.
  - intros Hin. apply elem_of_insert_inv in Hin as [-> | Hin]; done.
  - by apply IH.
Qed.

Lemma is_dangling_app joined c e :
  is_dangling (joined ++ [c]) e ↔ is_dangling joined e ∧ c.1 ≠ e ∧ c.2 ≠ e.
Proof.
  unfold is_dangling. rewrite Forall_app, Forall_singleton. done.
Qed.

Lemma tn_connect_Some e1 e2 joined j :
  tn_connect e1 e2 joined = Some j →
  j = joined ++ [(e1, e2)] ∧ is_dangling joined e1 ∧ is_dangling joined e2 ∧ e1 ≠ e2.
Proof.
  unfold tn_connect. destruct (decide _) as [(H1 & H2 & H3 & _)|]; [| done].
  by intros [= <-].
Qed.

(** While the loop of [_add_gate_nodes] runs: the state before wire
    [i] of a gate on [k] wires whose node has the identity [id]. *)
Definition placed (id i : nat) (e : Edge) : Prop :=
  e_node e < id ∨ (e_node e = id ∧ e_axis e < i).

Definition low (id k i : nat) (e : Edge) : Prop :=
  e_node e < id ∨ (e_node e = id ∧ (e_axis e < i ∨ k ≤ e_axis e < k + i)).

Definition connecting (id k i : nat) (x : DefaultTensor C R) : Prop :=
  NoDup (_free_wire_edges x)
  ∧ Forall (is_dangling (joined x)) (_free_wire_edges x)
  ∧ Forall (placed id i) (_free_wire_edges x)
  ∧ Forall (λ c, low id k i c.1 ∧ low id k i c.2) (joined x).

(** The attributes a gate does not assign once its node is made. *)
Definition same_device (x x' : DefaultTensor C R) : Prop :=
  _rep x' = _rep x ∧ num_wires x' = num_wires x ∧ next_id x' = next_id x
  ∧ mps x' = mps x.

Lemma connect_gate_wire_step (op : Node C) k i w (x x' : DefaultTensor C R) :
  i < k → connecting (node_id op) k i x →
  connect_gate_wire op k (i, w) x = Ok tt x' →
  connecting (node_id op) k (S i) x'
  ∧ w < length (_free_wire_edges x)
  ∧ _free_wire_edges x' = <[w := node_edge op i]> (_free_wire_edges x)
  ∧ same_device x x'.
Proof.
  intros Hi (Hnd & Hd & Hp & Hl). unfold connect_gate_wire. intros H.
  apply bind_inv_Ok in H as (x0 & x1 & [= <- <-] & H).
  apply bind_inv_Ok in H as (e & x1 & He & H).
  apply or_raise_inv_Ok in He as [He ->].
  apply bind_inv_Ok in H as (j & x1 & Hj & H).
  apply or_raise_inv_Ok in Hj as [Hj ->].
  injection H as <-. simpl.
  apply tn_connect_Some in Hj as (-> & Hd1 & Hd2 & Hne).
  pose proof (lookup_lt_Some _ _ _ He) as Hw.
  assert (placed (node_id op) i e) as Hpe.
  { rewrite Forall_forall in Hp. apply Hp. by eapply list_elem_of_lookup_2. }
  assert (∀ e', placed (node_id op) i e' → e' ≠ node_edge op i
                                         ∧ e' ≠ node_edge op (k + i)) as Hfresh.
  { intros e' [He' | [He1 He2]]; split; intros ->; simpl in *; lia. }
  assert (is_dangling (joined x) (node_edge op i)) as Hdi.
  { unfold is_dangling. eapply Forall_impl; [exact Hl |].
    intros c [H1 H2]. split; intros Heq; rewrite Heq in *;
      [destruct H1 as [H1 | [_ H1]] | destruct H2 as [H2 | [_ H2]]]; simpl in *; lia. }
  split; [| by repeat split].
  unfold connecting. simpl. repeat split.
  - apply NoDup_insert_fresh; [done |].
    intros Hin. rewrite Forall_forall in Hp. by destruct (Hfresh _ (Hp _ Hin)).
  - apply Forall_forall. intros e' Hin.
    apply is_dangling_app. simpl.
    destruct (elem_of_insert_NoDup _ _ e _ _ Hnd He Hin) as [-> | [Hin' Hne']].
    + split; [done |]. split; [simpl; intros [= ?]; lia |].
      intros ->. by destruct (Hfresh _ Hpe).
    + rewrite Forall_forall in Hd, Hp.
      split; [by apply Hd |]. split; [| done].
      intros <-. by destruct (Hfresh _ (Hp _ Hin')).
  - apply Forall_insert.
    + eapply Forall_impl; [exact Hp |]. intros e' [? | [? ?]]; [by left | right; lia].
    + right. simpl. lia.
  - apply Forall_app. split.
    + eapply Forall_impl; [exact Hl |].
      assert (∀ e', low (node_id op) k i e' → low (node_id op) k (S i) e') as Hmono.
      { intros e' [? | [? [? | ?]]]; [by left | right; lia | right; lia]. }
      intros c [H1 H2]. split; by apply Hmono.
    + apply Forall_singleton. simpl. split.
      * right. simpl. lia.
      * destruct Hpe as [? | [? ?]]; [by left | right; lia].
Qed.

Lemma connect_gate_loop (op : Node C) k ws i (x x' : DefaultTensor C R) :
  i + length ws ≤ k → connecting (node_id op) k i x →
  for_each (imap (λ idx w, (i + idx, w)) ws) (connect_gate_wire op k) x = Ok tt x' →
  connecting (node_id op) k (i + length ws) x' ∧ same_device x x'
  ∧ length (_free_wire_edges x') = length (_free_wire_edges x)
  ∧ (∀ w, w ∉ ws → _free_wire_edges x' !! w = _free_wire_edges x !! w)
  ∧ (∀ w, w ∈ ws → ∃ a, a < k ∧ _free_wire_edges x' !! w = Some (node_edge op a)).
Proof.
  revert i x. induction ws as [|w ws IH]; intros i x Hk Hc.
  { simpl. intros [= <-]. rewrite Nat.add_0_r.
    split; [done |]. split; [by repeat split |]. split; [done |]. split; [done |].
    intros w Hw. by apply elem_of_nil in Hw. }
  rewrite imap_cons. simpl in Hk |- *. rewrite Nat.add_0_r.
  rewrite (imap_ext _ (λ idx w0, (S i + idx, w0))) by (intros; simpl; f_equal; lia).
  intros H. apply bind_inv_Ok in H as ([] & x1 & Hstep & H).
  apply connect_gate_wire_step in Hstep as (Hc1 & Hw & Hfree & Hsame); [| lia | done].
  apply IH in H as (Hc' & Hsame' & Hlen & Hother & Hnew); [| lia | done].
  replace (i + S (length ws)) with (S i + length ws) by lia.
  split; [done |]. split; [| split; [| split]].
  - destruct Hsame as (?&?&?&?), Hsame' as (?&?&?&?). repeat split; congruence.
  - by rewrite Hlen, Hfree, length_insert.
  - intros w' Hw'. apply not_elem_of_cons in Hw' as [Hne Hw'].
    rewrite Hother, Hfree by done. by apply list_lookup_insert_ne.
  - intros w' Hw'. destruct (decide (w' ∈ ws)) as [Hin|Hin]; [by apply Hnew |].
    apply elem_of_cons in Hw' as [-> | Hw']; [| done].
    exists i. split; [lia |].
    rewrite Hother, Hfree by done. by apply list_lookup_insert_eq.
Qed.

(** The way into [_add_gate_nodes]: the matrix, its reshape, and the
    node of the gate. *)
Lemma _add_gate_nodes_Ok (s s' : DefaultTensor C R) operation wires par :
  _add_gate_nodes operation wires par s = Ok tt s' →
  ∃ ws op_node s1,
    wires = Some ws ∧ node_id op_node = next_id s ∧ next_id s1 = S (next_id s)
    ∧ _free_wire_edges s1 = _free_wire_edges s ∧ joined s1 = joined s
    ∧ _rep s1 = _rep s ∧ num_wires s1 = num_wires s ∧ mps s1 = mps s
    ∧ (if decide (_rep s = "exact") then
         for_each (imap (λ idx w, (idx, w)) ws) (connect_gate_wire op_node (length ws))
       else if decide (_rep s = "mps") then
         match ws with
         | [wire] => apply_one_site_gate op_node wire;; refresh_free_wire_edge wire
         | [w0; w1] =>
             if decide (w1 - w0 = 1 ∨ w0 - w1 = 1) then
               apply_two_site_gate op_node w0 w1;; for_each ws refresh_free_wire_edge
             else raise (NotImplementedError nearest_neighbour_gates)
         | _ => raise (NotImplementedError nearest_neighbour_gates)
         end
       else mret tt) s1 = Ok tt s'.
Proof.
  unfold _add_gate_nodes. intros H.
  apply bind_inv_Ok in H as (A & sa & HA & H).
  destruct (stateless_Ok _ _ s _ _ (_get_operator_matrix_stateless _ _) HA) as [Hsa _].
  subst sa.
  apply bind_inv_Ok in H as (ws & sb & Hws & H).
  apply or_raise_inv_Ok in Hws as [-> ->].
  apply bind_inv_Ok in H as (A' & sc & HA' & H).
  apply or_raise_inv_Ok in HA' as [_ ->].
  apply bind_inv_Ok in H as (op_node & s1 & Hnode & H).
  apply bind_inv_Ok in H as (rep & sd & [= <- <-] & H).
  apply _add_node_array in Hnode as (Hid & _ & Hnext & Hfree & Hj & Hrep & Hn & Hm).
  exists ws, op_node, s1. rewrite Hrep in H. by repeat split.
Qed.

Lemma gate_table_exact (s s' : DefaultTensor C R) operation wires par :
  table_in_order s → _rep s = "exact" →
  _add_gate_nodes operation wires par s = Ok tt s' →
  ∃ ws, wires = Some ws ∧ table_in_order s'
        ∧ (∀ w, w ∉ ws → _free_wire_edges s' !! w = _free_wire_edges s !! w)
        ∧ (∀ w, w ∈ ws → ∃ e, _free_wire_edges s' !! w = Some e
                              ∧ e ∉ _free_wire_edges s).
Proof.
  intros (Hrep & Hlen & Hnd & Hd & Hf & Hj & Hm) Hex H.
  apply _add_gate_nodes_Ok in H
    as (ws & op & s1 & -> & Hid & Hnext & Hfree & Hjoin & Hr & Hn & _ & H).
  rewrite decide_True in H by done.
  apply (connect_gate_loop op (length ws) ws 0) in H
    as ((Hnd' & Hd' & Hp' & Hl') & (Hr' & Hn' & Hnext' & _) & Hlen' & Hother & Hnew);
    [| done |].
  2: { unfold connecting. rewrite Hfree, Hjoin, Hid. repeat split; try done.
       - eapply Forall_impl; [exact Hf |]. intros e He. by left.
       - eapply Forall_impl; [exact Hj |]. intros c [H1 H2]. split; by left. }
  exists ws. split; [done |]. split; [| split].
  - unfold table_in_order. repeat split; try done.
    + left. congruence.
    + congruence.
    + eapply Forall_impl; [exact Hp' |]. intros e [? | [? ?]]; lia.
    + eapply Forall_impl; [exact Hl' |].
      intros c [[? | [? ?]] [? | [? ?]]]; lia.
    + intros Hmps. congruence.
  - intros w Hw. rewrite Hother by done. by rewrite Hfree.
  - intros w Hw. destruct (Hnew w Hw) as (a & _ & Ha). eexists. split; [done |].
    intros Hin. rewrite Forall_forall in Hf. specialize (Hf _ Hin). simpl in Hf. lia.
Qed.

(** *** A gate in the chain representation *)

(** A chain node replaced by a new one, and its table entry with it. *)
Lemma chain_replace (x : DefaultTensor C R) chain w (new : Node C) :
  table_in_order x → mps x = Some chain → node_id new = next_id x →
  table_in_order
    (set_free_wire_edges (<[w := node_edge new 1]> (_free_wire_edges x))
       (set_mps (Some (<[w := new]> chain)) (set_next_id (S (next_id x)) x))).
Proof.
  intros (Hrep & Hlen & Hnd & Hd & Hf & Hj & Hm) Hchain Hid.
  unfold table_in_order. simpl. repeat split.
  - done.
  - by rewrite length_insert.
  - apply NoDup_insert_fresh; [done |]. intros Hin.
    rewrite Forall_forall in Hf. specialize (Hf _ Hin). simpl in Hf. lia.
  - apply Forall_insert; [done |].
    unfold is_dangling. eapply Forall_impl; [exact Hj |].
    intros c [H1 H2]. split; intros Heq; rewrite Heq in *; simpl in *; lia.
  - apply Forall_insert; [| simpl; lia].
    eapply Forall_impl; [exact Hf |]. simpl. intros; lia.
  - eapply Forall_impl; [exact Hj |]. simpl. intros; lia.
  - intros Hmps. destruct (Hm Hmps) as (chain0 & Hc0 & Hrel).
    rewrite Hchain in Hc0. injection Hc0 as <-.
    eexists. split; [done |]. by apply Forall2_insert.
Qed.

Lemma apply_one_site_gate_Ok (gate : Node C) site (x x' : DefaultTensor C R) :
  apply_one_site_gate gate site x = Ok tt x' →
  ∃ chain old new,
    mps x = Some chain ∧ chain !! site = Some old ∧ node_id new = next_id x
    ∧ x' = set_mps (Some (<[site := new]> chain)) (set_next_id (S (next_id x)) x).
Proof.
  unfold apply_one_site_gate. intros H.
  apply bind_inv_Ok in H as (c & x1 & [= <- <-] & H).
  apply bind_inv_Ok in H as (chain & x1 & Hc & H).
  apply or_raise_inv_Ok in Hc as [Hc ->].
  apply bind_inv_Ok in H as (old & x1 & Hold & H).
  apply or_raise_inv_Ok in Hold as [Hold ->].
  apply bind_inv_Ok in H as (t & x1 & Ht & H).
  apply or_raise_inv_Ok in Ht as [_ ->].
  apply bind_inv_Ok in H as (new & x1 & [= <- <-] & [= <-]).
  eexists chain, old, _. repeat split; done.
Qed.

Lemma apply_two_site_gate_Ok (gate : Node C) site1 site2 (x x' : DefaultTensor C R) :
  apply_two_site_gate gate site1 site2 x = Ok tt x' →
  ∃ chain new1 new2,
    mps x = Some chain ∧ site2 = site1 + 1 ∧ site2 < length chain
    ∧ node_id new1 = next_id x ∧ node_id new2 = S (next_id x)
    ∧ x' = set_mps (Some (<[site2 := new2]> (<[site1 := new1]> chain)))
             (set_next_id (S (S (next_id x))) x).
Proof.
  unfold apply_two_site_gate. intros H.
  apply bind_inv_Ok in H as (c & x1 & [= <- <-] & H).
  apply bind_inv_Ok in H as (chain & x1 & Hc & H).
  apply or_raise_inv_Ok in Hc as [Hc ->].
  destruct (decide _) as [|Hok]; [done |].
  apply bind_inv_Ok in H as (left & x1 & Hl & H).
  apply or_raise_inv_Ok in Hl as [Hl ->].
  apply bind_inv_Ok in H as (right & x1 & Hr & H).
  apply or_raise_inv_Ok in Hr as [Hr ->].
  apply bind_inv_Ok in H as ([t1 t2] & x1 & Ht & H).
  apply or_raise_inv_Ok in Ht as [_ ->].
  apply bind_inv_Ok in H as (new1 & x1 & [= <- <-] & H).
  apply bind_inv_Ok in H as (new2 & x2 & [= <- <-] & [= <-]).
  eexists chain, _, _. repeat split; try done.
  - destruct (decide (site2 = site1 + 1)); [done |]. exfalso. apply Hok. by right.
  - by eapply lookup_lt_Some.
Qed.

Lemma refresh_free_wire_edge_Ok wire (x x' : DefaultTensor C R) :
  refresh_free_wire_edge wire x = Ok tt x' →
  ∃ chain node,
    mps x = Some chain ∧ chain !! wire = Some node
    ∧ x' = set_free_wire_edges (<[wire := node_edge node 1]> (_free_wire_edges x)) x.
Proof.
  unfold refresh_free_wire_edge. intros H.
  apply bind_inv_Ok in H as (c & x1 & [= <- <-] & H).
  apply bind_inv_Ok in H as (chain & x1 & Hc & H).
  apply or_raise_inv_Ok in Hc as [Hc ->].
  apply bind_inv_Ok in H as (node & x1 & Hn & H).
  apply or_raise_inv_Ok in Hn as [Hn ->].
  destruct (decide _); [| done]. injection H as <-.
  by exists chain, node.
Qed.

Lemma gate_table_mps (s s' : DefaultTensor C R) operation wires par :
  table_in_order s → _rep s = "mps" →
  _add_gate_nodes operation wires par s = Ok tt s' →
  ∃ ws, wires = Some ws ∧ table_in_order s'
        ∧ (∀ w, w ∉ ws → _free_wire_edges s' !! w = _free_wire_edges s !! w)
        ∧ (∀ w, w ∈ ws → ∃ e, _free_wire_edges s' !! w = Some e
                              ∧ e ∉ _free_wire_edges s).
Proof.
  intros Hs Hmps H.
  apply _add_gate_nodes_Ok in H
    as (ws & op & s1 & -> & Hid & Hnext & Hfree & Hjoin & Hr & Hn & Hm & H).
  rewrite decide_False, decide_True in H by (done || by rewrite Hmps).
  assert (table_in_order s1) as Hs1.
  { destruct Hs as (Hrep & Hlen & Hnd & Hd & Hf & Hj & Hchain).
    unfold table_in_order. rewrite Hfree, Hjoin, Hr, Hn, Hnext, Hm.
    repeat split; try done.
    - eapply Forall_impl; [exact Hf |]. simpl. intros; lia.
    - eapply Forall_impl; [exact Hj |]. simpl. intros; lia. }
  assert (∀ e : Edge, next_id s ≤ e_node e → e ∉ _free_wire_edges s) as Hfresh.
  { intros e He Hin. destruct Hs as (_ & _ & _ & _ & Hf & _).
    rewrite Forall_forall in Hf. specialize (Hf _ Hin). simpl in Hf. lia. }
  assert (length (_free_wire_edges s1) = num_wires s1) as Hlen1 by apply Hs1.
  exists ws. split; [done |].
  destruct ws as [|w0 [|w1 [|w2 ws]]]; try done.
  - apply bind_inv_Ok in H as ([] & x2 & H1 & H2).
    apply apply_one_site_gate_Ok in H1 as (chain & old & new & Hc & Hold & Hnew & ->).
    apply refresh_free_wire_edge_Ok in H2 as (chain' & node & [= <-] & Hnode & ->).
    pose proof (lookup_lt_Some _ _ _ Hold) as Hlt.
    rewrite list_lookup_insert_eq in Hnode by done. injection Hnode as <-.
    split; [| split].
    + by apply (chain_replace s1 chain w0 new).
    + intros w Hw. apply not_elem_of_cons in Hw as [Hne _]. simpl.
      rewrite list_lookup_insert_ne by done. by rewrite Hfree.
    + intros w Hw. apply list_elem_of_singleton in Hw as ->. simpl.
      exists (node_edge new 1). split.
      * apply list_lookup_insert_eq.
        destruct Hs1 as (_ & _ & _ & _ & _ & _ & Hrel).
        destruct (Hrel ltac:(congruence)) as (chain0 & Hc0 & Hrel0).
        apply Forall2_length in Hrel0. congruence.
      * apply Hfresh. simpl. lia.
  - destruct (decide _) as [Hadj|]; [| done].
    apply bind_inv_Ok in H as ([] & x2 & H1 & H2).
    apply apply_two_site_gate_Ok in H1
      as (chain & new1 & new2 & Hc & -> & Hlt & Hnew1 & Hnew2 & ->).
    simpl in H2.
    apply bind_inv_Ok in H2 as ([] & x3 & H2 & H3).
    apply bind_inv_Ok in H3 as ([] & x4 & H3 & [= <-]).
    apply refresh_free_wire_edge_Ok in H2 as (chain' & n0 & [= <-] & Hn0 & ->).
    apply refresh_free_wire_edge_Ok in H3 as (chain'' & n1 & [= <-] & Hn1 & ->).
    rewrite list_lookup_insert_ne in Hn0 by lia.
    rewrite list_lookup_insert_eq in Hn0 by lia. injection Hn0 as <-.
    rewrite list_lookup_insert_eq in Hn1 by (rewrite length_insert; lia).
    injection Hn1 as <-.
    assert (length (_free_wire_edges s1) = length chain) as Hlc.
    { destruct Hs1 as (_ & _ & _ & _ & _ & _ & Hrel).
      destruct (Hrel ltac:(congruence)) as (chain0 & Hc0 & Hrel0).
      apply Forall2_length in Hrel0. congruence. }
    split; [| split].
    + pose proof (chain_replace s1 chain w0 new1 Hs1 Hc Hnew1) as Hy1.
      by apply (chain_replace _ (<[w0 := new1]> chain) (w0 + 1) new2 Hy1).
    + intros w Hw. apply not_elem_of_cons in Hw as [Hne0 Hw].
      apply not_elem_of_cons in Hw as [Hne1 _]. simpl.
      rewrite !list_lookup_insert_ne by done. by rewrite Hfree.
    + intros w Hw. simpl.
      apply elem_of_cons in Hw as [-> | Hw].
      * exists (node_edge new1 1). split; [| apply Hfresh; simpl; lia].
        rewrite list_lookup_insert_ne by lia. apply list_lookup_insert_eq. lia.
      * apply list_elem_of_singleton in Hw as ->.
        exists (node_edge new2 1). split; [| apply Hfresh; simpl; lia].
        apply list_lookup_insert_eq. rewrite length_insert. lia.
Qed.

(** *** The table across the life of a device *)

Lemma apply_num_wires (s : DefaultTensor C R) operation wires par :
  num_wires (state_of (apply operation wires par s)) = num_wires s.
Proof.
  assert (preserves (λ x, num_wires x = num_wires s) (apply operation wires par))
    as H; [| by apply H].
  assert (grows (λ x : DefaultTensor C R, num_wires x = num_wires s)) by (by intros ???).
  assert (ignores set_nodes (λ x : DefaultTensor C R, num_wires x = num_wires s))
    by (by intros ??).
  assert (ignores set_free_wire_edges (λ x : DefaultTensor C R, num_wires x = num_wires s))
    by (by intros ??).
  assert (ignores set_mps (λ x : DefaultTensor C R, num_wires x = num_wires s))
    by (by intros ??).
  assert (ignores set_contracted_state_node
            (λ x : DefaultTensor C R, num_wires x = num_wires s)) by (by intros ??).
  assert (ignores set_joined (λ x : DefaultTensor C R, num_wires x = num_wires s))
    by (by intros ??).
  unfold apply. destruct (decide _); preserves_auto.
Qed.

#[global] Instance is_dangling_dec joined e : Decision (is_dangling joined e).
Proof. unfold is_dangling. apply _. Defined.

#[global] Instance table_in_order_dec (s : DefaultTensor C R) : Decision (table_in_order s).
Proof.
  unfold table_in_order.
  assert (Decision (_rep s = "mps" →
            ∃ chain, mps s = Some chain
                     ∧ Forall2 (λ e (node : Node C), e_node e = node_id node ∧ e_axis e = 1)
                               (_free_wire_edges s) chain)) as Hchain.
  { destruct (decide (_rep s = "mps")) as [Hm|Hm]; [| by left].
    destruct (mps s) as [chain|].
    - destruct (decide (Forall2 (λ e (node : Node C),
                                   e_node e = node_id node ∧ e_axis e = 1)
                                (_free_wire_edges s) chain)) as [H|H].
      + left. intros _. by exists chain.
      + right. intros H'. destruct (H' Hm) as (c & [= <-] & Hc). by apply H.
    - right. intros H'. by destruct (H' Hm) as (c & [=] & _). }
  apply _.
Defined.

End WireTable.

(** ** The methods run on devices over the Gaussian integers *)

Import GaussianIntegers.

(** C1: the contracted state is not recomputed after a gate.  On a
    device of one wire in the exact representation, [_state] returns the
    ket of 0; [apply("PauliX", [0], [])] then succeeds and leaves the
    cache as it is; the next [_state] returns the ket of 0 again, the
    cached tensor of before the gate, and the expectation of PauliZ
    returns nothing: it raises, below the device, on the edge of the
    cached node that the gate is joined to.  The same gate on the device
    that has not been read gives the ket of 1 and the expectation -1. *)
Theorem state_read_after_gate_is_stale :
  ∃ s1 s2 s3 gated,
    _state one_wire = Ok ket_0 s1
    ∧ apply "PauliX" (Some [0]) [] s1 = Ok tt s2
    ∧ _contracted_state_node s2 = _contracted_state_node s1
    ∧ _state s2 = Ok ket_0 s3
    ∧ raised (expval (PauliZ_on 0) s2) = Some (OtherError "connect")
    ∧ apply "PauliX" (Some [0]) [] one_wire = Ok tt gated
    ∧ value_of (_state gated) = Some ket_1
    ∧ value_of (expval (PauliZ_on 0) gated) = Some (-1)%Z.
Proof.
  eexists _, _, _, _.
  split; [vm_compute; reflexivity |].
  split; [vm_compute; reflexivity |].
  split; [vm_compute; reflexivity |].
  split; [vm_compute; reflexivity |].
  split; [vm_compute; reflexivity |].
  split; [vm_compute; reflexivity |].
  split; vm_compute; reflexivity.
Qed.

(** A device of two wires and seven shots with the method ["bogus"]. *)
Lemma constructor_accepts_unknown_contraction_method_witness :
  ∃ s, __init__ 2 7 "exact" "bogus" = Ok tt s
       ∧ _contraction_method s = "bogus"
       ∧ _state s = Raise (KeyError "bogus") s.
Proof.
  assert (0 < 7) as Hshots by lia.
  exact (proj2 (proj2 (constructor_accepts_unknown_contraction_method
                         (C := Cz) (R := Z) one_wire 2 7 Hshots))).
Defined.

(** An [apply] that is refused can leave the device changed.  A
    [BasisState] with an entry 2 on all wires raises the ValueError on
    its parameter after the wire-edge table and the registry of nodes
    are emptied; a [QubitStateVector] of length 3 on one wire raises the
    ValueError on the length after the cache and the table are emptied;
    and a CNOT on wires 0 and 2 of a chain of three raises the
    NotImplementedError with a fourth node in the registry. *)
Lemma rejected_apply_changes_the_device :
  (∃ s',
     apply "BasisState" (Some [0]) [mkTensor [1] [(2, 0)%Z]] one_wire
     = Raise (ValueError basis_state_parameter) s'
     ∧ taxonomy (ValueError basis_state_parameter) = Some InvalidWires
     ∧ _free_wire_edges one_wire ≠ [] ∧ _free_wire_edges s' = []
     ∧ _nodes one_wire ≠ ∅ ∧ _nodes s' = ∅)
  ∧ (∃ s1 s',
     _state one_wire = Ok ket_0 s1
     ∧ apply "QubitStateVector" (Some [0]) [mkTensor [3] [(1, 0); (0, 0); (0, 0)]%Z] s1
       = Raise (ValueError state_vector_length) s'
     ∧ taxonomy (ValueError state_vector_length) = Some ShapeMismatch
     ∧ _contracted_state_node s1 ≠ None ∧ _contracted_state_node s' = None
     ∧ _free_wire_edges s1 ≠ [] ∧ _free_wire_edges s' = [])
  ∧ (∃ s',
     apply "CNOT" (Some [0; 2]) [] chain_of_three
     = Raise (NotImplementedError nearest_neighbour_gates) s'
     ∧ taxonomy (NotImplementedError nearest_neighbour_gates) = Some NotSupported
     ∧ length (default [] (_nodes chain_of_three !! "state")) = 3
     ∧ length (default [] (_nodes s' !! "state")) = 4).
Proof.
  split; [| split].
  - eexists. split; [vm_compute; reflexivity |].
    split; [reflexivity |]. split; [vm_compute; discriminate |].
    split; [reflexivity |]. split; [vm_compute; discriminate | reflexivity].
  - eexists _, _. split; [vm_compute; reflexivity |].
    split; [vm_compute; reflexivity |].
    split; [reflexivity |]. split; [vm_compute; discriminate |].
    split; [reflexivity |]. split; [vm_compute; discriminate | reflexivity].
  - eexists. split; [vm_compute; reflexivity |].
    split; [reflexivity |]. split; vm_compute; reflexivity.
Qed.

(** The refusal of a CNOT on wires 0 and 2 of a chain of three. *)
Lemma apply_rejected_witness :
  apply "CNOT" (Some [0; 2]) [] chain_of_three
  = Raise (NotImplementedError nearest_neighbour_gates)
      (state_of (apply "CNOT" (Some [0; 2]) [] chain_of_three))
  ∧ _free_wire_edges (state_of (apply "CNOT" (Some [0; 2]) [] chain_of_three))
    = _free_wire_edges chain_of_three
  ∧ value_of (_state (state_of (apply "CNOT" (Some [0; 2]) [] chain_of_three)))
    = value_of (_state chain_of_three).
Proof.
  assert (apply "CNOT" (Some [0; 2]) [] chain_of_three
          = Raise (NotImplementedError nearest_neighbour_gates)
              (state_of (apply "CNOT" (Some [0; 2]) [] chain_of_three))) as H
    by (vm_compute; reflexivity).
  split; [exact H |].
  destruct (apply_rejected _ _ _ _ _ _ H) as (_ & Hgate & _).
  destruct (Hgate eq_refl) as (Hfree & _ & _ & _ & Hstate & _).
  split; [exact Hfree | exact Hstate].
Defined.

(** The expectation of PauliZ on wire 1, read twice. *)
Lemma expval_is_idempotent_witness :
  expval (PauliZ_on 1) two_wires_flipped
  = Ok (-1)%Z (state_of (expval (PauliZ_on 1) two_wires_flipped))
  ∧ ∃ s2, expval (PauliZ_on 1) (state_of (expval (PauliZ_on 1) two_wires_flipped))
          = Ok (-1)%Z s2
          ∧ _contracted_state_node s2
            = _contracted_state_node (state_of (expval (PauliZ_on 1) two_wires_flipped)).
Proof.
  assert (expval (PauliZ_on 1) two_wires_flipped
          = Ok (-1)%Z (state_of (expval (PauliZ_on 1) two_wires_flipped))) as H
    by (vm_compute; reflexivity).
  split; [exact H |].
  destruct (expval_is_idempotent two_wires_flipped
              (state_of (expval (PauliZ_on 1) two_wires_flipped))
              (PauliZ_on 1) (-1)%Z H) as (s2 & H2 & Hc & _).
  exists s2. exact (conj H2 Hc).
Defined.

(** A state preparation is let through with the wire list [[]], and
    with no wire list, which are not the list of all wires. *)
Lemma state_preparation_on_no_wires :
  (Some [] : option (list nat)) ≠ Some (seq 0 (num_wires two_wires))
  ∧ (∃ s', apply "BasisState" (Some []) [mkTensor [2] [(1, 0); (1, 0)]%Z] two_wires
           = Ok tt s'
           ∧ value_of (_state s') = Some (mkTensor [2; 2] [(0, 0); (0, 0); (0, 0); (1, 0)]%Z))
  ∧ (∃ s', apply "QubitStateVector" None
             [mkTensor [4] [(0, 0); (0, 0); (0, 0); (1, 0)]%Z] two_wires
           = Ok tt s').
Proof.
  split; [done |]. split.
  - eexists. split; vm_compute; reflexivity.
  - eexists. vm_compute; reflexivity.
Qed.

(** [BasisState] on the wires [[1, 0]] and on the wires [[0, 1]]. *)
Lemma state_preparation_wires_witness :
  state_preparation "BasisState"
  ∧ apply "BasisState" (Some [1; 0]) [mkTensor [2] [(1, 0); (1, 0)]%Z] two_wires
    = Raise (ValueError only_all_wires) two_wires
  ∧ apply "BasisState" (Some [0; 1]) [mkTensor [2] [(1, 0); (1, 0)]%Z] two_wires
    = _add_state_prep_nodes "BasisState" [mkTensor [2] [(1, 0); (1, 0)]%Z]
        (cleared two_wires).
Proof.
  assert (state_preparation "BasisState") as Hop by (right; reflexivity).
  split; [exact Hop |]. split.
  - apply (state_preparation_wires two_wires "BasisState" (Some [1; 0]) _ Hop).
    intros [H | [H | H]]; vm_compute in H; discriminate.
  - apply (state_preparation_wires two_wires "BasisState" (Some [0; 1]) _ Hop).
    right; right; vm_compute; reflexivity.
Defined.

(** Three shots of PauliZ on wire 1 of the state with both wires at 1:
    the weights are 1 for the eigenvalue -1 and 0 for the eigenvalue 1. *)
Lemma sample_draws_joint_outcomes_witness :
  sample (λ _, 0%Z) (PauliZ_on 1) two_wires_flipped
  = Ok [-1; -1; -1]%Z (state_of (sample (λ _, 0%Z) (PauliZ_on 1) two_wires_flipped))
  ∧ length [-1; -1; -1]%Z = shots two_wires_flipped.
Proof.
  assert (sample (λ _, 0%Z) (PauliZ_on 1) two_wires_flipped
          = Ok [-1; -1; -1]%Z
              (state_of (sample (λ _, 0%Z) (PauliZ_on 1) two_wires_flipped))) as H
    by (vm_compute; reflexivity).
  split; [exact H |].
  destruct (sample_draws_joint_outcomes (λ _, 0%Z) two_wires_flipped
              (state_of (sample (λ _, 0%Z) (PauliZ_on 1) two_wires_flipped))
              (PauliZ_on 1) [-1; -1; -1]%Z H)
    as (matrices & joint_probabilities & _ & Hlen & _).
  exact Hlen.
Defined.

(** The variance of PauliX on a wire at 0: the square of the matrix is
    the identity, with expectation 1, and the expectation of PauliX is
    0. *)
Lemma var_is_expectation_of_square_minus_square_witness :
  var (one_observable "PauliX" [0] []) one_wire
  = Ok 1%Z (state_of (var (one_observable "PauliX" [0] []) one_wire))
  ∧ ∃ e2 e1,
      value_of (expval (one_observable "PauliX" [0] []) one_wire) = Some e1
      ∧ 1%Z = r_sub e2 (r_mul e1 e1).
Proof.
  assert (var (one_observable "PauliX" [0] []) one_wire
          = Ok 1%Z (state_of (var (one_observable "PauliX" [0] []) one_wire))) as H
    by (vm_compute; reflexivity).
  split; [exact H |].
  destruct (var_is_expectation_of_square_minus_square one_wire
              (state_of (var (one_observable "PauliX" [0] []) one_wire))
              (one_observable "PauliX" [0] []) 1%Z H)
    as (matrices & squares & e2 & e1 & _ & _ & _ & He1 & Hv).
  exists e2, e1. exact (conj He1 Hv).
Defined.

(** A matrix as the component for one wire, and a state vector of
    length 3 for two wires. *)
Lemma preparation_rejects_shapes_witness :
  _rep two_wires = "exact"
  ∧ (∃ s1, _add_initial_state_nodes [I2] [[0]] ["QubitStateVector"] two_wires
           = Raise (ValueError incompatible_shape) s1)
  ∧ apply "QubitStateVector" (Some [0; 1]) [mkTensor [3] [(1, 0); (0, 0); (0, 0)]%Z]
      two_wires
    = Raise (ValueError state_vector_length) (cleared two_wires).
Proof.
  assert (_rep two_wires = "exact") as Hrep by (vm_compute; reflexivity).
  split; [exact Hrep |].
  destruct (preparation_rejects_shapes two_wires
              [I2] [[0]] ["QubitStateVector"] 0 I2 [0]
              (mkTensor [3] [(1, 0); (0, 0); (0, 0)]%Z) [] (Some [0; 1]))
    as (Hexact & _ & _ & Hvector & _).
  - reflexivity.
  - reflexivity.
  - reflexivity.
  - reflexivity.
  - vm_compute. discriminate.
  - intros j t' w' Hj. lia.
  - right. right. vm_compute. reflexivity.
  - vm_compute. discriminate.
  - destruct (Hexact Hrep) as (s1 & _ & Hs1).
    split; [exists s1; exact Hs1 | exact Hvector].
Defined.

(** A [BasisState] of length 1 for two wires. *)
Lemma basis_state_shorter_than_wires_witness :
  bits (mkTensor [1] [(1, 0)%Z]) 1
  ∧ apply "BasisState" (Some [0; 1]) [mkTensor [1] [(1, 0)%Z]] two_wires
    = Raise IndexError (cleared two_wires)
  ∧ taxonomy IndexError = None.
Proof.
  assert (bits (mkTensor [1] [(1, 0)%Z]) 1) as Hbits.
  { split; [reflexivity |]. split; [reflexivity |].
    constructor; [| constructor]. right. vm_compute. exact I. }
  split; [exact Hbits |].
  destruct (basis_state_shorter_than_wires two_wires (Some [0; 1])
              (mkTensor [1] [(1, 0)%Z]) [] 1) as (Hshort & _ & _).
  - right. right. vm_compute. reflexivity.
  - exact Hbits.
  - lia.
  - apply Hshort. vm_compute. lia.
Defined.

(** * Further properties of the device *)

Ltac run :=
  unfold mbind, M_bind, mret, M_ret, get, gets, modify, raise, or_raise, when_; simpl.

(** ** Row-major indices *)

Section Indices.

Lemma length_all_indices dims : length (all_indices dims) = size_of dims.
Proof.
  induction dims as [|d ds IH]; [done |].
  cbn [all_indices size_of foldr]. fold (size_of ds). rewrite <- IH.
  generalize 0. induction d as [|d IHd]; intros k; [done |].
  cbn [seq]. csimpl. rewrite length_app, length_fmap, IHd. lia.
Qed.

Lemma Forall_all_indices dims :
  Forall (λ idx, length idx = length dims) (all_indices dims).
Proof.
  induction dims as [|d ds IH]; [by repeat constructor |].
  cbn [all_indices]. apply Forall_forall. intros idx Hin.
  apply list_elem_of_bind in Hin as (i & Hin & _).
  apply list_elem_of_fmap in Hin as (js & -> & Hjs).
  rewrite Forall_forall in IH. simpl. by rewrite (IH js).
Qed.

(** The multi-indices of a shape come in the order of their row-major
    positions. *)
Lemma flat_index_all_indices dims :
  flat_index dims <$> all_indices dims = seq 0 (size_of dims).
Proof.
  induction dims as [|d ds IH]; [done |].
  cbn [all_indices size_of foldr]. fold (size_of ds).
  assert (∀ k n, flat_index (d :: ds) <$> (seq k n ≫= λ i, (λ js, i :: js) <$> all_indices ds)
                 = seq (k * size_of ds) (n * size_of ds)) as H; [| by rewrite H].
  intros k n. revert k. induction n as [|n IHn]; intros k; [done |].
  cbn [seq]. csimpl. rewrite fmap_app, IHn.
  replace (S k * size_of ds) with (k * size_of ds + size_of ds) by lia.
  rewrite seq_app. f_equal.
  rewrite <- list_fmap_compose.
  trans ((λ x, k * size_of ds + x) <$> (flat_index ds <$> all_indices ds)).
  - rewrite <- list_fmap_compose. by apply list_fmap_ext.
  - rewrite IH, fmap_add_seq. f_equal. lia.
Qed.
End Indices.

Section SingleNode.
Context {C R : Type} `{!Backend C R}.

Lemma lookup_all (A : Type) (d : A) (l : list A) :
  (λ k, default d (l !! k)) <$> seq 0 (length l) = l.
Proof.
  apply list_eq. intros i. rewrite list_lookup_fmap.
  destruct (decide (i < length l)) as [Hi|Hi].
  - rewrite lookup_seq_lt by done. simpl.
    destruct (lookup_lt_is_Some_2 l i Hi) as [x Hx]. by rewrite Hx.
  - rewrite lookup_seq_ge by lia. simpl. symmetry. apply lookup_ge_None. lia.
Qed.

(** Reading a tensor at every multi-index of its shape gives its
    entries in their order. *)
Lemma tget_all_indices (t : Tensor C) :
  length (data t) = size_of (shape t) →
  tget t <$> all_indices (shape t) = data t.
Proof.
  intros Hlen.
  trans ((λ k, default c_zero (data t !! k))
           <$> (flat_index (shape t) <$> all_indices (shape t))).
  - by rewrite <- list_fmap_compose.
  - rewrite flat_index_all_indices, <- Hlen. apply lookup_all.
Qed.

Lemma mapM_pointwise {A B : Type} (f : A → option B) (h : A → B) (l : list A) :
  Forall (λ x, f x = Some (h x)) l → mapM f l = Some (h <$> l).
Proof.
  intros Hl. apply mapM_Some. apply Forall2_fmap_r.
  by apply Forall_Forall2_diag.
Qed.

Lemma e_dim_node_edges (n : Node C) : e_dim <$> node_edges n = shape (node_tensor n).
Proof.
  unfold node_edges, ndim. rewrite <- list_fmap_compose.
  rewrite (list_fmap_ext _ (λ k, default 0 (shape (node_tensor n) !! k)))
    by (by intros ???).
  apply lookup_all.
Qed.

Lemma node_edges_lookup (n : Node C) i :
  i < ndim (node_tensor n) → node_edges n !! i = Some (node_edge n i).
Proof.
  intros Hi. unfold node_edges. rewrite list_lookup_fmap, lookup_seq_lt by done. done.
Qed.

(** An axis of the node reads the index at its place when the output
    order is the node's own edges. *)
Lemma axis_index_own (n : Node C) oi i :
  i < ndim (node_tensor n) →
  axis_index (node_edges n) [] oi [] (node_edge n i) = oi !! i.
Proof.
  intros Hi. unfold axis_index.
  assert (list_find (λ o, o = node_edge n i) (node_edges n)
          = Some (i, node_edge n i)) as ->; [| done].
  apply list_find_Some. split; [by apply node_edges_lookup |]. split; [done |].
  intros j y Hj Hlt ->.
  rewrite node_edges_lookup in Hj by lia. injection Hj. unfold node_edge.
  intros [= ?]. lia.
Qed.

Lemma own_indices (n : Node C) oi :
  length oi = ndim (node_tensor n) →
  mapM (axis_index (node_edges n) [] oi []) (node_edges n) = Some oi.
Proof.
  intros Hlen. unfold node_edges at 2.
  rewrite (mapM_pointwise _ (λ e, default 0 (oi !! e_axis e))).
  - f_equal. rewrite <- list_fmap_compose, <- Hlen.
    rewrite (list_fmap_ext _ (λ k, default 0 (oi !! k))) by (by intros ???).
    apply lookup_all.
  - apply Forall_fmap, Forall_forall. intros i Hi.
    apply elem_of_seq in Hi. simpl.
    rewrite axis_index_own by lia.
    destruct (lookup_lt_is_Some_2 oi i ltac:(lia)) as [x Hx]. by rewrite Hx.
Qed.

(** The contraction of one node that is joined to nothing, its edges in
    their own order: the tensor of the node, every entry [x] computed as
    [x * 1 + 0]. *)
Lemma tn_contract_single (n : Node C) :
  length (data (node_tensor n)) = size_of (shape (node_tensor n)) →
  tn_contract [n] [] (node_edges n)
  = Some (mkTensor (shape (node_tensor n))
            ((λ x, c_add (c_mul x c_one) c_zero) <$> data (node_tensor n))).
Proof.
  intros Hlen. unfold tn_contract.
  rewrite decide_True.
  - rewrite e_dim_node_edges. simpl.
    rewrite (mapM_pointwise _ (λ oi, c_add (c_mul (tget (node_tensor n) oi) c_one) c_zero)).
    + simpl. do 2 f_equal.
      trans ((λ x, c_add (c_mul x c_one) c_zero)
               <$> (tget (node_tensor n) <$> all_indices (shape (node_tensor n)))).
      { by rewrite <- list_fmap_compose. }
      by rewrite tget_all_indices.
    + pose proof (Forall_all_indices (shape (node_tensor n))) as Hall.
      eapply Forall_impl; [exact Hall |]. intros oi Hoi. simpl.
      unfold network_entry. simpl. by rewrite own_indices.
  - split; [apply NoDup_node_edges |].
    apply Forall_forall. intros e He. split; [| by constructor].
    simpl. by rewrite app_nil_r.
Qed.
End SingleNode.

Section StateVector.
Context {C R : Type} `{!Backend C R}.

Lemma size_of_replicate n d : size_of (replicate n d) = d ^ n.
Proof. induction n as [|n IH]; [done |]. simpl. fold (size_of (replicate n d)). by rewrite IH. Qed.

Lemma squeeze_qubits n (d : list C) :
  squeeze (mkTensor (replicate n 2) d) = mkTensor (replicate n 2) d.
Proof.
  unfold squeeze. simpl. f_equal.
  induction n as [|n IH]; [done |]. simpl. rewrite filter_cons_True by done. by rewrite IH.
Qed.

(** What [apply("QubitStateVector", wires, [v])] leaves in the exact
    representation: one node named after the operation and all wires. *)
Lemma state_vector_prepared (s : DefaultTensor C R) wires v rest :
  _rep s = "exact" → wires_accepted (num_wires s) wires →
  shape v = [2 ^ num_wires s] → length (data v) = 2 ^ num_wires s →
  let node := mkNode (next_id s)
                ("QubitStateVector" +:+ tuple_repr (seq 0 (num_wires s)))
                (mkTensor (replicate (num_wires s) 2) (data v)) in
  apply "QubitStateVector" wires (v :: rest) s
  = Ok tt (mkDevice (num_wires s) (shots s) (_rep s) (_contraction_method s)
             {["state" := [node]]} (node_edges node) None None []
             (S (next_id s)) (warned s)).
Proof.
  intros Hrep Hw Hshape Hlen node.
  rewrite apply_preparation_accepted by (done || by left).
  unfold _add_state_prep_nodes.
  unfold mbind at 1, M_bind at 1, gets. simpl.
  unfold mbind at 1, M_bind at 1, mret at 1, M_ret at 1.
  rewrite decide_True by done.
  unfold reshape. rewrite decide_True by (by rewrite size_of_replicate).
  unfold mbind at 1, M_bind at 1. simpl.
  unfold _add_initial_state_nodes. rewrite decide_False by (intros Hn; by apply Hn).
  unfold mbind at 1, M_bind at 1, gets. simpl.
  rewrite decide_True by done.
  rewrite decide_False
    by (unfold ndim; simpl; rewrite length_replicate, length_seq; by intros ?).
  unfold _add_node, tn_Node, cleared.
  unfold mbind, M_bind, modify, get, mret, M_ret. simpl.
  rewrite lookup_empty. reflexivity.
Qed.

#[local] Arguments tn_contract : simpl never.

(** The contraction of the network a state vector leaves. *)
Lemma state_vector_read (s : DefaultTensor C R) (node : Node C) :
  _rep s = "exact" → _contraction_method s ∈ contract_fns →
  _contracted_state_node s = None →
  _nodes s !! "state" = Some [node] → joined s = [] →
  _free_wire_edges s = node_edges node →
  length (data (node_tensor node)) = size_of (shape (node_tensor node)) →
  ∃ s', _state s
        = Ok (squeeze (mkTensor (shape (node_tensor node))
                         ((λ x, c_add (c_mul x c_one) c_zero)
                            <$> data (node_tensor node)))) s'.
Proof.
  intros Hrep Hm Hc Hn Hj Hf Hlen.
  destruct s as [n k rep method nodes free chain cache j nid w]. simpl in *. subst.
  unfold _state, _contract_premeasurement_network.
  unfold mbind, M_bind, modify, get, gets, mret, M_ret, or_raise, when_, tn_Node. simpl.
  rewrite bool_decide_eq_false_2 by (by intros ?).
  rewrite Hn. run. rewrite (tn_contract_single node Hlen). run.
  by eexists.
Qed.

(** X1: a state vector of shape [(2 ** num_wires,)] is read back.  In the
    exact representation, with one of the four contraction methods,
    [apply("QubitStateVector", wires, [v])] on no wires, on the empty
    list or on all wires succeeds, and [_state] then returns the entries
    of [v] in their order with the shape [(2,) * num_wires], whatever
    network the device held before. *)
Theorem state_vector_round_trip (s : DefaultTensor C R) wires v rest :
  (∀ x : C, c_add (c_mul x c_one) c_zero = x) →
  _rep s = "exact" → _contraction_method s ∈ contract_fns →
  wires_accepted (num_wires s) wires →
  shape v = [2 ^ num_wires s] → length (data v) = 2 ^ num_wires s →
  ∃ s1 s2, apply "QubitStateVector" wires (v :: rest) s = Ok tt s1
           ∧ _state s1 = Ok (mkTensor (replicate (num_wires s) 2) (data v)) s2.
Proof.
  intros Hlaw Hrep Hm Hw Hshape Hlen.
  pose proof (state_vector_prepared s wires v rest Hrep Hw Hshape Hlen) as Hprep.
  cbv zeta in Hprep.
  set (node := mkNode (next_id s)
                 ("QubitStateVector" +:+ tuple_repr (seq 0 (num_wires s)))
                 (mkTensor (replicate (num_wires s) 2) (data v))) in Hprep.
  destruct (state_vector_read
              (mkDevice (num_wires s) (shots s) (_rep s) (_contraction_method s)
                 {["state" := [node]]} (node_edges node) None None []
                 (S (next_id s)) (warned s)) node) as [s2 Hs2]; try done.
  { simpl. by rewrite size_of_replicate. }
  eexists _, s2. split; [exact Hprep |]. rewrite Hs2. f_equal.
  cbn [node node_tensor shape data]. rewrite squeeze_qubits. f_equal.
  rewrite (list_fmap_ext _ id (data v)) by (intros ???; apply Hlaw).
  apply list_fmap_id.
Qed.
End StateVector.

Lemma state_vector_round_trip_witness :
  ∃ s1 s2,
    apply "QubitStateVector" (Some [0; 1])
      [mkTensor [4] [(0, 0); (0, 1); (0, 0); (0, 0)]%Z] two_wires_flipped = Ok tt s1
    ∧ _state s1 = Ok (mkTensor [2; 2] [(0, 0); (0, 1); (0, 0); (0, 0)]%Z) s2.
Proof.
  apply (state_vector_round_trip two_wires_flipped (Some [0; 1])
           (mkTensor [4] [(0, 0); (0, 1); (0, 0); (0, 0)]%Z) []).
  - intros [a b]. cbn. f_equal; lia.
  - vm_compute. reflexivity.
  - apply (bool_decide_unpack _). vm_compute. exact I.
  - right. right. vm_compute. reflexivity.
  - vm_compute. reflexivity.
  - vm_compute. reflexivity.
Defined.

(** ** The registry of nodes *)

Section Registry.
Context {C R : Type} `{!Backend C R}.

(** The nodes registered under [key]. *)
Definition registered (key : string) (s : DefaultTensor C R) : list (Node C) :=
  default [] (_nodes s !! key).

Lemma _add_node_registered (A : Tensor C + Node C) wires name key
    (s s' : DefaultTensor C R) node :
  _add_node A wires name key s = Ok node s' →
  registered key s' = registered key s ++ [node]
  ∧ (∀ k, k ≠ key → _nodes s' !! k = _nodes s !! k)
  ∧ node_tensor node = tensor_of A
  ∧ node_name node = name +:+ tuple_repr wires
  ∧ _free_wire_edges s' = _free_wire_edges s ∧ mps s' = mps s
  ∧ joined s' = joined s
  ∧ _contracted_state_node s' = _contracted_state_node s.
Proof.
  unfold _add_node, registered. destruct A as [t|n].
  - intros [= <- <-]. simpl. rewrite lookup_insert_eq. repeat split; try done.
    intros k Hk. by rewrite lookup_insert_ne.
  - intros [= <- <-]. simpl. rewrite lookup_insert_eq. repeat split; try done.
    intros k Hk. by rewrite lookup_insert_ne.
Qed.

Lemma exact_components_registered cs (s s' : DefaultTensor C R) :
  for_each cs add_exact_component s = Ok tt s' →
  node_tensor <$> registered "state" s'
  = (node_tensor <$> registered "state" s) ++ cs.*1.*1
  ∧ (∀ k, k ≠ "state" → _nodes s' !! k = _nodes s !! k)
  ∧ _contracted_state_node s' = _contracted_state_node s
  ∧ mps s' = mps s.
Proof.
  revert s. induction cs as [|[[t ws] name] cs IH]; intros s; simpl.
  { intros [= <-]. by rewrite app_nil_r. }
  intros H. apply bind_inv_Ok in H as ([] & s1 & H1 & H).
  unfold add_exact_component in H1. destruct (decide _); [done |].
  apply bind_inv_Ok in H1 as (node & s0 & Hnode & [= <-]).
  apply _add_node_registered in Hnode as (Hreg & Hother & Ht & _ & _ & Hm & _ & Hc).
  destruct (IH _ H) as (IH1 & IH2 & IH3 & IH4).
  split; [| split; [| split]].
  - rewrite IH1. unfold registered in *. simpl. rewrite Hreg, fmap_app. simpl.
    rewrite Ht. simpl. by rewrite <- app_assoc.
  - intros k Hk. rewrite IH2 by done. simpl. by apply Hother.
  - by rewrite IH3.
  - by rewrite IH4.
Qed.

(** [np.expand_dims(np.expand_dims(t, 0), -1)] *)
Definition as_chain_tensor (t : Tensor C) : Tensor C :=
  expand_dims_last (expand_dims_first t).

Lemma mps_components_registered cs (s s' : DefaultTensor C R) nodess :
  Forall single_wire cs →
  map_m add_mps_component cs s = Ok nodess s' →
  node_tensor <$> concat nodess = as_chain_tensor <$> cs.*1.*1
  ∧ node_tensor <$> registered "state" s'
    = (node_tensor <$> registered "state" s) ++ (as_chain_tensor <$> cs.*1.*1)
  ∧ (∀ k, k ≠ "state" → _nodes s' !! k = _nodes s !! k)
  ∧ _contracted_state_node s' = _contracted_state_node s.
Proof.
  intros Hcs. revert s nodess.
  induction Hcs as [|[[t ws] name] cs [Ht [w Hw]] Hcs IH]; intros s nodess; simpl.
  { intros [= <- <-]. by rewrite app_nil_r. }
  simpl in Ht, Hw. subst ws.
  intros H. apply bind_inv_Ok in H as (nodes & s1 & H1 & H).
  apply bind_inv_Ok in H as (rest & s2 & Hrest & [= <- <-]).
  unfold add_mps_component in H1.
  rewrite decide_False in H1 by (unfold ndim; rewrite Ht; by intros ?).
  rewrite decide_True in H1
    by (unfold expand_dims_last, expand_dims_first; simpl; by rewrite Ht).
  apply bind_inv_Ok in H1 as (node & s0 & Hnode & [= <- <-]).
  apply _add_node_registered in Hnode as (Hreg & Hother & Hnt & _ & _ & _ & _ & Hc).
  simpl in Hnt.
  destruct (IH _ _ Hrest) as (IH1 & IH2 & IH3 & IH4).
  split; [| split; [| split]].
  - rewrite concat_cons, fmap_app, IH1. simpl. by rewrite Hnt.
  - rewrite IH2, Hreg, fmap_app. simpl. rewrite Hnt. by rewrite <- app_assoc.
  - intros k Hk. rewrite IH3 by done. by apply Hother.
  - by rewrite IH4.
Qed.

Lemma FiniteMPS_tensors (nodes : list (Node C)) k (s s' : DefaultTensor C R) chain :
  map_m (λ '(n, node), tn_Node (node_tensor node) ("node" +:+ pretty n))
        (imap (λ n node, (k + n, node)) nodes) s = Ok chain s' →
  node_tensor <$> chain = node_tensor <$> nodes
  ∧ _nodes s' = _nodes s ∧ _contracted_state_node s' = _contracted_state_node s.
Proof.
  revert k s s' chain. induction nodes as [|node nodes IH]; intros k s s' chain.
  { simpl. by intros [= <- <-]. }
  rewrite imap_cons. simpl. intros H.
  apply bind_inv_Ok in H as (n0 & s1 & [= <- <-] & H).
  apply bind_inv_Ok in H as (rest & s2 & Hrest & [= <- <-]).
  rewrite (imap_ext _ (λ n node0, (S k + n, node0))) in Hrest
    by (intros; simpl; f_equal; lia).
  apply IH in Hrest as (Ht & Hn & Hc). simpl in Hn, Hc.
  split; [| done]. rewrite !fmap_cons, Ht. done.
Qed.

Lemma zip3_tensors {A B D : Type} (a : list A) (b : list B) (c : list D) :
  length a = length b → length b = length c → (zip3 a b c).*1.*1 = a.
Proof.
  unfold zip3. intros H1 H2.
  rewrite fst_zip by (rewrite length_zip_with; lia). apply fst_zip. lia.
Qed.

(** The components of a product state on the wires [0 .. n-1], one
    tensor of shape [(2,)] per wire: [_add_initial_state_nodes] takes a
    node per wire into the registry, and in the chain representation
    builds the chain of the same tensors with the bond axes added. *)
Lemma product_state_prepared (tensors : list (Tensor C)) names
    (s s' : DefaultTensor C R) :
  Forall (λ t, shape t = [2]) tensors → length names = length tensors →
  _add_initial_state_nodes tensors ((λ w, [w]) <$> seq 0 (length tensors)) names s
  = Ok tt s' →
  (∀ k, k ≠ "state" → _nodes s' !! k = _nodes s !! k)
  ∧ _contracted_state_node s' = _contracted_state_node s
  ∧ (_rep s = "exact" →
     node_tensor <$> registered "state" s'
     = (node_tensor <$> registered "state" s) ++ tensors
     ∧ mps s' = mps s)
  ∧ (_rep s = "mps" →
     node_tensor <$> registered "state" s'
     = (node_tensor <$> registered "state" s) ++ (as_chain_tensor <$> tensors)
     ∧ ∃ chain, mps s' = Some chain
                ∧ node_tensor <$> chain = as_chain_tensor <$> tensors).
Proof.
  intros Ht Hn. unfold _add_initial_state_nodes.
  destruct (decide _) as [|_]; [done |].
  pose proof (single_wire_zip3 tensors (seq 0 (length tensors)) names Ht) as Hc.
  assert ((zip3 tensors ((λ w, [w]) <$> seq 0 (length tensors)) names).*1.*1 = tensors)
    as Hts by (apply zip3_tensors; rewrite ?length_fmap, ?length_seq; lia).
  unfold mbind at 1, M_bind at 1, gets.
  destruct (decide (_rep s = "exact")) as [Hex|Hex].
  - unfold mbind at 1, M_bind at 1, modify. intros H.
    apply exact_components_registered in H as (H1 & H2 & H3 & H4). rewrite Hts in H1.
    split; [done |]. split; [done |]. split; [done |].
    intros Hmps. congruence.
  - destruct (decide (_rep s = "mps")) as [Hmps|]; [| by intros [= <-]].
    intros H. apply bind_inv_Ok in H as (nodess & s1 & H1 & H).
    apply bind_inv_Ok in H as (chain & s2 & H2 & H).
    apply bind_inv_Ok in H as ([] & s3 & [= <-] & [= <-]).
    apply (mps_components_registered _ _ _ _ Hc) in H1 as (Ha & Hb & Hc' & Hd).
    apply (FiniteMPS_tensors _ 0) in H2 as (He & Hf & Hg).
    rewrite Hts in Ha, Hb.
    split; [| split; [| split; [done |]]].
    + intros k Hk. simpl. rewrite Hf. by apply Hc'.
    + simpl. congruence.
    + intros _. split.
      * unfold registered in *. simpl. by rewrite Hf.
      * exists chain. split; [done |]. by rewrite He.
Qed.
End Registry.

Section ProductStates.
Context {C R : Type} `{!Backend C R}.

(** X2: [reset] prepares the all-zeros state.  On a device with at least
    one wire it never raises, keeps the configuration, empties the cache
    and the registry, and then holds one node per wire under ["state"]
    and nothing under another key: in the exact representation every
    node carries [_zero_state] and there is no chain, in the chain
    representation the registry and the chain both hold [_zero_state]
    with the two bond axes added. *)
Theorem reset_prepares_all_zeros (s : DefaultTensor C R) :
  0 < num_wires s →
  ∃ s', reset s = Ok tt s'
        ∧ same_configuration s s'
        ∧ _contracted_state_node s' = None
        ∧ (∀ k, k ≠ "state" → _nodes s' !! k = None)
        ∧ (_rep s = "exact" →
           node_tensor <$> registered "state" s' = replicate (num_wires s) _zero_state
           ∧ mps s' = None)
        ∧ (_rep s = "mps" →
           node_tensor <$> registered "state" s'
           = replicate (num_wires s) (as_chain_tensor _zero_state)
           ∧ ∃ chain, mps s' = Some chain
                      ∧ node_tensor <$> chain
                        = replicate (num_wires s) (as_chain_tensor _zero_state)).
Proof.
  intros _.
  destruct (reset_spec s) as (s' & Hreset & Hcfg & Hcache & _).
  exists s'. split; [done |]. split; [done |]. split; [done |].
  unfold reset in Hreset.
  rewrite (bind_Ok _ _ _ _ _ (_clear_network_data_spec s)) in Hreset.
  apply bind_inv_Ok in Hreset as (n & s1 & [= <- <-] & H).
  cbn [cleared num_wires] in H.
  set (tensors := replicate (num_wires s) (_zero_state (C := C))) in *.
  assert (length tensors = num_wires s) as Hlen by apply length_replicate.
  rewrite <- Hlen in H at 1.
  apply product_state_prepared in H as (Hother & _ & Hexact & Hmps).
  - split; [| split].
    + intros k Hk. by rewrite Hother.
    + intros Hrep. destruct (Hexact Hrep) as [H1 H2]. split; [| done].
      rewrite H1. done.
    + intros Hrep. destruct (Hmps Hrep) as [H1 (chain & H2 & H3)].
      unfold tensors in H1, H3. rewrite fmap_replicate in H1, H3.
      split; [by rewrite H1 |]. by exists chain.
  - by apply Forall_replicate.
  - by rewrite length_replicate.
Qed.

(** The tensor of one wire of a basis state: [zero_vec if x == 0 else
    one_vec]. *)
Definition basis_vector (x : C) : Tensor C :=
  if c_eqb x c_zero then _zero_state else reversed _zero_state.

Lemma basis_tensors_values par0 n (s s' : DefaultTensor C R) tensors :
  length (data par0) = n →
  map_m (basis_tensor par0 n) (seq 0 n) s = Ok tensors s' →
  tensors = basis_vector <$> data par0.
Proof.
  intros Hlen. rewrite (map_m_or_raise _ (basis_entry par0 n) IndexError).
  2: { intros; apply basis_tensor_entry. }
  intros H. apply or_raise_inv_Ok in H as [H _].
  apply mapM_Some in H. apply list_eq. intros i.
  rewrite list_lookup_fmap.
  destruct (decide (i < n)) as [Hi|Hi].
  - destruct (lookup_lt_is_Some_2 (data par0) i ltac:(lia)) as [x Hx].
    destruct (Forall2_lookup_l _ _ _ i i H) as (t & Ht & Hentry).
    { by apply lookup_seq_lt. }
    unfold basis_entry in Hentry. rewrite decide_True, Hx in Hentry by done.
    injection Hentry as <-. by rewrite Ht, Hx.
  - apply Forall2_length in H. rewrite length_seq in H.
    rewrite (lookup_ge_None_2 tensors i), (lookup_ge_None_2 (data par0) i) by lia.
    done.
Qed.

(** X3: a [BasisState] of [num_wires] zeros and ones is prepared wire by
    wire: [apply] succeeds, the cache is empty, and the registry holds,
    under ["state"] alone, one node per wire with [_zero_state] where
    the entry is 0 and its reverse where it is 1 (with the bond axes
    added, and as the chain, in the chain representation). *)
Theorem basis_state_prepared (s : DefaultTensor C R) wires par0 rest :
  wires_accepted (num_wires s) wires → bits par0 (num_wires s) → 0 < num_wires s →
  ∃ s', apply "BasisState" wires (par0 :: rest) s = Ok tt s'
        ∧ _contracted_state_node s' = None
        ∧ (∀ k, k ≠ "state" → _nodes s' !! k = None)
        ∧ (_rep s = "exact" →
           node_tensor <$> registered "state" s' = basis_vector <$> data par0)
        ∧ (_rep s = "mps" →
           ∃ chain, mps s' = Some chain
                    ∧ node_tensor <$> chain
                      = as_chain_tensor <$> (basis_vector <$> data par0)).
Proof.
  intros Hw Hbits Hpos.
  rewrite apply_preparation_accepted by (done || by right).
  rewrite (basis_state_validated _ _ (num_wires s)) by (done || simpl; lia).
  pose proof Hbits as (_ & Hdata & _).
  destruct (basis_tensors_full par0 (num_wires s) (cleared s))
    as (tensors & Ht & Hshape & Hl); [simpl in *; lia |].
  cbn [cleared num_wires] in *.
  rewrite (bind_Ok _ _ _ _ _ Ht).
  pose proof (basis_tensors_values _ _ _ _ _ Hdata Ht) as Hvalues.
  destruct (_add_initial_state_nodes_total tensors (num_wires s)
              (replicate (num_wires s) "BasisState") Hshape Hl
              (length_replicate _ _) (cleared s)) as ([] & s' & Hs').
  exists s'. split; [done |].
  rewrite <- Hl in Hs' at 1.
  apply product_state_prepared in Hs' as (Hother & Hcache & Hexact & Hmps);
    [| done | by rewrite length_replicate].
  split; [done |]. split; [| split].
  - intros k Hk. by rewrite Hother.
  - intros Hrep. destruct (Hexact Hrep) as [H1 _]. by rewrite H1, Hvalues.
  - intros Hrep. destruct (Hmps Hrep) as [_ (chain & H2 & H3)].
    exists chain. by rewrite <- Hvalues.
Qed.
End ProductStates.

Lemma reset_prepares_all_zeros_witness :
  ∃ s', reset chain_of_three = Ok tt s'
        ∧ ∃ chain, mps s' = Some chain
                   ∧ node_tensor <$> chain
                     = replicate 3 (mkTensor [1; 2; 1] [(1, 0); (0, 0)]%Z).
Proof.
  destruct (reset_prepares_all_zeros chain_of_three) as (s' & Hreset & _ & _ & _ & _ & Hmps).
  - vm_compute. lia.
  - exists s'. split; [exact Hreset |].
    exact (proj2 (Hmps eq_refl)).
Defined.

Lemma basis_state_prepared_witness :
  ∃ s', apply "BasisState" (Some [0; 1]) [mkTensor [2] [(1, 0); (0, 0)]%Z] two_wires
        = Ok tt s'
        ∧ node_tensor <$> registered "state" s' = [ket_1; ket_0].
Proof.
  destruct (basis_state_prepared two_wires (Some [0; 1])
              (mkTensor [2] [(1, 0); (0, 0)]%Z) [])
    as (s' & Happly & _ & _ & Hexact & _).
  - right. right. vm_compute. reflexivity.
  - split; [reflexivity |]. split; [reflexivity |].
    constructor; [right; vm_compute; exact I |].
    constructor; [left; vm_compute; exact I | constructor].
  - vm_compute. lia.
  - exists s'. split; [exact Happly |].
    exact (Hexact eq_refl).
Defined.

(** ** Calls that are refused *)

Section Refused.
Context {C R : Type} `{!Backend C R}.

Lemma _get_operator_matrix_unknown (s : DefaultTensor C R) operation par :
  _operation_and_observable_map !! operation = None →
  _get_operator_matrix operation par s = Raise (KeyError operation) s.
Proof. intros H. unfold _get_operator_matrix. run. by rewrite H. Qed.

(** The names of the merged map are those of [operations] and of
    [observables]. *)
Lemma unlisted_name (name : string) :
  name ∉ operations ∪ observables →
  _operation_and_observable_map !! name = None.
Proof.
  intros Hname. unfold _operation_and_observable_map.
  apply lookup_union_None. unfold operations, observables in Hname.
  apply not_elem_of_union in Hname as [H1 H2].
  rewrite elem_of_list_to_set in H1, H2.
  split; apply not_elem_of_list_to_map_1; done.
Qed.

Lemma unknown_is_no_preparation operation :
  _operation_and_observable_map !! operation = None → ¬ state_preparation operation.
Proof. by intros H [-> | ->]; vm_compute in H. Qed.

(** X4: a name that is neither in [operations] nor in [observables].
    [apply] with it as the operation, and [expval], [var] and [sample]
    with it as the observable, raise the KeyError of the dict lookup,
    which is in no category of the taxonomy, and leave the device
    exactly as it was. *)
Theorem unknown_name_raises_KeyError (s : DefaultTensor C R) rng name wires ws par :
  name ∉ operations ∪ observables →
  apply name wires par s = Raise (KeyError name) s
  ∧ expval (one_observable name ws par) s = Raise (KeyError name) s
  ∧ var (one_observable name ws par) s = Raise (KeyError name) s
  ∧ sample rng (one_observable name ws par) s = Raise (KeyError name) s
  ∧ taxonomy (KeyError name) = None.
Proof.
  intros Hname. pose proof (unlisted_name name Hname) as H.
  pose proof (_get_operator_matrix_unknown s name par H) as Hm.
  split; [| split; [| split; [| split; [| done]]]].
  - rewrite apply_gate by by apply unknown_is_no_preparation.
    unfold _add_gate_nodes. by rewrite (bind_Raise _ _ _ _ _ Hm).
  - unfold expval. simpl. by do 3 apply bind_Raise.
  - unfold var. simpl. by do 2 apply bind_Raise.
  - unfold sample. simpl. by do 2 apply bind_Raise.
Qed.

(** The node a gate registers: the matrix of the operation, reshaped to
    an axis of length 2 per wire, in and out. *)
Lemma gate_node (s : DefaultTensor C R) operation ws par A A' :
  ¬ state_preparation operation →
  _get_operator_matrix operation par s = Ok A s →
  reshape A (replicate (length ws * 2) 2) = Some A' →
  apply operation (Some ws) par s
  = (op_node ← _add_node (inl A') ws operation "state";
     rep ← gets _rep;
     if decide (rep = "exact") then
       for_each (imap (λ idx w, (idx, w)) ws) (connect_gate_wire op_node (length ws))
     else if decide (rep = "mps") then
       match ws with
       | [wire] => apply_one_site_gate op_node wire;; refresh_free_wire_edge wire
       | [w0; w1] =>
           if decide (w1 - w0 = 1 ∨ w0 - w1 = 1) then
             apply_two_site_gate op_node w0 w1;; for_each ws refresh_free_wire_edge
           else raise (NotImplementedError nearest_neighbour_gates)
       | _ => raise (NotImplementedError nearest_neighbour_gates)
       end
     else mret tt) s.
Proof.
  intros Hop HA HA'. rewrite apply_gate by done. unfold _add_gate_nodes.
  rewrite (bind_Ok _ _ _ _ _ HA). simpl.
  unfold mbind at 1, M_bind at 1. simpl.
  unfold mbind at 1, M_bind at 1. rewrite HA'. done.
Qed.

(** X5: the gates the chain representation refuses.  For an operation
    whose matrix is found and fits its wires, [apply] in the chain
    representation raises the NotImplementedError on nearest neighbours
    (NotSupported) exactly when the wires are not one wire and not two
    wires next to each other; the node of the gate is in the registry by
    then, and nothing else of the device has changed. *)
Theorem chain_refuses_wide_gates (s : DefaultTensor C R) operation ws par A A' :
  _rep s = "mps" → ¬ state_preparation operation →
  _get_operator_matrix operation par s = Ok A s →
  reshape A (replicate (length ws * 2) 2) = Some A' →
  (raised (apply operation (Some ws) par s)
   = Some (NotImplementedError nearest_neighbour_gates)
   ↔ unsupported_wires ws)
  ∧ (unsupported_wires ws →
     state_of (apply operation (Some ws) par s)
     = set_nodes (<["state" := registered "state" s
                               ++ [mkNode (next_id s) (operation +:+ tuple_repr ws) A']]>
                    (_nodes s))
         (set_next_id (S (next_id s)) s))
  ∧ taxonomy (NotImplementedError nearest_neighbour_gates) = Some NotSupported.
Proof.
  intros Hrep Hop HA HA'.
  assert (unsupported_wires ws →
          apply operation (Some ws) par s
          = Raise (NotImplementedError nearest_neighbour_gates)
              (set_nodes (<["state" := registered "state" s
                                       ++ [mkNode (next_id s) (operation +:+ tuple_repr ws) A']]>
                            (_nodes s))
                 (set_next_id (S (next_id s)) s))) as Hforward.
  { intros [Hlen Hadj]. rewrite (gate_node s operation ws par A A') by done.
    unfold _add_node, tn_Node. run.
    rewrite decide_False by (rewrite Hrep; by intros ?).
    rewrite decide_True by done.
    destruct ws as [|w0 [|w1 [|w2 ws]]]; try done.
    rewrite decide_False; [done |]. by apply Hadj. }
  split; [| split; [| done]].
  - split.
    + intros Hraised.
      destruct (apply operation (Some ws) par s) as [|e s'] eqn:H; [done |].
      injection Hraised as ->. rewrite apply_gate in H by done.
      by apply _add_gate_nodes_not_supported in H as (_ & ws' & [= <-] & _ & Hws & _).
    + intros Hws. by rewrite Hforward.
  - intros Hws. by rewrite Hforward.
Qed.

(** X6: a gate on a wire the device does not have.  In the exact
    representation, when the first wire of a gate is not below the
    length of the wire-edge table, [apply] raises an IndexError, which
    is in no category of the taxonomy; the node of the gate is in the
    registry by then, and the table and the joined edges are as they
    were. *)
Theorem gate_on_missing_wire (s : DefaultTensor C R) operation w ws par A A' :
  _rep s = "exact" → ¬ state_preparation operation →
  _get_operator_matrix operation par s = Ok A s →
  reshape A (replicate (length (w :: ws) * 2) 2) = Some A' →
  length (_free_wire_edges s) ≤ w →
  apply operation (Some (w :: ws)) par s
  = Raise IndexError
      (set_nodes (<["state" := registered "state" s
                               ++ [mkNode (next_id s)
                                     (operation +:+ tuple_repr (w :: ws)) A']]>
                    (_nodes s))
         (set_next_id (S (next_id s)) s))
  ∧ taxonomy IndexError = None.
Proof.
  intros Hrep Hop HA HA' Hw. split; [| done].
  rewrite (gate_node s operation (w :: ws) par A A') by done.
  unfold _add_node, tn_Node. run.
  rewrite decide_True by done.
  unfold connect_gate_wire. run.
  by rewrite (lookup_ge_None_2 _ _ Hw).
Qed.
End Refused.

Lemma unknown_name_raises_KeyError_witness :
  apply "Fredkin" (Some [0; 1]) [] two_wires = Raise (KeyError "Fredkin") two_wires
  ∧ expval (one_observable "Fredkin" [0] []) two_wires
    = Raise (KeyError "Fredkin") two_wires.
Proof.
  assert ("Fredkin" ∉ operations ∪ observables) as Hname
    by (apply (bool_decide_unpack _); vm_compute; exact I).
  destruct (unknown_name_raises_KeyError two_wires (λ _, 0%Z) "Fredkin"
              (Some [0; 1]) [0] [] Hname) as (Happly & Hexpval & _).
  split; [exact Happly | exact Hexpval].
Defined.

Lemma chain_refuses_wide_gates_witness :
  raised (apply "CNOT" (Some [2; 0]) [] chain_of_three)
  = Some (NotImplementedError nearest_neighbour_gates)
  ∧ raised (apply "CNOT" (Some [1; 0]) [] chain_of_three)
    ≠ Some (NotImplementedError nearest_neighbour_gates).
Proof.
  assert (_rep chain_of_three = "mps") as Hrep by (vm_compute; reflexivity).
  assert (¬ state_preparation "CNOT") as Hop by (intros [H | H]; discriminate H).
  assert (_get_operator_matrix "CNOT" [] chain_of_three = Ok CNOT chain_of_three)
    as HA by (vm_compute; reflexivity).
  assert (reshape CNOT (replicate (2 * 2) 2)
          = Some (mkTensor [2; 2; 2; 2] (data CNOT))) as HA'
    by (vm_compute; reflexivity).
  split.
  - apply (chain_refuses_wide_gates chain_of_three "CNOT" [2; 0] [] CNOT _ Hrep Hop HA HA').
    split; [by intros [=] |]. intros w0 w1 [= <- <-] [H | H]; vm_compute in H; lia.
  - intros H.
    apply (chain_refuses_wide_gates chain_of_three "CNOT" [1; 0] [] CNOT _ Hrep Hop HA HA')
      in H as [_ H].
    apply (H 1 0 eq_refl). right. reflexivity.
Defined.

Lemma gate_on_missing_wire_witness :
  apply "PauliX" (Some [2]) [] two_wires
  = Raise IndexError
      (set_nodes (<["state" := registered "state" two_wires
                               ++ [mkNode (next_id two_wires) "PauliX(2,)"
                                     (mkTensor [2; 2] (data X))]]>
                    (_nodes two_wires))
         (set_next_id (S (next_id two_wires)) two_wires)).
Proof.
  apply (gate_on_missing_wire two_wires "PauliX" 2 [] [] X (mkTensor [2; 2] (data X))).
  - vm_compute. reflexivity.
  - intros [H | H]; discriminate H.
  - vm_compute. reflexivity.
  - vm_compute. reflexivity.
  - vm_compute. lia.
Defined.

(** ** The cache of the contracted state *)

Section Reading.
Context {C R : Type} `{!Backend C R}.

(** X7: the contracted state is computed once.  When [_state] returns a
    tensor, the cache holds the node of that tensor, and a second
    [_state] returns the same tensor and leaves the device exactly as
    the first left it. *)
Theorem state_is_read_from_the_cache (s s1 : DefaultTensor C R) t :
  _state s = Ok t s1 →
  is_Some (_contracted_state_node s1) ∧ _state s1 = Ok t s1.
Proof.
  intros H. apply _state_caches in H as (ket & Hk & ->).
  split; [by eexists | by apply _state_cached].
Qed.

(** The device after [_clear_network_data] has nothing to contract. *)
Lemma cleared_is_unreadable (s : DefaultTensor C R) :
  (_rep s = "exact" → _contraction_method s ∈ contract_fns →
   _state (cleared s) = Raise (KeyError "state") (cleared s))
  ∧ (_rep s = "mps" →
     _state (cleared s) = Raise (OtherError "AttributeError") (cleared s)).
Proof.
  split.
  - intros Hrep Hm. unfold _state, _contract_premeasurement_network. run.
    rewrite decide_True by done.
    rewrite bool_decide_eq_false_2 by (by intros ?). run.
    by rewrite lookup_empty.
  - intros Hrep. unfold _state, _contract_premeasurement_network. run.
    rewrite decide_False by (rewrite Hrep; by intros ?).
    by rewrite decide_True by done.
Qed.

(** X8: a state preparation refused for its parameter leaves a device
    that cannot be read.  When [apply] raises the ValueError on the
    [BasisState] parameter or on the length of the state vector, the
    network is gone: [_state] then raises the KeyError of
    [_nodes["state"]] in the exact representation and the
    AttributeError of [self.mps.nodes] in the chain representation;
    [reset] succeeds on that device (when it has a wire). *)
Theorem refused_preparation_leaves_no_state (s s' : DefaultTensor C R)
    operation wires par e :
  e = ValueError basis_state_parameter ∨ e = ValueError state_vector_length →
  apply operation wires par s = Raise e s' →
  (_rep s = "exact" → _contraction_method s ∈ contract_fns →
   _state s' = Raise (KeyError "state") s')
  ∧ (_rep s = "mps" → _state s' = Raise (OtherError "AttributeError") s')
  ∧ (0 < num_wires s → ∃ s'', reset s' = Ok tt s'').
Proof.
  intros He H.
  assert (s' = cleared s) as ->.
  { destruct (decide (state_preparation operation)) as [Hop|Hop].
    - destruct (decide (wires_accepted (num_wires s) wires)) as [Hw|Hw].
      + rewrite apply_preparation_accepted in H by done.
        apply (_add_state_prep_nodes_rejected _ _ _ _ _ He) in H. by subst.
      + rewrite apply_preparation_rejected in H by done.
        injection H as <- <-. by destruct He.
    - rewrite apply_gate in H by done. exfalso.
      eapply never_raises_elim; [| exact H].
      apply _add_gate_nodes_never; destruct He as [-> | ->];
        (apply from_device_ValueError || done). }
  destruct (cleared_is_unreadable s) as [Hexact Hmps].
  split; [done |]. split; [done |]. intros _.
  destruct (reset_total (cleared s)) as ([] & s'' & Hs''). by exists s''.
Qed.

(** X9: a state preparation empties the cache.  Once [apply] has let a
    state preparation pass the check on its wires, the cache of the
    contracted state is empty when the call ends, whether the
    preparation succeeds or raises; so does [reset]. *)
Theorem preparation_empties_the_cache (s : DefaultTensor C R) operation wires par :
  state_preparation operation → wires_accepted (num_wires s) wires →
  _contracted_state_node (state_of (apply operation wires par s)) = None
  ∧ _contracted_state_node (state_of (reset s)) = None.
Proof.
  intros Hop Hw. split.
  - rewrite apply_preparation_accepted by done.
    by apply (_add_state_prep_nodes_frame (λ x, _contracted_state_node x = None));
      eauto with preserves.
  - destruct (reset_spec s) as (s' & -> & _ & Hc & _). done.
Qed.
End Reading.

Lemma state_is_read_from_the_cache_witness :
  _state two_wires_flipped
  = Ok (mkTensor [2; 2] [(0, 0); (0, 0); (0, 0); (1, 0)]%Z)
      (state_of (_state two_wires_flipped))
  ∧ _state (state_of (_state two_wires_flipped))
    = Ok (mkTensor [2; 2] [(0, 0); (0, 0); (0, 0); (1, 0)]%Z)
        (state_of (_state two_wires_flipped)).
Proof.
  assert (_state two_wires_flipped
          = Ok (mkTensor [2; 2] [(0, 0); (0, 0); (0, 0); (1, 0)]%Z)
              (state_of (_state two_wires_flipped))) as H
    by (vm_compute; reflexivity).
  split; [exact H |].
  exact (proj2 (state_is_read_from_the_cache two_wires_flipped
                  (state_of (_state two_wires_flipped))
                  (mkTensor [2; 2] [(0, 0); (0, 0); (0, 0); (1, 0)]%Z) H)).
Defined.

Lemma refused_preparation_leaves_no_state_witness :
  apply "BasisState" (Some [0; 1]) [mkTensor [2] [(1, 0); (2, 0)]%Z] two_wires
  = Raise (ValueError basis_state_parameter) (cleared two_wires)
  ∧ _state (cleared two_wires) = Raise (KeyError "state") (cleared two_wires).
Proof.
  assert (apply "BasisState" (Some [0; 1]) [mkTensor [2] [(1, 0); (2, 0)]%Z] two_wires
          = Raise (ValueError basis_state_parameter) (cleared two_wires)) as H
    by (vm_compute; reflexivity).
  split; [exact H |].
  destruct (refused_preparation_leaves_no_state two_wires (cleared two_wires)
              "BasisState" (Some [0; 1]) [mkTensor [2] [(1, 0); (2, 0)]%Z]
              (ValueError basis_state_parameter) (or_introl eq_refl) H)
    as (Hexact & _).
  apply Hexact.
  - vm_compute. reflexivity.
  - apply (bool_decide_unpack _). vm_compute. exact I.
Defined.

Lemma preparation_empties_the_cache_witness :
  _contracted_state_node
    (state_of (apply "BasisState" (Some [0; 1]) [mkTensor [2] [(1, 0); (2, 0)]%Z]
                 (state_of (_state two_wires_flipped)))) = None.
Proof.
  assert (state_preparation "BasisState") as Hop by (right; reflexivity).
  assert (wires_accepted (num_wires (state_of (_state two_wires_flipped)))
            (Some [0; 1])) as Hw by (right; right; vm_compute; reflexivity).
  exact (proj1 (preparation_empties_the_cache (state_of (_state two_wires_flipped))
                  "BasisState" (Some [0; 1]) [mkTensor [2] [(1, 0); (2, 0)]%Z]
                  Hop Hw)).
Defined.

(** ** Measurements *)

Section Measuring.
Context {C R : Type} `{!Backend C R}.

(** X10: the nodes of a list of tensors.  [_create_nodes_from_tensors]
    never raises; it makes one new node per triple of [zip(tensors,
    wires, observable_names)], in order, each holding its tensor and
    named by its name and the tuple of its wires, with identities that
    were not in use; the nodes are appended to the list under [key],
    and the lists under the other keys stay as they are. *)
Theorem nodes_from_tensors (s : DefaultTensor C R) tensors wires names key :
  ∃ nodes s',
    _create_nodes_from_tensors tensors wires names key s = Ok nodes s'
    ∧ Forall2 (λ node c, node_tensor node = c.1.1
                         ∧ node_name node = c.2 +:+ tuple_repr c.1.2)
              nodes (zip3 tensors wires names)
    ∧ node_id <$> nodes = seq (next_id s) (length nodes)
    ∧ registered key s' = registered key s ++ nodes
    ∧ (∀ k, k ≠ key → _nodes s' !! k = _nodes s !! k).
Proof.
  unfold _create_nodes_from_tensors.
  generalize (zip3 tensors wires names) as cs. intros cs. revert s.
  induction cs as [|[[t w] o] cs IH]; intros s.
  { exists [], s. simpl. repeat split; try done. by rewrite app_nil_r. }
  simpl.
  destruct (_add_node_total (R := R) (inl t) w o key s) as (node & s1 & Hnode).
  destruct (IH s1) as (nodes & s' & Hnodes & Hall & Hids & Hreg & Hother).
  exists (node :: nodes), s'.
  rewrite (bind_Ok _ _ _ _ _ Hnode), (bind_Ok _ _ _ _ _ Hnodes).
  pose proof (_add_node_array _ _ _ _ _ _ _ Hnode) as (Hid & _ & Hnext & _).
  apply _add_node_registered in Hnode as (Hreg1 & Hother1 & Ht & Hname & _).
  split; [done |]. split; [| split; [| split]].
  - constructor; [done | done].
  - rewrite fmap_cons, Hids, Hid, Hnext. done.
  - rewrite Hreg, Hreg1. by rewrite <- app_assoc.
  - intros k Hk. rewrite Hother by done. by apply Hother1.
Qed.

(** The part of the device a measurement has no business with: which
    nodes are registered under ["state"], how many entries the
    wire-edge table has, and the configuration.  A single registered
    node is another matter: the contraction returns that very node,
    reordered and renamed. *)
Definition same_network (s s' : DefaultTensor C R) : Prop :=
  node_id <$> registered "state" s' = node_id <$> registered "state" s
  ∧ (length (registered "state" s) ≠ 1 →
     registered "state" s' = registered "state" s)
  ∧ length (_free_wire_edges s') = length (_free_wire_edges s)
  ∧ same_configuration s s'.

Lemma same_network_observable (s : DefaultTensor C R) A wires name :
  preserves (same_network s) (_add_node A wires name "observables").
Proof.
  intros x (Hi & Hn & Hf & Hc).
  destruct (_add_node_total (R := R) A wires name "observables" x) as (node & x' & Hx).
  rewrite Hx. simpl.
  pose proof Hx as Hreg.
  apply _add_node_registered in Hreg as (_ & Hother & _ & _ & Hf' & _ & Hj' & _).
  rewrite <- Hf' in Hf.
  assert (same_configuration x x') as (H1 & H2 & H3 & H4).
  { pose proof (_add_node_frame (same_configuration x) A wires name "observables"
      ltac:(by intros ???) ltac:(by intros ??) x ltac:(done)) as Hframe.
    by rewrite Hx in Hframe. }
  destruct Hc as (Hc1 & Hc2 & Hc3 & Hc4).
  assert (registered "state" x' = registered "state" x) as Hreg
    by (unfold registered; by rewrite Hother).
  split; [| split; [| split]].
  - by rewrite Hreg.
  - by rewrite Hreg.
  - done.
  - repeat split; congruence.
Qed.

Lemma same_network_contract (s : DefaultTensor C R) :
  preserves (same_network s) _contract_premeasurement_network.
Proof.
  intros x Hx.
  destruct (_contracted_state_node x) as [ket|] eqn:Hc.
  { by rewrite (_contract_premeasurement_network_cached x ket). }
  destruct (decide (_rep x = "exact")) as [Hex|Hex].
  - pose proof (_contract_premeasurement_network_exact x Hex Hc) as H.
    unfold exact_contraction in H.
    destruct (decide (_contraction_method x ∉ contract_fns)); [by rewrite H |].
    destruct (_nodes x !! "state") as [nodes|] eqn:Hnodes; [| by rewrite H].
    destruct (tn_contract nodes (joined x) (_free_wire_edges x)) as [t|] eqn:Ht;
      [| by rewrite H].
    destruct H as (ket & x' & -> & _ & Hkt & _ & _ & Hf & Hcfg & _ & _ & _ & Hcase).
    simpl. destruct Hx as (Hi & Hn & Hlen & Hc0).
    assert (length (_free_wire_edges x') = length (_free_wire_edges x)) as Hlen'.
    { rewrite Hf, length_node_edges, Hkt. unfold ndim.
      rewrite (tn_contract_shape _ _ _ _ Ht). by rewrite length_fmap. }
    assert (same_configuration s x') as Hcfg'.
    { destruct Hc0 as (?&?&?&?), Hcfg as (?&?&?&?). repeat split; congruence. }
    destruct Hcase as [(_ & _ & Hsame) | (node & [= ->] & Hid & _ & Hsame)].
    + unfold same_network, registered in *. rewrite Hsame.
      split; [done |]. split; [done |]. split; [congruence | done].
    + assert (registered "state" x = [node]) as Hreg
        by (unfold registered; by rewrite Hnodes).
      assert (registered "state" x' = [ket]) as Hreg'
        by (unfold registered; by rewrite Hsame, lookup_insert_eq).
      split; [| split; [| split; [congruence | done]]].
      * rewrite Hreg', <- Hi, Hreg. simpl. by rewrite Hid.
      * intros Hne. specialize (Hn Hne). exfalso. apply Hne.
        by rewrite <- Hn, Hreg.
  - unfold _contract_premeasurement_network. run.
    rewrite Hc. rewrite (decide_False (P := _rep x = "exact")) by done.
    destruct (decide (_rep x = "mps")); [| exact Hx].
    destruct (mps x) as [[|node [|node' chain]]|]; simpl; try exact Hx.
    destruct (foldl _ _ _); unfold tn_Node; run; exact Hx.
Qed.

(** X11: a measurement leaves the network of the state alone.  Whether
    they return or raise, [_state], [expval], [var] and [sample] leave
    the nodes registered under ["state"] the nodes they were, in their
    order, the wire-edge table with as many entries, and the
    configuration (wires, shots, representation, contraction method) as
    it was: the nodes of the observables go under ["observables"].
    When the nodes under ["state"] are not just one, they keep their
    names and tensors too. *)
Theorem measurements_keep_the_network (s : DefaultTensor C R) rng m :
  same_network s (state_of (_state s))
  ∧ same_network s (state_of (expval m s))
  ∧ same_network s (state_of (var m s))
  ∧ same_network s (state_of (sample rng m s)).
Proof.
  pose proof (same_network_observable s) as Hobs.
  assert (same_network s s) as Hs by done.
  assert (grows (same_network s)) as Hgrows by (by intros ???).
  assert (ignores set_warned (same_network s)) as Hwarned by (by intros ??).
  pose proof (same_network_contract s) as Hcontract.
  split; [| split; [| split]].
  - by apply (_state_frame (same_network s)).
  - assert (preserves (same_network s) (expval m)) as H; [| by apply H].
    unfold expval, _create_nodes_from_tensors, reshape_operator. preserves_auto.
  - assert (preserves (same_network s) (var m)) as H; [| by apply H].
    unfold var, _create_nodes_from_tensors, reshape_operator. preserves_auto.
  - assert (preserves (same_network s) (sample rng m)) as H; [| by apply H].
    unfold sample, joint_probability, reshape_operator. preserves_auto.
Qed.

(** X12: the observables the chain representation refuses.  In the chain
    representation [ev] raises the NotImplementedError on nearest
    neighbours (NotSupported) and leaves the device as it was when some
    observable is on more than two wires, and, on a device that has its
    chain, when the first of several observables, or a single one, is
    on two wires that are not next to each other. *)
Theorem chain_refuses_wide_observables (s : DefaultTensor C R)
    obs_nodes wires node more a b rest :
  _rep s = "mps" →
  (Exists (λ wires_seq, 2 < length wires_seq) wires →
   ev obs_nodes wires s = Raise (NotImplementedError nearest_neighbour_measurement) s)
  ∧ (is_Some (mps s) → 1 < a - b ∨ 1 < b - a →
     Forall (λ wires_seq, length wires_seq ≤ 2) rest →
     ev (node :: more) ([a; b] :: rest) s
     = Raise (NotImplementedError nearest_neighbour_measurement) s)
  ∧ taxonomy (NotImplementedError nearest_neighbour_measurement) = Some NotSupported.
Proof.
  intros Hrep. split; [| split; [| done]].
  - intros Hwide. rewrite ev_unfold.
    rewrite decide_False by (rewrite Hrep; by intros ?).
    rewrite decide_True by done.
    apply bind_Raise. unfold _ev_mps. by rewrite decide_True.
  - intros [chain Hchain] Hfar Hrest. rewrite ev_unfold.
    rewrite decide_False by (rewrite Hrep; by intros ?).
    rewrite decide_True by done.
    apply bind_Raise. unfold _ev_mps.
    rewrite decide_False.
    2: { intros Hex. apply Exists_cons in Hex as [Hex | Hex]; [simpl in Hex; lia |].
         apply Exists_exists in Hex as (ws & Hin & Hlen).
         rewrite Forall_forall in Hrest. specialize (Hrest _ Hin). lia. }
    unfold mbind at 1, M_bind at 1, get.
    assert (∀ (x : DefaultTensor C R),
              (match node :: more with
               | [_] => w0 ← or_raise IndexError (([a; b] :: rest) !! 0);
                        mret (bool_decide (length w0 = 1))
               | _ => mret false
               end) x = Ok false x) as Hlocal.
    { intros x. by destruct more. }
    rewrite (bind_Ok _ _ _ _ _ (Hlocal s)).
    rewrite Hchain. unfold mbind at 1, M_bind at 1. simpl.
    apply bind_Raise. unfold chain_expectation.
    apply bind_Raise. simpl.
    apply bind_Raise. unfold connect_mps_observable.
    apply bind_Raise. by rewrite bool_decide_eq_true_2.
Qed.
End Measuring.

Lemma chain_refuses_wide_observables_witness :
  ev [mkNode 0 "CNOT(0, 2)" (mkTensor [2; 2; 2; 2] (data CNOT))] [[0; 2]] chain_of_three
  = Raise (NotImplementedError nearest_neighbour_measurement) chain_of_three.
Proof.
  assert (_rep chain_of_three = "mps") as Hrep by (vm_compute; reflexivity).
  destruct (chain_refuses_wide_observables chain_of_three [] []
              (mkNode 0 "CNOT(0, 2)" (mkTensor [2; 2; 2; 2] (data CNOT))) [] 0 2 [] Hrep)
    as (_ & Hfar & _).
  apply Hfar.
  - vm_compute. eexists. reflexivity.
  - right. vm_compute. lia.
  - constructor.
Defined.

Section RealPart.
Context {C R : Type} `{!Backend C R}.

(** X13: an expectation value is the real part of a complex number.
    [ev] runs [_ev_exact] or [_ev_mps], by the representation.  When
    that contraction returns the number [z], [ev] returns the real part
    of [z] and leaves the device as the contraction left it, but for
    the warnings: the imaginary part is dropped, and reported through
    [warnings.warn] exactly when [abs(imag(z)) > TOL]; it never makes
    [ev] raise, and the contraction itself reports nothing.  When the
    contraction raises, so does [ev].  So a value [ev] returns is the
    real part of what the contraction returned. *)
Theorem expectation_is_the_real_part (s : DefaultTensor C R) obs_nodes wires :
  let contraction : M (DefaultTensor C R) C :=
    if decide (_rep s = "exact") then _ev_exact obs_nodes wires
    else if decide (_rep s = "mps") then _ev_mps obs_nodes wires
    else raise (OtherError "UnboundLocalError") in
  (∀ z s1, contraction s = Ok z s1 →
     warned s1 = warned s
     ∧ ev obs_nodes wires s
       = Ok (c_real z)
           (if r_abs_gt_TOL (c_imag z)
            then set_warned (warned s ++ [c_imag z]) s1 else s1))
  ∧ (∀ e s1, contraction s = Raise e s1 → ev obs_nodes wires s = Raise e s1)
  ∧ (∀ v s', ev obs_nodes wires s = Ok v s' →
       ∃ z s1, contraction s = Ok z s1 ∧ v = c_real z).
Proof.
  intros contraction.
  assert (∀ z s1, contraction s = Ok z s1 → warned s1 = warned s) as Hwarned.
  { intros z s1 Hz.
    assert (preserves (λ x : DefaultTensor C R, warned x = warned s)
              _contract_premeasurement_network) as Hcontract.
    { apply _contract_premeasurement_network_frame;
        [by intros ??? | by intros ?? | by intros ?? | by intros ?? | by intros ??
        | by intros ??]. }
    assert (preserves (λ x : DefaultTensor C R, warned x = warned s) contraction)
      as Hframe.
    { unfold contraction. destruct (decide _); [by apply _ev_exact_frame |].
      destruct (decide _); [apply _ev_mps_frame | apply preserves_raise]. }
    specialize (Hframe s eq_refl). by rewrite Hz in Hframe. }
  split; [| split].
  - intros z s1 Hz. split; [by eapply Hwarned |].
    rewrite ev_unfold. fold contraction.
    unfold mbind at 1, M_bind at 1. rewrite Hz.
    unfold when_, mbind, M_bind, modify, mret, M_ret.
    destruct (r_abs_gt_TOL (c_imag z)); [| done].
    by rewrite (Hwarned z s1 Hz).
  - intros e s1 He. rewrite ev_unfold. fold contraction.
    unfold mbind at 1, M_bind at 1. by rewrite He.
  - intros v s' H. rewrite ev_unfold in H. fold contraction in H.
    apply bind_inv_Ok in H as (z & s1 & Hz & H).
    exists z, s1. split; [done |].
    unfold when_, mbind, M_bind, modify, mret, M_ret in H.
    by destruct (r_abs_gt_TOL (c_imag z)); injection H as <- _.
Qed.
End RealPart.

Lemma expectation_is_the_real_part_witness :
  ev [mkNode 0 "PauliZ(1,)" Z_] [[1]] two_wires_flipped
  = Ok (-1)%Z (state_of (_ev_exact [mkNode 0 "PauliZ(1,)" Z_] [[1]] two_wires_flipped)).
Proof.
  destruct (expectation_is_the_real_part two_wires_flipped
              [mkNode 0 "PauliZ(1,)" Z_] [[1]]) as (Hreturns & _ & _).
  destruct (Hreturns (-1, 0)%Z
              (state_of (_ev_exact [mkNode 0 "PauliZ(1,)" Z_] [[1]] two_wires_flipped)))
    as [_ Hev].
  - vm_compute. reflexivity.
  - exact Hev.
Defined.

(** ** Product states, contracted *)

Section ProductContraction.
Context {C R : Type} `{!Backend C R}.

#[local] Arguments tn_contract : simpl never.

(** The node and the state [add_exact_component] leaves. *)
Lemma add_exact_component_Ok t ws name (s s' : DefaultTensor C R) :
  add_exact_component (t, ws, name) s = Ok tt s' →
  let node := mkNode (next_id s) (name +:+ tuple_repr ws) t in
  s' = set_free_wire_edges (_free_wire_edges s ++ node_edges node)
         (set_nodes (<["state" := registered "state" s ++ [node]]> (_nodes s))
            (set_next_id (S (next_id s)) s)).
Proof.
  unfold add_exact_component. destruct (decide _); [done |].
  unfold _add_node, tn_Node. run. by intros [= <-].
Qed.

(** The nodes the loop over the components makes, numbered from [id]. *)
Definition component_nodes (id : nat) (cs : list (Tensor C * list nat * string))
  : list (Node C) :=
  imap (λ k c, mkNode (id + k) (c.2 +:+ tuple_repr c.1.2) c.1.1) cs.

Lemma component_nodes_cons id c cs :
  component_nodes id (c :: cs)
  = mkNode id (c.2 +:+ tuple_repr c.1.2) c.1.1 :: component_nodes (S id) cs.
Proof.
  unfold component_nodes. rewrite imap_cons. f_equal; [f_equal; lia |].
  apply imap_ext. intros k x _. simpl. f_equal. lia.
Qed.

Lemma exact_components_explicit cs (s s' : DefaultTensor C R) :
  for_each cs add_exact_component s = Ok tt s' →
  registered "state" s' = registered "state" s ++ component_nodes (next_id s) cs
  ∧ _free_wire_edges s'
    = _free_wire_edges s ++ (component_nodes (next_id s) cs ≫= node_edges)
  ∧ joined s' = joined s
  ∧ _contracted_state_node s' = _contracted_state_node s
  ∧ same_configuration s s'.
Proof.
  revert s. induction cs as [|[[t ws] name] cs IH]; intros s.
  { simpl. intros [= <-]. by rewrite !app_nil_r. }
  cbn [for_each]. intros H. apply bind_inv_Ok in H as ([] & s1 & H1 & H).
  apply add_exact_component_Ok in H1. cbv zeta in H1.
  destruct (IH _ H) as (IH1 & IH2 & IH3 & IH4 & IH5). subst s1.
  rewrite !component_nodes_cons.
  set (node := mkNode (next_id s) (name +:+ tuple_repr ws) t) in *.
  assert (registered "state"
            (set_free_wire_edges (_free_wire_edges s ++ node_edges node)
               (set_nodes (<["state" := registered "state" s ++ [node]]> (_nodes s))
                  (set_next_id (S (next_id s)) s)))
          = registered "state" s ++ [node]) as Hreg.
  { unfold registered. simpl. by rewrite lookup_insert_eq. }
  rewrite Hreg in IH1.
  cbn [_nodes _free_wire_edges joined _contracted_state_node
    next_id set_free_wire_edges set_nodes set_next_id fst snd] in *.
  split; [by rewrite IH1, <- app_assoc |].
  split; [rewrite IH2, <- app_assoc; by csimpl |].
  split; [done |]. split; [done |].
  destruct IH5 as (? & ? & ? & ?). by repeat split.
Qed.

(** One node per axis: the nodes [nodes] all have rank one. *)
Definition vectors (nodes : list (Node C)) : Prop :=
  Forall (λ n, ndim (node_tensor n) = 1) nodes.

Lemma vectors_edges (nodes : list (Node C)) :
  vectors nodes → nodes ≫= node_edges = (λ n, node_edge n 0) <$> nodes.
Proof.
  induction 1 as [|n nodes Hn _ IH]; [done |].
  csimpl. rewrite IH. unfold node_edges. by rewrite Hn.
Qed.

Lemma vector_edge_lookup (nodes : list (Node C)) k n :
  NoDup (node_id <$> nodes) → nodes !! k = Some n →
  list_find (λ o, o = node_edge n 0) ((λ n, node_edge n 0) <$> nodes)
  = Some (k, node_edge n 0).
Proof.
  intros Hnd Hk. apply list_find_Some. split; [| split; [done |]].
  - by rewrite list_lookup_fmap, Hk.
  - intros j e Hj Hlt He. rewrite list_lookup_fmap in Hj.
    destruct (nodes !! j) as [m|] eqn:Hm; [| done]. injection Hj as <-.
    assert (node_id m = node_id n) as Hid by (by injection He).
    assert (j = k); [| lia].
    eapply NoDup_lookup; [exact Hnd | |]; rewrite list_lookup_fmap.
    + by rewrite Hm.
    + rewrite Hk. simpl. by rewrite Hid.
Qed.

(** The entry of the contraction of unconnected vectors at a
    multi-index: the product of the entries of the vectors. *)
Definition product_entry (nodes : list (Node C)) (oi : list nat) : C :=
  c_prod (zip_with (λ n i, tget (node_tensor n) [i]) nodes oi).

Lemma network_entry_product (nodes : list (Node C)) oi :
  vectors nodes → NoDup (node_id <$> nodes) → length oi = length nodes →
  network_entry nodes ((λ n, node_edge n 0) <$> nodes) [] oi []
  = Some (product_entry nodes oi).
Proof.
  intros Hv Hnd Hlen. unfold network_entry, product_entry.
  assert (mapM (λ n, tget (node_tensor n)
                       <$> mapM (axis_index ((λ n, node_edge n 0) <$> nodes) [] oi [])
                                (node_edges n)) nodes
          = Some (zip_with (λ n i, tget (node_tensor n) [i]) nodes oi)) as ->; [| done].
  apply mapM_Some. apply Forall2_same_length_lookup_2.
  { rewrite length_zip_with. lia. }
  intros k n x Hn Hx.
  apply lookup_zip_with_Some in Hx as (n' & i & -> & Hn' & Hi).
  rewrite Hn in Hn'. injection Hn' as <-.
  unfold vectors in Hv. rewrite Forall_forall in Hv.
  unfold node_edges. rewrite (Hv n) by (by eapply list_elem_of_lookup_2). simpl.
  unfold axis_index. rewrite (vector_edge_lookup nodes k n Hnd Hn). by rewrite Hi.
Qed.

Lemma tn_contract_product (nodes : list (Node C)) :
  vectors nodes → NoDup (node_id <$> nodes) →
  tn_contract nodes [] (nodes ≫= node_edges)
  = Some (mkTensor ((λ n, e_dim (node_edge n 0)) <$> nodes)
            ((λ oi, c_add (product_entry nodes oi) c_zero)
               <$> all_indices ((λ n, e_dim (node_edge n 0)) <$> nodes))).
Proof.
  intros Hv Hnd. unfold tn_contract. rewrite (vectors_edges nodes Hv).
  rewrite decide_True.
  - rewrite <- list_fmap_compose. simpl.
    rewrite (mapM_pointwise _ (λ oi, c_add (product_entry nodes oi) c_zero)); [done |].
    pose proof (Forall_all_indices ((λ n, e_dim (node_edge n 0)) <$> nodes)) as Hall.
    eapply Forall_impl; [exact Hall |]. intros oi Hoi. simpl.
    rewrite length_fmap in Hoi.
    by rewrite network_entry_product.
  - split.
    + apply (NoDup_fmap_1 e_node). rewrite <- list_fmap_compose.
      by rewrite (list_fmap_ext _ node_id nodes) by done.
    + apply Forall_forall. intros e He. split; [done | by constructor].
Qed.
End ProductContraction.

Section BasisStates.
Context {C R : Type} `{!Backend C R}.

(** What the numbers of the backend are asked to satisfy here. *)
Definition unit_laws : Prop :=
  (∀ x : C, c_mul c_one x = x) ∧ (∀ x : C, c_mul c_zero x = c_zero)
  ∧ (∀ x : C, c_add x c_zero = x).

(** [zero_vec] for a wire at 0, [one_vec = zero_vec[::-1]] for a wire
    at 1. *)
Definition qubit (b : bool) : Tensor C :=
  if b then reversed _zero_state else _zero_state.

(** The state vector of a computational basis state: 1 at the
    multi-index that spells the bits, 0 elsewhere. *)
Definition basis_ket (bs : list bool) : Tensor C :=
  mkTensor (replicate (length bs) 2)
    ((λ oi, if decide (oi = Nat.b2n <$> bs) then c_one else c_zero)
       <$> all_indices (replicate (length bs) 2)).

Lemma tget_qubit b i :
  i < 2 → tget (qubit b) [i] = if decide (i = Nat.b2n b) then c_one else c_zero.
Proof.
  intros Hi. destruct b, i as [|[|i]]; try lia; reflexivity.
Qed.

Lemma product_entry_bits (nodes : list (Node C)) bs oi :
  unit_laws → node_tensor <$> nodes = qubit <$> bs →
  Forall (λ i, i < 2) oi → length oi = length bs →
  product_entry nodes oi = if decide (oi = Nat.b2n <$> bs) then c_one else c_zero.
Proof.
  intros (Hone & Hzero & _). unfold product_entry.
  revert nodes oi. induction bs as [|b bs IH]; intros nodes oi Hn Hoi Hlen.
  { destruct oi; [| done]. destruct nodes; [| done]. by rewrite decide_True. }
  destruct oi as [|i oi]; [done |]. destruct nodes as [|n nodes]; [done |].
  injection Hn as Hn Hnodes. apply Forall_cons in Hoi as [Hi Hoi].
  simpl in Hlen. cbn [zip_with c_prod foldr]. fold (c_prod (zip_with (λ n i, tget (node_tensor n) [i]) nodes oi)).
  rewrite (IH nodes oi) by (done || lia). rewrite Hn, tget_qubit by done.
  destruct (decide (i = Nat.b2n b)) as [-> | Hne].
  - rewrite Hone. destruct (decide (oi = Nat.b2n <$> bs)) as [-> | Hne].
    + by rewrite decide_True.
    + rewrite decide_False; [done |]. rewrite fmap_cons. by intros [= ?].
  - rewrite Hzero. rewrite decide_False; [done |]. rewrite fmap_cons. by intros [= ? ?].
Qed.

Lemma all_indices_qubits n :
  Forall (λ oi, Forall (λ i, i < 2) oi ∧ length oi = n) (all_indices (replicate n 2)).
Proof.
  induction n as [|n IH]; [by repeat constructor |].
  cbn [replicate all_indices]. apply Forall_forall. intros oi Hin.
  apply list_elem_of_bind in Hin as (i & Hin & Hi).
  apply list_elem_of_fmap in Hin as (js & -> & Hjs).
  apply elem_of_seq in Hi. rewrite Forall_forall in IH.
  destruct (IH js Hjs) as [H1 H2]. split; [constructor; [lia | done] | simpl; lia].
Qed.

(** The all-zeros state is the vector [1, 0, ..., 0]. *)
Lemma basis_ket_zeros n :
  basis_ket (replicate n false)
  = mkTensor (replicate n 2) (c_one :: replicate (2 ^ n - 1) c_zero).
Proof.
  unfold basis_ket. rewrite length_replicate. f_equal.
  rewrite fmap_replicate. cbn [Nat.b2n].
  induction n as [|n IH]; [done |].
  cbn [replicate all_indices seq]. csimpl. rewrite app_nil_r, fmap_app.
  rewrite <- !list_fmap_compose.
  pose proof (Nat.pow_nonzero 2 n ltac:(lia)) as Hpos.
  replace (2 ^ n + (2 ^ n + 0) - 1) with ((2 ^ n - 1) + 2 ^ n) by lia.
  rewrite replicate_add.
  change (c_one :: replicate (2 ^ n - 1) c_zero ++ replicate (2 ^ n) c_zero)
    with ((c_one :: replicate (2 ^ n - 1) c_zero) ++ replicate (2 ^ n) c_zero).
  f_equal.
  - rewrite <- IH. apply list_fmap_ext. intros _ oi _. simpl.
    destruct (decide (oi = replicate n 0)) as [-> | Hne].
    + by rewrite decide_True.
    + rewrite decide_False; [done |]. by intros [= ?].
  - rewrite <- (size_of_replicate n 2), <- length_all_indices.
    apply const_fmap. intros _ oi _. unfold compose.
    rewrite decide_False; [done |]. intros Heq. discriminate Heq.
Qed.

#[local] Arguments tn_contract : simpl never.

Lemma qubit_nodes (nodes : list (Node C)) bs :
  node_tensor <$> nodes = qubit <$> bs →
  vectors nodes ∧ length nodes = length bs
  ∧ (λ n, e_dim (node_edge n 0)) <$> nodes = replicate (length bs) 2.
Proof.
  revert nodes. induction bs as [|b bs IH]; intros [|n nodes] Hn;
    try discriminate Hn.
  { split; [constructor | done]. }
  injection Hn as Hn Hnodes. destruct (IH nodes Hnodes) as (Hv & Hlen & Hdims).
  split; [| split].
  - constructor; [| done]. rewrite Hn. by destruct b.
  - simpl. by rewrite Hlen.
  - rewrite fmap_cons, Hdims. simpl. f_equal. unfold node_edge. simpl.
    rewrite Hn. by destruct b.
Qed.

(** The first read of the state in the exact representation. *)
Lemma _state_exact (s : DefaultTensor C R) nodes t :
  _rep s = "exact" → _contraction_method s ∈ contract_fns →
  _contracted_state_node s = None →
  _nodes s !! "state" = Some nodes →
  tn_contract nodes (joined s) (_free_wire_edges s) = Some t →
  ∃ s', _state s = Ok (squeeze t) s'.
Proof.
  intros Hrep Hm Hc Hn Ht.
  pose proof (_contract_premeasurement_network_exact s Hrep Hc) as H.
  unfold exact_contraction in H.
  rewrite decide_False, Hn, Ht in H by (by intros ?).
  destruct H as (ket & s' & H & Hk & Hkt & _).
  exists s'. unfold _state. rewrite (bind_Ok _ _ _ _ _ H).
  unfold mbind, M_bind, gets, or_raise, mret, M_ret. by rewrite Hk, Hkt.
Qed.

(** The contraction of a network of unconnected qubits. *)
Lemma product_read (s : DefaultTensor C R) (nodes : list (Node C)) bs :
  unit_laws →
  _rep s = "exact" → _contraction_method s ∈ contract_fns →
  _contracted_state_node s = None →
  _nodes s !! "state" = Some nodes → joined s = [] →
  _free_wire_edges s = nodes ≫= node_edges →
  node_tensor <$> nodes = qubit <$> bs → NoDup (node_id <$> nodes) →
  ∃ s', _state s = Ok (basis_ket bs) s'.
Proof.
  intros Hlaws Hrep Hm Hc Hn Hj Hf Hts Hnd.
  destruct (qubit_nodes nodes bs Hts) as (Hv & Hlen & Hdims).
  pose proof (tn_contract_product nodes Hv Hnd) as Hcontract.
  rewrite Hdims in Hcontract.
  assert ((λ oi, c_add (product_entry nodes oi) c_zero)
            <$> all_indices (replicate (length bs) 2)
          = (λ oi, if decide (oi = Nat.b2n <$> bs) then c_one else c_zero)
              <$> all_indices (replicate (length bs) 2)) as Hdata.
  { apply Forall_fmap_ext. eapply Forall_impl; [apply all_indices_qubits |].
    intros oi [Hoi Hl]. simpl. destruct Hlaws as (? & ? & Hadd).
    rewrite Hadd. by apply product_entry_bits. }
  rewrite Hdata in Hcontract.
  rewrite <- Hf, <- Hj in Hcontract.
  destruct (_state_exact s nodes _ Hrep Hm Hc Hn Hcontract) as (s' & Hs').
  rewrite squeeze_qubits in Hs'. by exists s'.
Qed.

(** The state after a product state on all wires is prepared on the
    cleared device. *)
Lemma prepared_product_read (s s1 : DefaultTensor C R) bs names :
  unit_laws → _rep s = "exact" → _contraction_method s ∈ contract_fns →
  bs ≠ [] → length names = length bs →
  _add_initial_state_nodes (qubit <$> bs) ((λ w, [w]) <$> seq 0 (length bs)) names
    (cleared s) = Ok tt s1 →
  ∃ s2, _state s1 = Ok (basis_ket bs) s2.
Proof.
  intros Hlaws Hrep Hm Hbs Hnames. unfold _add_initial_state_nodes.
  destruct (decide _) as [|_]; [done |].
  unfold mbind at 1, M_bind at 1, gets. cbn [cleared _rep].
  rewrite decide_True by done.
  unfold mbind at 1, M_bind at 1, modify. intros H.
  apply exact_components_explicit in H as (Hreg & Hfree & Hj & Hc & Hcfg).
  set (cs := zip3 (qubit <$> bs) ((λ w, [w]) <$> seq 0 (length bs)) names) in *.
  cbn [cleared set_free_wire_edges registered _nodes _free_wire_edges joined
         _contracted_state_node next_id] in *.
  unfold registered in Hreg. simpl in Hreg. rewrite lookup_empty in Hreg. simpl in Hreg.
  assert (cs.*1.*1 = qubit <$> bs) as Hts
    by (apply zip3_tensors; rewrite ?length_fmap, ?length_seq; lia).
  assert (length cs = length bs) as Hlen.
  { rewrite <- (length_fmap qubit bs), <- Hts, !length_fmap. done. }
  assert (node_tensor <$> component_nodes (next_id s) cs = qubit <$> bs) as Htensors.
  { rewrite <- Hts. unfold component_nodes. apply list_eq. intros i.
    rewrite !list_lookup_fmap, list_lookup_imap.
    by destruct (cs !! i). }
  assert (node_id <$> component_nodes (next_id s) cs = seq (next_id s) (length cs))
    as Hids.
  { unfold component_nodes. apply list_eq. intros i.
    rewrite list_lookup_fmap, list_lookup_imap.
    destruct (cs !! i) as [c|] eqn:Hi; simpl.
    - apply lookup_lt_Some in Hi. by rewrite lookup_seq_lt.
    - apply lookup_ge_None in Hi. by rewrite lookup_seq_ge. }
  destruct Hcfg as (_ & _ & Hrep' & Hm').
  apply (product_read s1 (component_nodes (next_id s) cs) bs); try done.
  - cbn [cleared set_free_wire_edges _rep] in Hrep'. congruence.
  - cbn [cleared set_free_wire_edges _contraction_method] in Hm'. congruence.
  - destruct (_nodes s1 !! "state") as [l|]; simpl in Hreg; [by subst |].
    destruct cs; [by destruct bs | done].
  - rewrite Hids. apply NoDup_seq.
Qed.
End BasisStates.

Section ReadingBasisStates.
Context {C R : Type} `{!Backend C R}.

Lemma reset_read (s : DefaultTensor C R) :
  unit_laws → _rep s = "exact" → _contraction_method s ∈ contract_fns →
  0 < num_wires s →
  ∃ s1 s2, reset s = Ok tt s1
           ∧ _state s1
             = Ok (mkTensor (replicate (num_wires s) 2)
                     (c_one :: replicate (2 ^ num_wires s - 1) c_zero)) s2.
Proof.
  intros Hlaws Hrep Hm Hn.
  destruct (reset_total s) as ([] & s1 & Hreset). exists s1.
  pose proof Hreset as H. unfold reset in H.
  rewrite (bind_Ok _ _ _ _ _ (_clear_network_data_spec s)) in H.
  apply bind_inv_Ok in H as (n & s0 & [= <- <-] & H).
  cbn [cleared num_wires] in H.
  assert (replicate (num_wires s) (_zero_state (C := C))
          = qubit <$> replicate (num_wires s) false) as Hts
    by (by rewrite fmap_replicate).
  rewrite Hts in H.
  rewrite <- (length_replicate (num_wires s) false) in H at 2.
  apply prepared_product_read in H as [s2 Hs2]; try done.
  - exists s2. split; [done |]. by rewrite Hs2, basis_ket_zeros.
  - destruct (num_wires s); [lia | done].
  - by rewrite !length_replicate.
Qed.

(** X14: after [reset] the state is the first basis vector.  In the exact
    representation, with one of the four contraction methods and at
    least one wire, on numbers with [1 * x = x], [0 * x = 0] and
    [x + 0 = x]: [reset] succeeds, whatever the device held, and
    [_state] then returns the tensor of shape [(2,) * num_wires] with
    the entries 1, 0, ..., 0. *)
Theorem reset_reads_all_zeros (s : DefaultTensor C R) :
  unit_laws → _rep s = "exact" → _contraction_method s ∈ contract_fns →
  0 < num_wires s →
  ∃ s1 s2, reset s = Ok tt s1
           ∧ _state s1
             = Ok (mkTensor (replicate (num_wires s) 2)
                     (c_one :: replicate (2 ^ num_wires s - 1) c_zero)) s2.
Proof. apply reset_read. Qed.

(** X15: the constructor.  Without a shot the base class refuses the
    device.  With at least one shot, [__init__] raises the ValueError on
    the representation (InvalidConfig) exactly when the representation
    is neither ["exact"] nor ["mps"]; otherwise, for at least one wire,
    it returns a device with the wires, shots, representation and
    contraction method it was given, an empty cache and one entry per
    wire in the wire-edge table.  An exact device with a contraction
    method of the four reads as the first basis vector (on numbers with
    [1 * x = x], [0 * x = 0] and [x + 0 = x]). *)
Theorem construction (n k : nat) (representation method : string) :
  0 < k →
  (raised (__init__ (R := R) n k representation method)
   = Some (ValueError invalid_representation)
   ↔ representation ∉ ["exact"; "mps"])
  ∧ taxonomy (ValueError invalid_representation) = Some InvalidConfig
  ∧ raised (__init__ (R := R) n 0 representation method)
    = Some (OtherError "DeviceError")
  ∧ (representation ∈ ["exact"; "mps"] → 0 < n →
     ∃ s, __init__ (R := R) n k representation method = Ok tt s
          ∧ num_wires s = n ∧ shots s = k ∧ _rep s = representation
          ∧ _contraction_method s = method ∧ _contracted_state_node s = None
          ∧ length (_free_wire_edges s) = n
          ∧ (unit_laws → representation = "exact" → method ∈ contract_fns →
             ∃ s', _state s
                   = Ok (mkTensor (replicate n 2) (c_one :: replicate (2 ^ n - 1) c_zero))
                       s')).
Proof.
  intros Hshots. split; [| split; [done | split; [done |]]].
  - split.
    + intros Hraised Hin.
      destruct (__init___spec (R := R) n k representation method Hshots Hin)
        as (s & Hs & _).
      by rewrite Hs in Hraised.
    + by apply __init___rejects.
  - intros Hin Hpos.
    destruct (__init___spec (R := R) n k representation method Hshots Hin)
      as (s & Hs & Hn & Hk & Hrep & Hm & Hc).
    exists s. repeat (split; [done |]).
    pose proof Hs as Hreset. unfold __init__, Device__init__ in Hreset.
    rewrite decide_False in Hreset by lia.
    rewrite decide_False in Hreset by (by intros ?).
    split.
    + assert (table_in_order s) as (_ & Hlen & _); [| by rewrite Hlen].
      eapply reset_table; [| exact Hreset]. simpl.
      apply elem_of_cons in Hin as [-> | Hin]; [by left |].
      apply list_elem_of_singleton in Hin as ->. by right.
    + intros Hlaws -> Hmethod.
      destruct (reset_read (mkDevice n k "exact" method ∅ [] None None [] 0 []))
        as (s1 & s2 & Hs1 & Hs2); try done.
      rewrite Hreset in Hs1. injection Hs1 as <-. by exists s2.
Qed.

(** X16: a basis state is read back.  In the exact representation, with
    one of the four contraction methods, on numbers with [1 * x = x],
    [0 * x = 0] and [x + 0 = x]: [apply("BasisState", wires, [bits])]
    with [num_wires] zeros and ones succeeds, and [_state] then returns
    the tensor of shape [(2,) * num_wires] that is 1 at the multi-index
    spelling the bits and 0 elsewhere. *)
Theorem basis_state_is_read (s : DefaultTensor C R) wires par0 rest :
  unit_laws → _rep s = "exact" → _contraction_method s ∈ contract_fns →
  wires_accepted (num_wires s) wires → bits par0 (num_wires s) → 0 < num_wires s →
  ∃ s1 s2, apply "BasisState" wires (par0 :: rest) s = Ok tt s1
           ∧ _state s1
             = Ok (basis_ket ((λ x, negb (c_eqb x c_zero)) <$> data par0)) s2.
Proof.
  intros Hlaws Hrep Hm Hw Hbits Hpos.
  rewrite apply_preparation_accepted by (done || by right).
  rewrite (basis_state_validated _ _ (num_wires s)) by (done || simpl; lia).
  pose proof Hbits as (_ & Hdata & _).
  destruct (basis_tensors_full par0 (num_wires s) (cleared s))
    as (tensors & Ht & Hshape & Hl); [simpl in *; lia |].
  cbn [cleared num_wires] in *.
  rewrite (bind_Ok _ _ _ _ _ Ht).
  pose proof (basis_tensors_values _ _ _ _ _ Hdata Ht) as Hvalues.
  destruct (_add_initial_state_nodes_total tensors (num_wires s)
              (replicate (num_wires s) "BasisState") Hshape Hl
              (length_replicate _ _) (cleared s)) as ([] & s1 & Hs1).
  exists s1.
  pose proof Hs1 as H.
  set (bs := (λ x, negb (c_eqb x c_zero)) <$> data par0).
  assert (tensors = qubit <$> bs) as Hts.
  { rewrite Hvalues. unfold bs. rewrite <- list_fmap_compose.
    apply list_fmap_ext. intros _ x _. unfold basis_vector, qubit. simpl.
    by destruct (c_eqb x c_zero). }
  assert (length bs = num_wires s) as Hbs by (unfold bs; by rewrite length_fmap).
  rewrite Hts in H. rewrite <- Hbs in H at 1.
  apply prepared_product_read in H as [s2 Hs2]; try done.
  - by exists s2.
  - destruct bs; [simpl in Hbs; lia | done].
  - by rewrite length_replicate.
Qed.
End ReadingBasisStates.

Lemma construction_witness :
  ∃ s, __init__ 2 3 "exact" "auto" = Ok tt s
       ∧ num_wires s = 2
       ∧ length (_free_wire_edges (C := Cz) (R := Z) s) = 2.
Proof.
  assert (0 < 3) as H3 by lia. assert (0 < 2) as H2 by lia.
  assert ("exact" ∈ ["exact"; "mps"]) as Hin
    by (apply (bool_decide_unpack _); vm_compute; exact I).
  destruct (construction (C := Cz) (R := Z) 2 3 "exact" "auto" H3) as (_ & _ & _ & Hok).
  destruct (Hok Hin H2) as (s & Hs & Hn & _ & _ & _ & _ & Hlen & _).
  exists s. exact (conj Hs (conj Hn Hlen)).
Defined.

Lemma GaussianIntegers_unit_laws : unit_laws (C := Cz) (R := Z).
Proof.
  split; [| split]; intros [a b]; cbn; f_equal; lia.
Qed.

Lemma reset_reads_all_zeros_witness :
  ∃ s1 s2, reset two_wires_flipped = Ok tt s1
           ∧ _state s1 = Ok (mkTensor [2; 2] [(1, 0); (0, 0); (0, 0); (0, 0)]%Z) s2.
Proof.
  destruct (reset_reads_all_zeros two_wires_flipped) as (s1 & s2 & H1 & H2).
  - exact GaussianIntegers_unit_laws.
  - vm_compute. reflexivity.
  - apply (bool_decide_unpack _). vm_compute. exact I.
  - vm_compute. lia.
  - exists s1, s2. split; [exact H1 | exact H2].
Defined.

Lemma basis_state_is_read_witness :
  ∃ s1 s2,
    apply "BasisState" (Some [0; 1]) [mkTensor [2] [(1, 0); (0, 0)]%Z] two_wires
    = Ok tt s1
    ∧ _state s1 = Ok (mkTensor [2; 2] [(0, 0); (0, 0); (1, 0); (0, 0)]%Z) s2.
Proof.
  destruct (basis_state_is_read two_wires (Some [0; 1])
              (mkTensor [2] [(1, 0); (0, 0)]%Z) []) as (s1 & s2 & H1 & H2).
  - exact GaussianIntegers_unit_laws.
  - vm_compute. reflexivity.
  - apply (bool_decide_unpack _). vm_compute. exact I.
  - right. right. vm_compute. reflexivity.
  - split; [reflexivity |]. split; [reflexivity |].
    constructor; [right; vm_compute; exact I |].
    constructor; [left; vm_compute; exact I | constructor].
  - vm_compute. lia.
  - exists s1, s2. split; [exact H1 | exact H2].
Defined.

(** ** The wiring of a gate in the exact representation *)

Section Wiring.
Context {C R : Type} `{!Backend C R}.

Lemma connect_gate_wire_Ok (op : Node C) k i w (x x' : DefaultTensor C R) :
  connect_gate_wire op k (i, w) x = Ok tt x' →
  ∃ old, _free_wire_edges x !! w = Some old
         ∧ x' = set_free_wire_edges (<[w := node_edge op i]> (_free_wire_edges x))
                  (set_joined (joined x ++ [(node_edge op (k + i), old)]) x).
Proof.
  unfold connect_gate_wire. intros H.
  apply bind_inv_Ok in H as (x0 & x1 & [= <- <-] & H).
  apply bind_inv_Ok in H as (old & x1 & Hold & H).
  apply or_raise_inv_Ok in Hold as [Hold ->].
  apply bind_inv_Ok in H as (j & x1 & Hj & H).
  apply or_raise_inv_Ok in Hj as [Hj ->].
  unfold tn_connect in Hj. destruct (decide _); [| done]. injection Hj as <-.
  injection H as <-. by exists old.
Qed.

(** The loop over the wires of a gate: the edge that was in the table at
    a wire is joined to the input axis of the gate for that wire, and the
    output axis takes its place. *)
Lemma connect_gate_wires (op : Node C) k ws i (x x' : DefaultTensor C R) :
  NoDup ws →
  for_each (imap (λ idx w, (i + idx, w)) ws) (connect_gate_wire op k) x = Ok tt x' →
  _nodes x' = _nodes x
  ∧ _contracted_state_node x' = _contracted_state_node x
  ∧ length (joined x') = length (joined x) + length ws
  ∧ (∀ c, c ∈ joined x → c ∈ joined x')
  ∧ (∀ w, w ∉ ws → _free_wire_edges x' !! w = _free_wire_edges x !! w)
  ∧ (∀ idx w, ws !! idx = Some w →
       ∃ old, _free_wire_edges x !! w = Some old
              ∧ _free_wire_edges x' !! w = Some (node_edge op (i + idx))
              ∧ (node_edge op (k + (i + idx)), old) ∈ joined x').
Proof.
  intros Hnd. revert i x. induction Hnd as [|w ws Hw Hnd IH]; intros i x.
  { simpl. intros [= <-]. split; [done |]. split; [done |]. split; [lia |].
    split; [done |]. split; [done |]. by intros idx w. }
  rewrite imap_cons. cbn [for_each]. intros H.
  apply bind_inv_Ok in H as ([] & x1 & H1 & H).
  rewrite Nat.add_0_r in H1.
  apply connect_gate_wire_Ok in H1 as (old & Hold & ->).
  rewrite (imap_ext _ (λ idx w0, (S i + idx, w0))) in H
    by (intros; simpl; f_equal; lia).
  destruct (IH _ _ H) as (Hn & Hc & Hlen & Hkeep & Hoff & Hon).
  cbn [_nodes _contracted_state_node joined _free_wire_edges set_free_wire_edges
         set_joined] in *.
  split; [done |]. split; [done |]. split; [| split; [| split]].
  - rewrite Hlen, length_app. simpl. lia.
  - intros c Hin. apply Hkeep. apply elem_of_app. by left.
  - intros w' Hw'. apply not_elem_of_cons in Hw' as [Hne Hw'].
    rewrite Hoff by done. by rewrite list_lookup_insert_ne.
  - intros [|idx] w' Hidx.
    + injection Hidx as <-. exists old. split; [done |]. split.
      * rewrite Hoff by done. rewrite Nat.add_0_r.
        apply list_lookup_insert_eq. by eapply lookup_lt_Some.
      * apply Hkeep. rewrite Nat.add_0_r. apply elem_of_app. right. by left.
    + simpl in Hidx. destruct (Hon idx w' Hidx) as (old' & Hold' & Hnew & Hjoin).
      assert (w' ≠ w) as Hne.
      { intros ->. apply Hw. by eapply list_elem_of_lookup_2. }
      rewrite list_lookup_insert_ne in Hold' by done.
      exists old'. replace (i + S idx) with (S i + idx) by lia. done.
Qed.

(** X17: how a gate is wired in the exact representation.  When
    [apply] succeeds for a gate on distinct wires, one node is appended
    to the registry under ["state"]: it holds the matrix of the
    operation reshaped to [(2,) * (2 * len(wires))] and is named by the
    operation and the tuple of wires.  For the wire at place [idx] of
    [wires], the edge that was in the wire-edge table is joined to axis
    [len(wires) + idx] of the node, and axis [idx] of the node takes its
    place in the table; the entries of the other wires stay, one pair of
    edges is joined per wire, no pair is taken apart, and the cache is
    not touched. *)
Theorem exact_gate_wiring (s s' : DefaultTensor C R) operation ws par :
  _rep s = "exact" → ¬ state_preparation operation → NoDup ws →
  apply operation (Some ws) par s = Ok tt s' →
  ∃ A node,
    _get_operator_matrix operation par s = Ok A s
    ∧ reshape A (replicate (length ws * 2) 2) = Some (node_tensor node)
    ∧ node_name node = operation +:+ tuple_repr ws
    ∧ registered "state" s' = registered "state" s ++ [node]
    ∧ _contracted_state_node s' = _contracted_state_node s
    ∧ length (joined s') = length (joined s) + length ws
    ∧ (∀ c, c ∈ joined s → c ∈ joined s')
    ∧ (∀ w, w ∉ ws → _free_wire_edges s' !! w = _free_wire_edges s !! w)
    ∧ (∀ idx w, ws !! idx = Some w →
         ∃ old, _free_wire_edges s !! w = Some old
                ∧ _free_wire_edges s' !! w = Some (node_edge node idx)
                ∧ (node_edge node (length ws + idx), old) ∈ joined s').
Proof.
  intros Hrep Hop Hnd. rewrite apply_gate by done. unfold _add_gate_nodes. intros H.
  apply bind_inv_Ok in H as (A & s0 & HA & H).
  assert (s0 = s) as ->.
  { apply unchanged_Ok in HA; [done |]. intros P. apply _get_operator_matrix_frame. }
  apply bind_inv_Ok in H as (ws' & s0 & [= <- <-] & H).
  apply bind_inv_Ok in H as (A' & s0 & HA' & H).
  apply or_raise_inv_Ok in HA' as [HA' ->].
  apply bind_inv_Ok in H as (node & s1 & Hnode & H).
  apply bind_inv_Ok in H as (rep & s2 & [= <- <-] & H).
  pose proof (_add_node_array _ _ _ _ _ _ _ Hnode) as (_ & _ & _ & Hfree & Hj & Hr & _).
  apply _add_node_registered in Hnode
    as (Hreg & _ & Ht & Hname & _ & _ & _ & Hc).
  rewrite decide_True in H by congruence.
  apply (connect_gate_wires node (length ws) ws 0 _ _ Hnd) in H
    as (Hn & Hc' & Hlen & Hkeep & Hoff & Hon).
  exists A, node. split; [done |]. split; [by rewrite Ht |]. split; [done |].
  split; [unfold registered in *; by rewrite Hn |].
  split; [congruence |]. split; [congruence |]. split; [by rewrite <- Hj |].
  split; [intros w Hw; rewrite <- Hfree; by apply Hoff |].
  intros idx w Hidx. destruct (Hon idx w Hidx) as (old & Hold & Hnew & Hjoin).
  exists old. rewrite <- Hfree. done.
Qed.
End Wiring.

Lemma exact_gate_wiring_witness :
  ∃ old, _free_wire_edges two_wires !! 1 = Some old
         ∧ _free_wire_edges (state_of (apply "CNOT" (Some [1; 0]) [] two_wires)) !! 1
           = Some (mkEdge 2 0 2)
         ∧ (mkEdge 2 2 2, old)
           ∈ joined (state_of (apply "CNOT" (Some [1; 0]) [] two_wires)).
Proof.
  assert (_rep two_wires = "exact") as Hrep by (vm_compute; reflexivity).
  assert (¬ state_preparation "CNOT") as Hop by (intros [H | H]; discriminate H).
  assert (NoDup [1; 0]) as Hnd by (apply (bool_decide_unpack _); vm_compute; exact I).
  assert (apply "CNOT" (Some [1; 0]) [] two_wires
          = Ok tt (state_of (apply "CNOT" (Some [1; 0]) [] two_wires))) as H
    by (vm_compute; reflexivity).
  destruct (exact_gate_wiring two_wires
              (state_of (apply "CNOT" (Some [1; 0]) [] two_wires))
              "CNOT" [1; 0] [] Hrep Hop Hnd H)
    as (A & node & HA & Ht & _ & Hreg & _ & _ & _ & _ & Hon).
  destruct (Hon 0 1 eq_refl) as (old & Hold & Hnew & Hjoin).
  exists old. split; [exact Hold |].
  assert (node = mkNode 2 "CNOT(1, 0)" (mkTensor [2; 2; 2; 2] (data CNOT))) as ->.
  { assert (registered "state" (state_of (apply "CNOT" (Some [1; 0]) [] two_wires))
            = registered "state" two_wires
              ++ [mkNode 2 "CNOT(1, 0)" (mkTensor [2; 2; 2; 2] (data CNOT))]) as Hreg'
      by (vm_compute; reflexivity).
    rewrite Hreg' in Hreg. by apply app_inv_head in Hreg as [= <-]. }
  split; [exact Hnew | exact Hjoin].
Defined.

Section Components.
Context {C R : Type} `{!Backend C R}.

(** X18: the components [_add_initial_state_nodes] refuses before it
    touches the device.  Sequences of different lengths raise the
    ValueError on the lengths.  In the chain representation, a first
    component of the right rank that is not a single qubit and whose
    wires do not span a range without gaps
    ([max(wires) - min(wires) != len(wires) - 1]) raises the
    NotImplementedError on consecutive wires (NotSupported).  The device
    is as it was in both cases. *)
Theorem initial_state_nodes_refused (s : DefaultTensor C R)
    tensors wires names t ws name :
  (¬ (length tensors = length wires ∧ length wires = length names) →
   _add_initial_state_nodes tensors wires names s = Raise (ValueError lengths_differ) s)
  ∧ (_rep s = "mps" →
     length tensors = length wires → length wires = length names →
     ndim t = length ws → shape (as_chain_tensor t) ≠ [1; 2; 1] → ws ≠ [] →
     max_of ws - min_of ws ≠ length ws - 1 →
     _add_initial_state_nodes (t :: tensors) (ws :: wires) (name :: names) s
     = Raise (NotImplementedError consecutive_wires_only) s
     ∧ taxonomy (NotImplementedError consecutive_wires_only) = Some NotSupported).
Proof.
  split.
  - intros Hlen. unfold _add_initial_state_nodes. by rewrite decide_True.
  - intros Hrep Hl1 Hl2 Hrank Hshape Hws Hgap. split; [| done].
    unfold _add_initial_state_nodes.
    rewrite decide_False by (intros Hn; apply Hn; simpl; lia).
    unfold mbind at 1, M_bind at 1, gets.
    rewrite decide_False by (rewrite Hrep; by intros ?).
    rewrite decide_True by done.
    apply bind_Raise. cbn [zip3 zip zip_with map_m]. apply bind_Raise.
    unfold add_mps_component.
    rewrite decide_False by (by intros ?).
    rewrite decide_False by done.
    rewrite decide_False by done.
    by rewrite decide_True.
Qed.
End Components.

Lemma initial_state_nodes_refused_witness :
  _add_initial_state_nodes [mkTensor [2; 2] (data X); ket_0] [[0; 2]; [1]]
    ["Pair"; "Single"] chain_of_three
  = Raise (NotImplementedError consecutive_wires_only) chain_of_three.
Proof.
  destruct (initial_state_nodes_refused chain_of_three [ket_0] [[1]] ["Single"]
              (mkTensor [2; 2] (data X)) [0; 2] "Pair") as [_ H].
  apply H.
  - vm_compute. reflexivity.
  - reflexivity.
  - reflexivity.
  - reflexivity.
  - vm_compute. discriminate.
  - discriminate.
  - vm_compute. lia.
Defined.

(** ** The wire-edge table and the network of the state *)

Section Network.
Context {C R : Type} `{!Backend C R}.

(** The nodes of the network of the state: the nodes registered under
    ["state"]; once they are contracted, the contracted node and the
    nodes of the gates registered since. *)
Definition network (s : DefaultTensor C R) : list (Node C) :=
  match _contracted_state_node s with
  | None => registered "state" s
  | Some ket => ket :: filter (λ n, node_id ket < node_id n) (registered "state" s)
  end.

(** The wire-edge table of a device: it is in order (one entry per
    wire, no entry twice, every entry dangling; in the chain
    representation entry [i] is the edge of the wire axis of chain node
    [i]), and in the exact representation its entries are exactly the
    dangling edges of the network of the state. *)
Definition wire_table_ok (s : DefaultTensor C R) : Prop :=
  table_in_order s
  ∧ (_rep s = "exact" →
     Forall (λ n, node_id n < next_id s) (network s)
     ∧ ∀ e, e ∈ _free_wire_edges s
            ↔ e ∈ network s ≫= node_edges ∧ is_dangling (joined s) e).

Lemma joined_is_not_dangling (joined : list (Edge * Edge)) c e :
  c ∈ joined → c.1 = e ∨ c.2 = e → ¬ is_dangling joined e.
Proof.
  intros Hc He Hd. unfold is_dangling in Hd. rewrite Forall_forall in Hd.
  destruct (Hd c Hc) as [H1 H2]. by destruct He.
Qed.

Lemma is_dangling_fewer (joined : list (Edge * Edge)) c e :
  is_dangling (joined ++ [c]) e → is_dangling joined e ∧ c.1 ≠ e ∧ c.2 ≠ e.
Proof. apply is_dangling_app. Qed.

Lemma elem_of_insert_other {A : Type} (l : list A) w (old y e : A) :
  l !! w = Some old → e ∈ l → e ≠ old → e ∈ <[w := y]> l.
Proof.
  intros Hw Hin Hne. apply list_elem_of_lookup in Hin as [j Hj].
  apply list_elem_of_lookup. exists j.
  rewrite list_lookup_insert_ne; [done |]. intros ->. congruence.
Qed.

(** *** After a preparation *)

Lemma exact_components_next_id cs (s s' : DefaultTensor C R) :
  for_each cs add_exact_component s = Ok tt s' →
  next_id s' = next_id s + length cs.
Proof.
  revert s. induction cs as [|[[t ws] name] cs IH]; intros s.
  { simpl. intros [= <-]. lia. }
  cbn [for_each]. intros H. apply bind_inv_Ok in H as ([] & s1 & H1 & H).
  apply add_exact_component_Ok in H1. cbv zeta in H1. subst s1.
  apply IH in H. simpl in *. lia.
Qed.

Lemma component_nodes_ids id cs (n : Node C) :
  n ∈ component_nodes id cs → id ≤ node_id n < id + length cs.
Proof.
  unfold component_nodes. intros Hin.
  apply list_elem_of_lookup in Hin as [k Hk].
  rewrite list_lookup_imap in Hk.
  destruct (cs !! k) as [c|] eqn:Hc; [| done]. injection Hk as <-. simpl.
  apply lookup_lt_Some in Hc. lia.
Qed.

(** The exact representation after [_add_initial_state_nodes] on a
    device without nodes: the table holds the edges of the new nodes,
    all of them, and nothing is joined. *)
Lemma prepared_network (s s' : DefaultTensor C R) tensors wires names :
  _rep s = "exact" → _nodes s = ∅ → joined s = [] → _contracted_state_node s = None →
  _add_initial_state_nodes tensors wires names s = Ok tt s' →
  Forall (λ n, node_id n < next_id s') (network s')
  ∧ ∀ e, e ∈ _free_wire_edges s'
         ↔ e ∈ network s' ≫= node_edges ∧ is_dangling (joined s') e.
Proof.
  intros Hex Hnodes Hj Hc. unfold _add_initial_state_nodes.
  destruct (decide _) as [|Hlen]; [done |].
  unfold mbind at 1, M_bind at 1, gets. rewrite decide_True by done.
  unfold mbind at 1, M_bind at 1, modify. intros H.
  pose proof (exact_components_next_id _ _ _ H) as Hnext.
  apply exact_components_explicit in H as (Hreg & Hfree & Hj' & Hc' & _).
  unfold registered in Hreg at 2. simpl in Hreg, Hfree, Hj', Hc', Hnext.
  rewrite Hnodes, lookup_empty in Hreg. simpl in Hreg.
  unfold network. rewrite Hc', Hc, Hreg, Hfree, Hj', Hj. split.
  - apply Forall_forall. intros n Hn. apply component_nodes_ids in Hn. lia.
  - intros e. split; [intros He; split; [done | constructor] | by intros [He _]].
Qed.

(** What [_add_state_prep_nodes] hands to [_add_initial_state_nodes]. *)
Lemma _add_state_prep_nodes_Ok (s s' : DefaultTensor C R) operation par :
  _add_state_prep_nodes operation par s = Ok tt s' →
  ∃ tensors wires names,
    _add_initial_state_nodes tensors wires names s = Ok tt s'.
Proof.
  unfold _add_state_prep_nodes. intros H.
  apply bind_inv_Ok in H as (n & s1 & [= <- <-] & H).
  destruct (decide (operation = "QubitStateVector")).
  { apply bind_inv_Ok in H as (v & s1 & Hv & H).
    apply or_raise_inv_Ok in Hv as [_ ->].
    destruct (decide _); [| done].
    apply bind_inv_Ok in H as (t & s1 & Ht & H).
    apply or_raise_inv_Ok in Ht as [_ ->]. by eexists _, _, _. }
  destruct (decide (operation = "BasisState")); [| done].
  apply bind_inv_Ok in H as (par0 & s1 & Hp & H).
  apply or_raise_inv_Ok in Hp as [_ ->].
  destruct (shape par0) as [|len rest]; [done |].
  repeat (destruct (decide _); [done |]).
  apply bind_inv_Ok in H as (tensors & s1 & Ht & H).
  rewrite (map_m_or_raise _ (basis_entry par0 len) IndexError) in Ht
    by (intros; apply basis_tensor_entry).
  apply or_raise_inv_Ok in Ht as [_ ->]. by eexists _, _, _.
Qed.

Lemma preparation_network (s s' : DefaultTensor C R) operation wires par :
  (_rep s = "exact" ∨ _rep s = "mps") → state_preparation operation →
  apply operation wires par s = Ok tt s' → wire_table_ok s'.
Proof.
  intros Hrep Hop H. split; [by eapply preparation_table |].
  destruct (decide (wires_accepted (num_wires s) wires)) as [Hw|Hw].
  2: { by rewrite apply_preparation_rejected in H. }
  rewrite apply_preparation_accepted in H by done.
  assert (_rep s' = _rep s) as Hr.
  { pose proof (_add_state_prep_nodes_frame (λ x, _rep x = _rep s) operation par
      ltac:(eauto with preserves) ltac:(eauto with preserves)
      ltac:(eauto with preserves) ltac:(eauto with preserves) (cleared s) eq_refl) as Hf.
    by rewrite H in Hf. }
  rewrite Hr. intros Hex.
  apply _add_state_prep_nodes_Ok in H as (tensors & ws & names & H).
  by eapply prepared_network; [| | | | exact H].
Qed.

Lemma reset_network (s s' : DefaultTensor C R) :
  (_rep s = "exact" ∨ _rep s = "mps") → reset s = Ok tt s' → wire_table_ok s'.
Proof.
  intros Hrep H. split; [by eapply reset_table |].
  destruct (reset_spec s) as (s1 & H1 & (_ & _ & Hr & _) & _).
  rewrite H in H1. injection H1 as <-. rewrite Hr. intros Hex.
  unfold reset in H.
  rewrite (bind_Ok _ _ _ _ _ (_clear_network_data_spec s)) in H.
  apply bind_inv_Ok in H as (n & s1 & [= <- <-] & H).
  by eapply prepared_network; [| | | | exact H].
Qed.

(** *** A gate in the exact representation *)

(** While the loop of [_add_gate_nodes] runs, before place [i] of the
    wires of a gate on [k] wires with the node [op]; [es] are the edges
    of the network before the gate. *)
Definition gate_wiring (op : Node C) (k : nat) (es : list Edge) (i : nat)
    (x : DefaultTensor C R) : Prop :=
  (∀ e, e ∈ _free_wire_edges x → e ∈ es ∨ ∃ a, a < i ∧ e = node_edge op a)
  ∧ (∀ e, e ∈ es → is_dangling (joined x) e → e ∈ _free_wire_edges x)
  ∧ (∀ a, a < i → is_dangling (joined x) (node_edge op a) →
          node_edge op a ∈ _free_wire_edges x)
  ∧ (∀ a, k ≤ a < k + i → ¬ is_dangling (joined x) (node_edge op a)).

Lemma connect_gate_network (op : Node C) k es ws i (x x' : DefaultTensor C R) :
  gate_wiring op k es i x →
  for_each (imap (λ idx w, (i + idx, w)) ws) (connect_gate_wire op k) x = Ok tt x' →
  gate_wiring op k es (i + length ws) x'
  ∧ _nodes x' = _nodes x ∧ _contracted_state_node x' = _contracted_state_node x
  ∧ next_id x' = next_id x
  ∧ (∀ c, c ∈ joined x → c ∈ joined x')
  ∧ (∀ w old, w ∈ ws → _free_wire_edges x !! w = Some old →
              ∃ c, c ∈ joined x' ∧ c.2 = old).
Proof.
  revert i x. induction ws as [|w ws IH]; intros i x Hinv.
  { simpl. intros [= <-]. rewrite Nat.add_0_r.
    split; [done |]. split; [done |]. split; [done |]. split; [done |].
    split; [done |]. intros w old Hw. by apply elem_of_nil in Hw. }
  rewrite imap_cons. cbn [for_each]. intros H.
  apply bind_inv_Ok in H as ([] & x1 & H1 & H).
  rewrite Nat.add_0_r in H1.
  apply connect_gate_wire_Ok in H1 as (old & Hold & ->).
  rewrite (imap_ext _ (λ idx w0, (S i + idx, w0))) in H
    by (intros; simpl; f_equal; lia).
  destruct Hinv as (Ha & Hb & Hc & Hd).
  apply IH in H as (Hinv' & Hn & Hcache & Hid & Hkeep & Hjoined).
  2: { unfold gate_wiring. simpl. split; [| split; [| split]].
       - intros e He. apply elem_of_insert_inv in He as [-> | He].
         + right. exists i. split; [lia | done].
         + destruct (Ha e He) as [? | (a & ? & ->)]; [by left |].
           right. exists a. split; [lia | done].
       - intros e He Hdang. apply is_dangling_fewer in Hdang as (Hdang & _ & Hne).
         simpl in Hne. apply (elem_of_insert_other _ _ old); [done | | done].
         by apply Hb.
       - intros a Ha' Hdang. apply is_dangling_fewer in Hdang as (Hdang & _ & Hne).
         simpl in Hne. destruct (decide (a = i)) as [-> | Hai].
         + apply list_elem_of_lookup. exists w.
           apply list_lookup_insert_eq. by eapply lookup_lt_Some.
         + apply (elem_of_insert_other _ _ old); [done | | done].
           apply Hc; [lia | done].
       - intros a Ha' Hdang. apply is_dangling_fewer in Hdang as (Hdang & Hne & _).
         simpl in Hne. destruct (decide (a = k + i)) as [-> | Hai]; [done |].
         apply (Hd a); [lia | done]. }
  simpl in Hn, Hcache, Hid. cbn [length].
  replace (i + S (length ws)) with (S i + length ws) by lia.
  split; [done |]. split; [done |]. split; [done |]. split; [done |]. split.
  - intros c Hin. apply Hkeep. simpl. apply elem_of_app. by left.
  - intros w' old' Hw' Hold'.
    destruct (decide (w' = w)) as [-> | Hne].
    + rewrite Hold in Hold'. injection Hold' as <-.
      exists (node_edge op (k + i), old). split; [| done].
      apply Hkeep. simpl. apply elem_of_app. right. by left.
    + apply elem_of_cons in Hw' as [? | Hw']; [done |].
      apply (Hjoined w' old' Hw'). simpl. by rewrite list_lookup_insert_ne.
Qed.

(** The way into the loop: the node of the gate is new, the last one
    registered, and has two axes per wire. *)
Lemma _add_gate_nodes_exact (s s' : DefaultTensor C R) operation ws par :
  _rep s = "exact" →
  _add_gate_nodes operation (Some ws) par s = Ok tt s' →
  ∃ op s1,
    node_id op = next_id s ∧ ndim (node_tensor op) = length ws * 2
    ∧ registered "state" s1 = registered "state" s ++ [op]
    ∧ _contracted_state_node s1 = _contracted_state_node s
    ∧ _free_wire_edges s1 = _free_wire_edges s ∧ joined s1 = joined s
    ∧ next_id s1 = S (next_id s)
    ∧ for_each (imap (λ idx w, (0 + idx, w)) ws) (connect_gate_wire op (length ws)) s1
      = Ok tt s'.
Proof.
  intros Hex. unfold _add_gate_nodes. intros H.
  apply bind_inv_Ok in H as (A & s0 & HA & H).
  destruct (stateless_Ok _ _ s _ _ (_get_operator_matrix_stateless _ _) HA) as [-> _].
  apply bind_inv_Ok in H as (ws' & s0 & [= <- <-] & H).
  apply bind_inv_Ok in H as (A' & s0 & HA' & H).
  apply or_raise_inv_Ok in HA' as [HA' ->].
  apply bind_inv_Ok in H as (op & s1 & Hnode & H).
  apply bind_inv_Ok in H as (rep & s2 & [= <- <-] & H).
  pose proof (_add_node_array _ _ _ _ _ _ _ Hnode)
    as (Hid & Ht & Hnext & Hfree & Hj & Hr & _).
  apply _add_node_registered in Hnode as (Hreg & _ & _ & _ & _ & _ & _ & Hc).
  rewrite decide_True in H by congruence.
  exists op, s1. repeat split; try done.
  rewrite Ht. unfold reshape in HA'. destruct (decide _); [| done].
  injection HA' as <-. unfold ndim. simpl. by rewrite length_replicate.
Qed.

Lemma network_gate (s s' : DefaultTensor C R) (op : Node C) :
  registered "state" s' = registered "state" s ++ [op] →
  _contracted_state_node s' = _contracted_state_node s →
  Forall (λ n, node_id n < node_id op) (network s) →
  network s' = network s ++ [op].
Proof.
  intros Hreg Hc Hids. unfold network in *. rewrite Hc, Hreg.
  destruct (_contracted_state_node s) as [ket|]; [| done].
  apply Forall_cons in Hids as [Hket _].
  rewrite filter_app. simpl. f_equal. f_equal.
  rewrite filter_cons_True by done. done.
Qed.

Lemma gate_network (s s' : DefaultTensor C R) operation ws par :
  wire_table_ok s → _rep s = "exact" →
  _add_gate_nodes operation (Some ws) par s = Ok tt s' →
  (Forall (λ n, node_id n < next_id s') (network s')
   ∧ ∀ e, e ∈ _free_wire_edges s'
          ↔ e ∈ network s' ≫= node_edges ∧ is_dangling (joined s') e)
  ∧ (∀ w old, w ∈ ws → _free_wire_edges s !! w = Some old →
              ¬ is_dangling (joined s') old).
Proof.
  intros [Horder Hnet] Hex H. destruct (Hnet Hex) as [Hids Htable].
  pose proof (gate_table_exact s s' operation (Some ws) par Horder Hex H)
    as (ws' & [= <-] & Horder' & _).
  apply _add_gate_nodes_exact in H
    as (op & s1 & Hid & Hrank & Hreg & Hc & Hfree & Hj & Hnext & H); [| done].
  apply (connect_gate_network op (length ws) (network s ≫= node_edges)) in H
    as ((Ha & Hb & Hc' & Hd) & Hn & Hcache & Hnext' & Hkeep & Hjoined).
  2: { unfold gate_wiring. rewrite Hfree, Hj. split; [| split; [| split]].
       - intros e He. left. by apply Htable.
       - intros e He Hdang. by apply Htable.
       - intros a Ha. lia.
       - intros a Ha. lia. }
  assert (network s' = network s ++ [op]) as Hnetwork.
  { apply network_gate.
    - unfold registered in *. by rewrite Hn.
    - congruence.
    - by rewrite Hid. }
  assert (∀ e, e ∈ node_edges op ↔ ∃ a, a < length ws * 2 ∧ e = node_edge op a)
    as Hedges.
  { intros e. unfold node_edges. rewrite Hrank, list_elem_of_fmap.
    split; intros (a & H1 & H2).
    - exists a. apply elem_of_seq in H2. split; [lia | done].
    - exists a. split; [done |]. apply elem_of_seq. lia. }
  split; [split |].
  - rewrite Hnetwork, Hnext', Hnext. apply Forall_app. split.
    + eapply Forall_impl; [exact Hids |]. simpl. intros; lia.
    + apply Forall_singleton. lia.
  - intros e. rewrite Hnetwork. rewrite bind_app. rewrite elem_of_app.
    simpl. rewrite app_nil_r. split.
    + intros He. split.
      * destruct (Ha e He) as [? | (a & Ha' & ->)]; [by left |].
        right. apply Hedges. exists a. split; [lia | done].
      * destruct Horder' as (_ & _ & _ & Hd' & _).
        rewrite Forall_forall in Hd'. by apply Hd'.
    + intros [[He | He] Hdang]; [by apply Hb |].
      apply Hedges in He as (a & Ha' & ->).
      destruct (decide (a < length ws)) as [Hlt|Hge]; [by apply Hc' |].
      exfalso. apply (Hd a); [lia | done].
  - intros w old Hw Hold. rewrite <- Hfree in Hold.
    destruct (Hjoined w old Hw Hold) as (c & Hin & Hc2).
    eapply joined_is_not_dangling; [exact Hin | by right].
Qed.

(** *** Reading the state in the exact representation *)

Lemma filter_none {A : Type} (P : A → Prop) `{!∀ x, Decision (P x)} (l : list A) :
  Forall (λ x, ¬ P x) l → filter P l = [].
Proof.
  induction 1 as [|x l Hx _ IH]; [done |]. by rewrite filter_cons_False.
Qed.

Lemma contract_network (s : DefaultTensor C R) :
  _rep s = "exact" → wire_table_ok s →
  wire_table_ok (state_of (_contract_premeasurement_network s)).
Proof.
  intros Hex Hs.
  destruct (_contracted_state_node s) as [ket|] eqn:Hc.
  { by rewrite (_contract_premeasurement_network_cached s ket). }
  pose proof (_contract_premeasurement_network_exact s Hex Hc) as H.
  unfold exact_contraction in H.
  destruct (decide (_contraction_method s ∉ contract_fns)); [by rewrite H |].
  destruct (_nodes s !! "state") as [nodes|] eqn:Hnodes; [| by rewrite H].
  destruct (tn_contract nodes (joined s) (_free_wire_edges s)) as [t|] eqn:Ht;
    [| by rewrite H].
  destruct H as (ket & s' & -> & Hk & Hkt & _ & Hj & Hf & Hcfg & Hmps & _ & Hle & Hcase).
  simpl. destruct Hs as [(Hrep & Hlen & Hnd & Hd & Hids & Hjids & Hchain) Hnet].
  destruct (Hnet Hex) as [Hnids _].
  unfold network in Hnids. rewrite Hc in Hnids.
  assert (registered "state" s = nodes) as Hreg
    by (unfold registered; by rewrite Hnodes).
  rewrite Hreg in Hnids.
  destruct Hcfg as (Hn' & _ & Hr' & _).
  assert (node_id ket < next_id s'
          ∧ filter (λ n, node_id ket < node_id n) (registered "state" s') = [])
    as [Hket Hfilter].
  { destruct Hcase as [(Hid & Hnext & Hsame) | (node & [= ->] & Hid & Hnext & Hsame)].
    - split; [lia |]. unfold registered. rewrite Hsame, Hnodes. simpl.
      apply filter_none. eapply Forall_impl; [exact Hnids |]. simpl. intros; lia.
    - apply Forall_inv in Hnids. simpl in Hnids. split; [lia |].
      unfold registered. rewrite Hsame, lookup_insert_eq. simpl.
      apply filter_none. apply Forall_singleton. lia. }
  split.
  - unfold table_in_order. rewrite Hf, Hj, Hr', Hn'. repeat split.
    + done.
    + rewrite length_node_edges, Hkt. unfold ndim.
      rewrite (tn_contract_shape _ _ _ _ Ht). by rewrite length_fmap.
    + apply NoDup_node_edges.
    + apply Forall_forall. intros e _. constructor.
    + apply Forall_forall. intros e He. apply node_edges_id in He. lia.
    + constructor.
    + intros Hm. congruence.
  - intros _. unfold network. rewrite Hk, Hfilter, Hf, Hj. simpl.
    rewrite app_nil_r. split.
    + by apply Forall_singleton.
    + intros e. split; [intros He; split; [done | constructor] | by intros [He _]].
Qed.

Lemma _state_network (s : DefaultTensor C R) :
  _rep s = "exact" → wire_table_ok s → wire_table_ok (state_of (_state s)).
Proof.
  intros Hex Hs. pose proof (contract_network s Hex Hs) as H.
  unfold _state, mbind, M_bind.
  destruct (_contract_premeasurement_network s) as [[] s1|e s1]; [| done].
  unfold gets, or_raise. simpl in *.
  by destruct (_contracted_state_node s1).
Qed.

(** *** The table across the life of a device *)

(** An entry that a gate replaces is in the table no more. *)
Lemma replaced_entry_is_gone (l l' : list Edge) (ws : list nat) w old :
  NoDup l → l !! w = Some old → w ∈ ws →
  (∀ w', w' ∉ ws → l' !! w' = l !! w') →
  (∀ w', w' ∈ ws → ∃ e, l' !! w' = Some e ∧ e ∉ l) →
  old ∉ l'.
Proof.
  intros Hnd Hold Hw Hoff Hon Hin.
  apply list_elem_of_lookup in Hin as [j Hj].
  destruct (decide (j ∈ ws)) as [Hjw|Hjw].
  - destruct (Hon j Hjw) as (e & He & Hfresh). rewrite Hj in He. injection He as <-.
    apply Hfresh. by eapply list_elem_of_lookup_2.
  - rewrite Hoff in Hj by done.
    assert (j = w) as -> by (by eapply NoDup_lookup). done.
Qed.

(** C6, as the code has it.  On a device with a representation that exists:
    after construction and after [reset] (with at least one wire), and
    after every successful state preparation, whatever the device held
    before, the wire-edge table is in order: [num_wires] entries, no
    entry twice, every entry dangling; in the exact representation the
    entries are exactly the dangling edges of the network of the state,
    in the chain representation entry [i] is the edge of the wire axis
    of chain node [i].  A successful gate on a device with its table in
    order keeps it in order; it leaves the entries of the wires it does
    not act on as they were, and for every wire it acts on it takes the
    entry out of the table (in the exact representation by joining it
    to the gate, so that it dangles no more) and puts in an edge that
    was not in the table.  Reading the state in the exact
    representation keeps the table in order. *)
Theorem wire_edge_table_invariant (s s' : DefaultTensor C R) operation wires par :
  (_rep s = "exact" ∨ _rep s = "mps") →
  (∀ n k representation method,
     0 < n → 0 < k → representation ∈ ["exact"; "mps"] →
     ∃ s0, __init__ (R := R) n k representation method = Ok tt s0
           ∧ wire_table_ok s0 ∧ num_wires s0 = n)
  ∧ (0 < num_wires s →
     ∃ s1, reset s = Ok tt s1 ∧ wire_table_ok s1 ∧ num_wires s1 = num_wires s)
  ∧ (state_preparation operation → apply operation wires par s = Ok tt s' →
     wire_table_ok s' ∧ num_wires s' = num_wires s)
  ∧ (¬ state_preparation operation → wire_table_ok s →
     apply operation wires par s = Ok tt s' →
     wire_table_ok s' ∧ num_wires s' = num_wires s
     ∧ ∃ ws, wires = Some ws
             ∧ (∀ w, w ∉ ws → _free_wire_edges s' !! w = _free_wire_edges s !! w)
             ∧ (∀ w, w ∈ ws →
                  ∃ old new, _free_wire_edges s !! w = Some old
                             ∧ _free_wire_edges s' !! w = Some new
                             ∧ (new ∉ _free_wire_edges s)
                             ∧ (old ∉ _free_wire_edges s')
                             ∧ (_rep s = "exact" → ¬ is_dangling (joined s') old)))
  ∧ (_rep s = "exact" → wire_table_ok s → wire_table_ok (state_of (_state s))).
Proof.
  intros Hrep. split; [| split; [| split; [| split]]].
  - intros n k representation method Hn Hk Hin.
    destruct (__init___spec (R := R) n k representation method Hk Hin)
      as (s0 & H0 & Hn0 & _).
    exists s0. split; [done |]. split; [| done].
    unfold __init__, Device__init__ in H0.
    rewrite decide_False in H0 by lia.
    rewrite decide_False in H0 by (by intros ?).
    eapply reset_network; [| exact H0]. simpl.
    apply elem_of_cons in Hin as [-> | Hin]; [by left |].
    apply list_elem_of_singleton in Hin as ->. by right.
  - intros _. destruct (reset_spec s) as (s1 & H1 & (Hn & _) & _).
    exists s1. split; [done |]. split; [by eapply reset_network | done].
  - intros Hop H. split; [by eapply preparation_network |].
    pose proof (apply_num_wires s operation wires par) as Hn. by rewrite H in Hn.
  - intros Hop Hs H.
    pose proof (apply_num_wires s operation wires par) as Hn. rewrite H in Hn.
    simpl in Hn. rewrite apply_gate in H by done.
    pose proof Hs as [Horder Hnet].
    assert (∃ ws, wires = Some ws ∧ table_in_order s'
      ∧ (∀ w, w ∉ ws → _free_wire_edges s' !! w = _free_wire_edges s !! w)
      ∧ (∀ w, w ∈ ws → ∃ e, _free_wire_edges s' !! w = Some e
                            ∧ e ∉ _free_wire_edges s))
      as (ws & -> & Horder' & Hoff & Hon).
    { destruct Hrep as [Hex|Hmps].
      - by apply (gate_table_exact s s' operation wires par).
      - by apply (gate_table_mps s s' operation wires par). }
    assert (_rep s' = _rep s) as Hr.
    { pose proof (_add_gate_nodes_frame (λ x, _rep x = _rep s) operation (Some ws) par
        ltac:(eauto with preserves) ltac:(eauto with preserves)
        ltac:(eauto with preserves) ltac:(eauto with preserves)
        ltac:(eauto with preserves) s eq_refl) as Hf.
      by rewrite H in Hf. }
    split; [| split; [done |]].
    { split; [done |]. rewrite Hr. intros Hex.
      by destruct (gate_network s s' operation ws par Hs Hex H). }
    exists ws. split; [done |]. split; [done |].
    intros w Hw. destruct (Hon w Hw) as (new & Hnew & Hfresh).
    assert (is_Some (_free_wire_edges s !! w)) as [old Hold].
    { apply lookup_lt_is_Some. apply lookup_lt_Some in Hnew.
      destruct Horder as (_ & Hl & _), Horder' as (_ & Hl' & _). lia. }
    exists old, new. split; [done |]. split; [done |]. split; [done |]. split.
    + destruct Horder as (_ & _ & Hnd & _).
      by eapply (replaced_entry_is_gone _ _ ws w).
    + intros Hex.
      destruct (gate_network s s' operation ws par Hs Hex H) as [_ Hjoined].
      by eapply Hjoined.
  - apply _state_network.
Qed.
End Network.

(** After a [BasisState] that is refused for its parameter, a gate on
    no wires succeeds on a device of two wires and leaves a wire-edge
    table without entries. *)
Lemma gate_after_refused_preparation :
  ∃ s1 s2,
    apply "BasisState" (Some [0; 1]) [mkTensor [2] [(1, 0); (2, 0)]%Z] two_wires
    = Raise (ValueError basis_state_parameter) s1
    ∧ apply "QubitUnitary" (Some []) [mkTensor [1; 1] [(1, 0)%Z]] s1 = Ok tt s2
    ∧ ¬ state_preparation "QubitUnitary"
    ∧ num_wires s2 = 2
    ∧ _free_wire_edges s2 = [].
Proof.
  eexists _, _.
  split; [vm_compute; reflexivity |].
  split; [vm_compute; reflexivity |].
  split; [intros [H | H]; discriminate H |].
  split; vm_compute; reflexivity.
Qed.

(** The table of a device of two wires, before and after a CNOT. *)
Lemma wire_edge_table_invariant_witness :
  wire_table_ok two_wires
  ∧ wire_table_ok (state_of (apply "CNOT" (Some [0; 1]) [] two_wires))
  ∧ ∃ old new,
      _free_wire_edges two_wires !! 1 = Some old
      ∧ _free_wire_edges (state_of (apply "CNOT" (Some [0; 1]) [] two_wires)) !! 1
        = Some new
      ∧ (old ∉ _free_wire_edges (state_of (apply "CNOT" (Some [0; 1]) [] two_wires)))
      ∧ ¬ is_dangling (joined (state_of (apply "CNOT" (Some [0; 1]) [] two_wires))) old.
Proof.
  assert (_rep two_wires = "exact") as Hex by (vm_compute; reflexivity).
  assert (¬ state_preparation "CNOT") as Hop by (intros [H | H]; discriminate H).
  assert (apply "CNOT" (Some [0; 1]) [] two_wires
          = Ok tt (state_of (apply "CNOT" (Some [0; 1]) [] two_wires))) as H
    by (vm_compute; reflexivity).
  destruct (wire_edge_table_invariant two_wires
              (state_of (apply "CNOT" (Some [0; 1]) [] two_wires))
              "CNOT" (Some [0; 1]) [] (or_introl Hex)) as (Hinit & _ & _ & Hgate & _).
  assert ("exact" ∈ ["exact"; "mps"]) as Hin
    by (apply (bool_decide_unpack _); vm_compute; exact I).
  assert (0 < 2) as H2 by lia. assert (0 < 3) as H3 by lia.
  destruct (Hinit 2 3 "exact" "auto" H2 H3 Hin) as (s0 & H0 & Hok & _).
  assert (s0 = two_wires) as Hs0 by (unfold two_wires; rewrite H0; reflexivity).
  rewrite Hs0 in Hok.
  destruct (Hgate Hop Hok H) as (Hok' & _ & ws & Hws & _ & Hon).
  injection Hws as Hws.
  assert (1 ∈ ws) as H1 by (rewrite <- Hws; apply (bool_decide_unpack _); vm_compute; exact I).
  destruct (Hon 1 H1) as (old & new & Hold & Hnew & _ & Hgone & Hjoined).
  split; [exact Hok |]. split; [exact Hok' |].
  exists old, new. exact (conj Hold (conj Hnew (conj Hgone (Hjoined Hex)))).
Defined.
